(** * Build Automator: the orchestration loop, the log scanner and the packager

    A shallow embedding of [src/__main__.py] (with the configuration classes
    of [src/config_type.py] it reads), and the properties of the control loop
    stated over it.

    Conventions of the embedding.
    - Python [int] is [Z]; [str] is [string] (a byte string: a UTF-8 text and
      its keywords, substring search on bytes finds what search on code
      points finds); [float] seconds of [time.time()] are integer ticks [Z],
      only compared and subtracted.
    - [pathlib.Path] is the list of its parts; the file system is a finite
      map from paths to the kind of entry found there.
    - Everything the program does to the outside world is an [Event] appended
      to a chronological trace; what the outside world answers is read from an
      [Env] record, one per pass of the [while True] loop.
    - The exceptions modelled are the ones the source raises or catches
      itself ([svn_revision], [svn_update], the [try] blocks of [svn_cleanup]
      and [unreal_build_project]) and those of the calls the packager makes
      on the disk without a guard: [write_text] of the logs file into a
      directory that is not there, [rename] onto a path that exists (the
      program imports [winsound]: it runs on Windows, where [Path.rename]
      does not replace its target), and a 7z that cannot be started. They
      travel to the handler at the bottom of the loop, which catches
      [KeyboardInterrupt] only. The other library calls the source does not
      guard (the speech engine, [unlink] of an archive that was found, [_sh]
      for svn and taskkill outside [svn_cleanup]) are taken to return.
      Console prints are not events.
    - Where the configuration classes look at the disk and walk it, the disk
      is a tree of directories whose listings keep the order the system gives
      them; how [pathlib] reads a string as a path and resolves it, and what
      [tomllib] parses, are answers of the [Host].
    - A value of the configuration file is read at the type its annotation in
      the source says ([Typed]); a file with a value of another type is
      outside the model. *)

From stdpp Require Import gmap strings list fin_maps.
From Stdlib Require Import ZArith Ascii DecimalString.
From Stdlib Require DecimalZ.

Open Scope Z_scope.

(* ===================================================================== *)
(** ** Strings *)

Module Str.

(** [str.find(sub)]: the lowest index at which [sub] occurs, [-1] if none. *)
Fixpoint find (s sub : string) : Z :=
  if String.prefix sub s then 0
  else match s with
       | EmptyString => -1
       | String _ s' => let i := find s' sub in
                        if i =? -1 then -1 else i + 1
       end.

(** [sub in s], as the source tests it: [s.find(sub) != -1]. *)
Definition contains (s sub : string) : bool := negb (find s sub =? -1).

(** [str(n)] for an [int]. *)
Definition of_Z (z : Z) : string := NilZero.string_of_int (Z.to_int z).

(** [s.rfind(c)] for a single character, as an option. *)
Fixpoint rfind (c : ascii) (s : string) : option nat :=
  match s with
  | EmptyString => None
  | String a s' =>
      match rfind c s' with
      | Some i => Some (S i)
      | None => if Ascii.eqb a c then Some 0%nat else None
      end
  end.

(** [s[i:]] *)
Fixpoint drop (i : nat) (s : string) : string :=
  match i, s with
  | O, _ => s
  | S i', String _ s' => drop i' s'
  | S _, EmptyString => EmptyString
  end.

(** [sep.join(parts)] *)
Fixpoint join (sep : string) (parts : list string) : string :=
  match parts with
  | [] => ""
  | [p] => p
  | p :: rest => p +:+ sep +:+ join sep rest
  end.

(** A keyword lies across the seam of [a +:+ b]: a proper, non-empty
    head of it ends [a] and the rest starts [b]. *)
Definition straddles (a b k : string) : Prop :=
  ∃ k1 k2 p q, k = k1 +:+ k2 ∧ k1 ≠ "" ∧ k2 ≠ "" ∧ a = p +:+ k1 ∧ b = k2 +:+ q.

End Str.

(* ===================================================================== *)
(** ** Paths and the file system *)

(** A [pathlib.Path], as the list of its parts. *)
Abbreviation Path := (list string).

Module Pathlib.

(** [p / name] *)
Definition joinpath (p : Path) (name : string) : Path := p ++ [name].

(** [p.name] *)
Definition name (p : Path) : string := List.last p "".

(** [p.parent] *)
Definition parent (p : Path) : Path := List.removelast p.

(** [p.suffix]: the last dot of the name and what follows, unless that dot is
    the first or the last character of the name. *)
Definition suffix (p : Path) : string :=
  let n := name p in
  match Str.rfind "." n with
  | Some i => if (0 <? i)%nat && (i <? String.length n - 1)%nat
              then Str.drop i n else ""
  | None => ""
  end.

(** [str(p)]; the path with no parts is written [.] *)
Definition str (p : Path) : string :=
  match p with
  | [] => "."
  | _ => Str.join "/" p
  end.

End Pathlib.

Infix "/:" := Pathlib.joinpath (at level 40, left associativity).

(** What is found at a path. *)
Inductive Entry := File | Directory.

#[global] Instance Entry_eq_dec : EqDecision Entry.
Proof. solve_decision. Defined.

(** The file system: the paths that exist, with what is there. *)
Abbreviation FS := (gmap Path Entry).

Module Fs.

(** [p.exists()] *)
Definition exists_ (fs : FS) (p : Path) : bool := bool_decide (is_Some (fs !! p)).

(** [p.is_dir()] *)
Definition is_dir (fs : FS) (p : Path) : bool := bool_decide (fs !! p = Some Directory).

(** [p.unlink()] *)
Definition unlink (fs : FS) (p : Path) : FS := delete p fs.

(** [src.rename(dst)], as Windows has it: the entry moves to its new path
    when nothing is there; [None] when the call raises, for want of the
    source ([FileNotFoundError]) or because the target exists
    ([FileExistsError]). *)
Definition rename (fs : FS) (src dst : Path) : option FS :=
  match fs !! src, fs !! dst with
  | Some e, None => Some (<[dst := e]> (delete src fs))
  | _, _ => None
  end.

(** [file.write_text(text)]: the file is there afterwards; [None] when the
    call raises, because the directory of the file is not there or is no
    directory ([FileNotFoundError]), or because the file is a directory
    ([PermissionError]). *)
Definition can_write (fs : FS) (file : Path) : bool :=
  is_dir fs (Pathlib.parent file) && negb (is_dir fs file).

Definition write_text (fs : FS) (file : Path) : option FS :=
  if can_write fs file then Some (<[file := File]> fs) else None.

End Fs.

(* ===================================================================== *)
(** ** The disk as a tree of directories *)

(** What [pathlib] finds on the disk when it looks and walks: a file, or a
    directory with its entries in the order the system lists them. *)
#[warnings="-register-all"]
Inductive Node :=
| FileNode
| DirNode (entries : list (string * Node)).

Module Tree.

(** The entry of a listing with this name. *)
Fixpoint entry (name : string) (entries : list (string * Node)) : option Node :=
  match entries with
  | [] => None
  | (n, child) :: rest => if String.eqb n name then Some child else entry name rest
  end.

(** What is found at a path, from a node down. *)
Fixpoint lookup (n : Node) (p : Path) : option Node :=
  match p with
  | [] => Some n
  | name :: rest =>
      match n with
      | FileNode => None
      | DirNode entries =>
          match entry name entries with
          | Some child => lookup child rest
          | None => None
          end
      end
  end.

Definition is_directory (n : Node) : bool :=
  match n with DirNode _ => true | FileNode => false end.

(** The names of a listing that are directories, and the others. *)
Definition dirnames (entries : list (string * Node)) : list string :=
  fst <$> filter (λ e, is_directory e.2 = true) entries.

Definition filenames (entries : list (string * Node)) : list string :=
  fst <$> filter (λ e, is_directory e.2 = false) entries.

(** [path.walk()], top down: a directory gives its own triple
    [(root, dirnames, filenames)], then the triples of its directories, in
    the order of the listing; what is not a directory gives nothing. *)
Fixpoint walk_node (root : Path) (n : Node) : list (Path * list string * list string) :=
  match n with
  | FileNode => []
  | DirNode entries =>
      (root, dirnames entries, filenames entries)
      :: (fix below (es : list (string * Node)) :=
            match es with
            | [] => []
            | (name, child) :: rest => walk_node (root /: name) child ++ below rest
            end) entries
  end.

(** [p.exists()], [p.is_dir()], [p.is_file()] and [p.walk()] on a tree. *)
Definition exists_ (t : Node) (p : Path) : bool :=
  match lookup t p with Some _ => true | None => false end.

Definition is_dir (t : Node) (p : Path) : bool :=
  match lookup t p with Some (DirNode _) => true | _ => false end.

Definition is_file (t : Node) (p : Path) : bool :=
  match lookup t p with Some FileNode => true | _ => false end.

Definition walk (t : Node) (p : Path) : list (Path * list string * list string) :=
  match lookup t p with Some n => walk_node p n | None => [] end.

End Tree.

(* ===================================================================== *)
(** ** Configuration (config_type.py) *)

(** A sound setting: one path or a list of paths. *)
Inductive Sounds := OnePath (p : Path) | ManyPaths (ps : list Path).

Record BA_ProjectConfig := {
  project_path : Path;
  uproject : Path;
}.

(** [@property filename] *)
Definition filename (p : BA_ProjectConfig) : string := Pathlib.name (project_path p).

Record BA_SVNConfig := {
  svn_exe : Path;
  update_interval_in_seconds : Z;
  cleanup_timeout_in_seconds : Z;
}.

Record BA_UnrealAutomationToolConfig := {
  default_build_name : string;
  uat_exe : Path;
  platform : string;
  build_type : string;
  uat_output : Path;
}.

Record BA_BuildExportConfig := {
  override_zip : bool;
  export_output : Path;
  max_num_relevant_logs : Z;
}.

Record BA_SpecialLogKeywordsCommandsConfig := {
  is_enabled : bool;
  make_dev_build : string;
  ignore_build : string;
}.

(** [@property all_commands] *)
Definition all_commands (k : BA_SpecialLogKeywordsCommandsConfig) : list string :=
  [make_dev_build k; ignore_build k].

Record BA_SoundsConfig := {
  build_starting : Sounds;
  build_success : Sounds;
  build_fail : Sounds;
  build_unknown_error : Sounds;
}.

Record BuildAutomatorConfig := {
  should_print_configs : bool;
  project : BA_ProjectConfig;
  svn : BA_SVNConfig;
  uat : BA_UnrealAutomationToolConfig;
  build_export : BA_BuildExportConfig;
  special_log_keywords : BA_SpecialLogKeywordsCommandsConfig;
  sounds : BA_SoundsConfig;
}.

(** [config.uat.build_type = value]: the assignment to the attribute of the
    held configuration object, as a new value of the record. *)
Definition set_build_type (value : string) (config : BuildAutomatorConfig)
  : BuildAutomatorConfig :=
  {| should_print_configs := should_print_configs config;
     project := project config;
     svn := svn config;
     uat := {| default_build_name := default_build_name (uat config);
               uat_exe := uat_exe (uat config);
               platform := platform (uat config);
               build_type := value;
               uat_output := uat_output (uat config) |};
     build_export := build_export config;
     special_log_keywords := special_log_keywords config;
     sounds := sounds config |}.

(** [_BA_SpecialLogKeywordsCommandsConfig.is_valid] *)
Definition keywords_is_valid (k : BA_SpecialLogKeywordsCommandsConfig) : bool :=
  negb (String.eqb (make_dev_build k) "") && negb (String.eqb (ignore_build k) "").

(** [BuildAutomatorConfig.is_valid]: every section is valid. The project,
    svn and unreal sections ask the file system whether their paths exist
    ([paths_exist] is its answer); the keywords section wants both keywords
    non-empty; build_export and sounds are always valid. *)
Definition is_valid (paths_exist : BuildAutomatorConfig → bool)
    (config : BuildAutomatorConfig) : bool :=
  paths_exist config && keywords_is_valid (special_log_keywords config).

(* ===================================================================== *)
(** ** The configuration file (config_type.py) *)

(** A value of a parsed TOML file. Numbers are integers, as the seconds of
    this model are. *)
#[warnings="-register-all"]
Inductive Value :=
| VBool (b : bool)
| VInt (z : Z)
| VStr (s : string)
| VList (items : list Value)
| VTable (table : gmap string Value).

(** [_RawConfig = dict[str, Any]] *)
Abbreviation _RawConfig := (gmap string Value).

(** [if v:] for a value of the file. *)
Definition truthy (v : Value) : bool :=
  match v with
  | VBool b => b
  | VInt z => negb (z =? 0)
  | VStr s => negb (String.eqb s "")
  | VList items => negb (Nat.eqb (length items) 0)
  | VTable table => negb (Nat.eqb (size table) 0)
  end.

(** [_get_config(config, category, property)]; [None] is Python's. *)
Definition _get_config (config : option _RawConfig) (category property : string)
  : option Value :=
  match config with
  | None => None
  | Some config =>
      if Nat.eqb (size config) 0 then None            (* if not config *)
      else
        match config !! category with                 (* config.get(category, None) *)
        | None => None
        | Some config_category =>
            if negb (truthy config_category) then None
            else match config_category with
                 | VTable table => table !! property  (* config_category.get(property, None) *)
                 | _ => None                          (* not isinstance(..., dict) *)
                 end
        end
  end.

Arguments _get_config : simpl never.

(** The machine the program runs on: the root directory of its disk, how
    [pathlib] reads a string as a path and resolves a path, and what
    [tomllib] makes of the file at a path ([None] when opening or parsing
    raises). The path with no parts, [Path()], finds the root of the tree:
    a directory, as the current directory is. *)
Record Host := {
  listing : list (string * Node);
  Path_of : string → Path;
  resolve : Path → Path;
  tomllib_load : Path → option _RawConfig;
}.

Definition tree (h : Host) : Node := DirNode (listing h).

(** [Path(s).resolve()] *)
Definition resolved (h : Host) (s : string) : Path := resolve h (Path_of h s).

(** A value of the file read at the type the source annotates it with. A
    value of another type is outside this model: what Python does with it
    (a [TypeError] here, a mistyped attribute there) is not described. *)
Inductive Typed (A : Type) :=
| Well (a : A)
| IllTyped.
Arguments Well {A} a.
Arguments IllTyped {A}.

#[global] Instance Typed_ret : MRet Typed := λ A a, Well a.
#[global] Instance Typed_bind : MBind Typed := λ A B f m,
  match m with Well a => f a | IllTyped => IllTyped end.

Definition as_bool (v : option Value) : Typed (option bool) :=
  match v with
  | None => Well None
  | Some (VBool b) => Well (Some b)
  | Some _ => IllTyped
  end.

Definition as_int (v : option Value) : Typed (option Z) :=
  match v with
  | None => Well None
  | Some (VInt z) => Well (Some z)
  | Some _ => IllTyped
  end.

Definition as_str (v : option Value) : Typed (option string) :=
  match v with
  | None => Well None
  | Some (VStr s) => Well (Some s)
  | Some _ => IllTyped
  end.

Fixpoint as_strs (items : list Value) : Typed (list string) :=
  match items with
  | [] => Well []
  | VStr s :: rest => strs ← as_strs rest; Well (s :: strs)
  | _ :: _ => IllTyped
  end.

(** [list[str] | str | None] *)
Definition as_str_or_strs (v : option Value) : Typed (option (string + list string)) :=
  match v with
  | None => Well None
  | Some (VStr s) => Well (Some (inl s))
  | Some (VList items) => strs ← as_strs items; Well (Some (inr strs))
  | Some _ => IllTyped
  end.

(** [if x:] for an optional string, integer or flag: the value when the
    test holds. *)
Definition if_str (x : option string) : option string :=
  match x with
  | Some s => if String.eqb s "" then None else Some s
  | None => None
  end.

Definition if_int (x : option Z) : option Z :=
  match x with
  | Some z => if z =? 0 then None else Some z
  | None => None
  end.

Definition if_bool (x : option bool) : option bool :=
  match x with
  | Some true => Some true
  | _ => None
  end.

(** [_get_path_or_paths] *)
Definition _get_path_or_paths (h : Host) (possible_path : string + list string) : Sounds :=
  match possible_path with
  | inr paths => ManyPaths (resolved h <$> paths)
  | inl path => OnePath (resolved h path)
  end.

(** The first file of a listing with the suffix [.uproject], below [root]. *)
Fixpoint uproject_among (h : Host) (root : Path) (files : list string) : option Path :=
  match files with
  | [] => None
  | file :: rest =>
      if String.eqb (Pathlib.suffix [file]) ".uproject"
      then Some (resolve h (root /: file))
      else uproject_among h root rest
  end.

(** The two loops of [try_find_uproject_path] over a walk. *)
Fixpoint uproject_in (h : Host) (walked : list (Path * list string * list string))
  : option Path :=
  match walked with
  | [] => None
  | (root, _, files) :: rest =>
      match uproject_among h root files with
      | Some path => Some path
      | None => uproject_in h rest
      end
  end.

Definition try_find_uproject_path (h : Host) (project_path : Path) : option Path :=
  if negb (Tree.exists_ (tree h) project_path) then None
  else if negb (Tree.is_dir (tree h) project_path) then None
  else uproject_in h (Tree.walk (tree h) project_path).

(** *** [_BA_ProjectConfig] *)

Module Project.

(** [__init__]: [Path()] twice. *)
Definition init : BA_ProjectConfig := {| project_path := []; uproject := [] |}.

(** The setter of [path]. *)
Definition set_path (h : Host) (value : Path) (self : BA_ProjectConfig)
  : BA_ProjectConfig :=
  let uproject_path := try_find_uproject_path h value in
  {| project_path := value;
     uproject := match uproject_path with
                 | Some found => found
                 | None => uproject self
                 end |}.

Definition is_valid (h : Host) (self : BA_ProjectConfig) : bool :=
  Tree.exists_ (tree h) (project_path self)
  && Tree.is_dir (tree h) (project_path self)
  && Tree.exists_ (tree h) (uproject self)
  && Tree.is_file (tree h) (uproject self).

Definition read_config (h : Host) (config : _RawConfig) (self : BA_ProjectConfig)
  : Typed (bool * BA_ProjectConfig) :=
  project_path ← as_str (_get_config (Some config) "project" "path");
  match if_str project_path with
  | None => Well (false, self)
  | Some project_path =>
      let self := set_path h (resolved h project_path) self in
      if negb (is_valid h self) then Well (false, self)
      else Well (true, self)
  end.

End Project.

(** *** [_BA_SVNConfig] *)

Module Svn.

Definition init (h : Host) : BA_SVNConfig :=
  {| svn_exe := resolved h "C:/Program Files/TortoiseSVN/bin/svn.exe";
     update_interval_in_seconds := 1;
     cleanup_timeout_in_seconds := 1 * 60 * 60 |}.

Definition with_exe (value : Path) (self : BA_SVNConfig) : BA_SVNConfig :=
  {| svn_exe := value;
     update_interval_in_seconds := update_interval_in_seconds self;
     cleanup_timeout_in_seconds := cleanup_timeout_in_seconds self |}.

(** [self._update_interval_in_seconds = value] *)
Definition store_update_interval (value : Z) (self : BA_SVNConfig) : BA_SVNConfig :=
  {| svn_exe := svn_exe self;
     update_interval_in_seconds := value;
     cleanup_timeout_in_seconds := cleanup_timeout_in_seconds self |}.

(** The setter of [update_interval_in_seconds]: for a value that is not
    positive it runs itself with 1, and that run stores the 1. *)
Definition set_update_interval_in_seconds (value : Z) (self : BA_SVNConfig)
  : BA_SVNConfig :=
  if value <=? 0 then
    (if 1 <=? 0 then self else store_update_interval 1 self)
  else store_update_interval value self.

Definition with_cleanup_timeout (value : Z) (self : BA_SVNConfig) : BA_SVNConfig :=
  {| svn_exe := svn_exe self;
     update_interval_in_seconds := update_interval_in_seconds self;
     cleanup_timeout_in_seconds := value |}.

Definition is_valid (h : Host) (self : BA_SVNConfig) : bool :=
  Tree.exists_ (tree h) (svn_exe self) && Tree.is_file (tree h) (svn_exe self).

(** The end of [read_config]: the two numbers of the section. *)
Definition read_intervals (config : _RawConfig) (self : BA_SVNConfig)
  : Typed (bool * BA_SVNConfig) :=
  update_interval ← as_int (_get_config (Some config) "svn" "update_interval_in_seconds");
  let self := match if_int update_interval with
              | Some value => set_update_interval_in_seconds value self
              | None => self
              end in
  cleanup_timeout ← as_int (_get_config (Some config) "svn" "cleanup_timeout_in_seconds");
  let self := match cleanup_timeout with
              | Some value =>
                  if value >? 1 then with_cleanup_timeout value self else self
              | None => self
              end in
  Well (true, self).

Definition read_config (h : Host) (config : _RawConfig) (self : BA_SVNConfig)
  : Typed (bool * BA_SVNConfig) :=
  svn_exe_path ← as_str (_get_config (Some config) "svn" "exe_path");
  match if_str svn_exe_path with
  | Some svn_exe_path =>
      let self := with_exe (resolved h svn_exe_path) self in
      if negb (Tree.exists_ (tree h) (svn_exe self))
         || negb (Tree.is_file (tree h) (svn_exe self))
      then Well (false, self)
      else read_intervals config self
  | None => read_intervals config self
  end.

End Svn.

(** *** [_BA_UnrealAutomationToolConfig] *)

Module Uat.

Definition init (h : Host) : BA_UnrealAutomationToolConfig :=
  {| default_build_name := "Windows";
     uat_exe := resolved h "C:/Program Files/Epic Games/UE_5.3/Engine/Build/BatchFiles/RunUAT.bat";
     platform := "Win64";
     build_type := "Shipping";
     uat_output := resolved h "./bin" |}.

Definition with_exe (value : Path) (self : BA_UnrealAutomationToolConfig)
  : BA_UnrealAutomationToolConfig :=
  {| default_build_name := default_build_name self;
     uat_exe := value;
     platform := platform self;
     build_type := build_type self;
     uat_output := uat_output self |}.

Definition with_platform (value : string) (self : BA_UnrealAutomationToolConfig)
  : BA_UnrealAutomationToolConfig :=
  {| default_build_name := default_build_name self;
     uat_exe := uat_exe self;
     platform := value;
     build_type := build_type self;
     uat_output := uat_output self |}.

Definition with_build_type (value : string) (self : BA_UnrealAutomationToolConfig)
  : BA_UnrealAutomationToolConfig :=
  {| default_build_name := default_build_name self;
     uat_exe := uat_exe self;
     platform := platform self;
     build_type := value;
     uat_output := uat_output self |}.

Definition is_valid (h : Host) (self : BA_UnrealAutomationToolConfig) : bool :=
  Tree.exists_ (tree h) (uat_exe self) && Tree.is_file (tree h) (uat_exe self).

Definition read_config (h : Host) (config : _RawConfig)
    (self : BA_UnrealAutomationToolConfig)
  : Typed (bool * BA_UnrealAutomationToolConfig) :=
  uat_exe_path ← as_str (_get_config (Some config) "unreal" "uat_exe_path");
  let self := match if_str uat_exe_path with
              | Some uat_exe_path => with_exe (resolved h uat_exe_path) self
              | None => self
              end in
  if negb (Tree.exists_ (tree h) (uat_exe self))
     || negb (Tree.is_file (tree h) (uat_exe self))
  then Well (false, self)
  else
    uat_platform ← as_str (_get_config (Some config) "unreal" "platform");
    let self := match if_str uat_platform with
                | Some uat_platform => with_platform uat_platform self
                | None => self
                end in
    uat_build_type ← as_str (_get_config (Some config) "unreal" "build_type");
    let self := match if_str uat_build_type with
                | Some uat_build_type => with_build_type uat_build_type self
                | None => self
                end in
    Well (true, self).

End Uat.

(** *** [_BA_BuildExportConfig] *)

Module BuildExport.

Definition init (h : Host) : BA_BuildExportConfig :=
  {| override_zip := false;
     export_output := resolved h "./builds";
     max_num_relevant_logs := 10 |}.

Definition is_valid (self : BA_BuildExportConfig) : bool := true.

Definition read_config (h : Host) (config : _RawConfig) (self : BA_BuildExportConfig)
  : Typed (bool * BA_BuildExportConfig) :=
  override ← as_bool (_get_config (Some config) "build_export" "override_zip");
  let self := match if_bool override with
              | Some override =>
                  {| override_zip := override;
                     export_output := export_output self;
                     max_num_relevant_logs := max_num_relevant_logs self |}
              | None => self
              end in
  output_directory ← as_str (_get_config (Some config) "build_export" "output_directory");
  let self := match if_str output_directory with
              | Some output_directory =>
                  {| override_zip := override_zip self;
                     export_output := resolved h output_directory;
                     max_num_relevant_logs := max_num_relevant_logs self |}
              | None => self
              end in
  max_logs ← as_int (_get_config (Some config) "build_export" "max_num_relevant_logs");
  let self := match if_int max_logs with
              | Some max_logs =>
                  if max_logs <? 999 then
                    {| override_zip := override_zip self;
                       export_output := export_output self;
                       max_num_relevant_logs := max_logs |}
                  else self
              | None => self
              end in
  Well (true, self).

End BuildExport.

(** *** [_BA_SpecialLogKeywordsCommandsConfig] *)

Module Keywords.

Definition init : BA_SpecialLogKeywordsCommandsConfig :=
  {| is_enabled := true;
     make_dev_build := "#devbuild";
     ignore_build := "#ignorebuild" |}.

Definition read_config (config : _RawConfig) (self : BA_SpecialLogKeywordsCommandsConfig)
  : Typed (bool * BA_SpecialLogKeywordsCommandsConfig) :=
  enabled ← as_bool (_get_config (Some config) "special_log_keywords" "enabled");
  let self := match enabled with
              | Some enabled =>
                  {| is_enabled := enabled;
                     make_dev_build := make_dev_build self;
                     ignore_build := ignore_build self |}
              | None => self
              end in
  dev ← as_str (_get_config (Some config) "special_log_keywords" "make_dev_build");
  let self := match if_str dev with
              | Some dev =>
                  {| is_enabled := is_enabled self;
                     make_dev_build := dev;
                     ignore_build := ignore_build self |}
              | None => self
              end in
  ignore ← as_str (_get_config (Some config) "special_log_keywords" "ignore_build");
  let self := match if_str ignore with
              | Some ignore =>
                  {| is_enabled := is_enabled self;
                     make_dev_build := make_dev_build self;
                     ignore_build := ignore |}
              | None => self
              end in
  Well (keywords_is_valid self, self).

End Keywords.

(** *** [_BA_SoundsConfig] *)

Module SoundPaths.

Definition init (h : Host) : BA_SoundsConfig :=
  {| build_starting := OnePath (resolved h "./");
     build_success := OnePath (resolved h "./");
     build_fail := OnePath (resolved h "./");
     build_unknown_error := OnePath (resolved h "./") |}.

Definition is_valid (self : BA_SoundsConfig) : bool := true.

(** [if v:] for a string or a list of strings. *)
Definition if_given (x : option (string + list string)) : option (string + list string) :=
  match x with
  | Some (inl s) => if String.eqb s "" then None else Some (inl s)
  | Some (inr l) => if Nat.eqb (length l) 0 then None else Some (inr l)
  | None => None
  end.

Definition read_config (h : Host) (config : _RawConfig) (self : BA_SoundsConfig)
  : Typed (bool * BA_SoundsConfig) :=
  starting ← as_str_or_strs (_get_config (Some config) "sounds" "build_starting");
  success ← as_str_or_strs (_get_config (Some config) "sounds" "build_success");
  fail ← as_str_or_strs (_get_config (Some config) "sounds" "build_fail");
  unknown_error ← as_str_or_strs (_get_config (Some config) "sounds" "build_unknown_error");
  let pick (given : option (string + list string)) (held : Sounds) : Sounds :=
    match if_given given with
    | Some paths => _get_path_or_paths h paths
    | None => held
    end in
  Well (is_valid self,
        {| build_starting := pick starting (build_starting self);
           build_success := pick success (build_success self);
           build_fail := pick fail (build_fail self);
           build_unknown_error := pick unknown_error (build_unknown_error self) |}).

(** The loop of [__str__] over the indices of a list of paths, adding to
    the text so far. *)
Definition str_paths (text : string) (path : list Path) : string :=
  let num_paths := length path in
  fold_left (λ text i,
               match path !! i with
               | Some sub_path =>
                   let text := text +:+ Pathlib.name sub_path in
                   if (i <? num_paths)%nat then text +:+ ", " else text
               | None => text                     (* IndexError: never *)
               end)
            (seq 0 num_paths) text.

(** [__str__] *)
Definition str (self : BA_SoundsConfig) : string :=
  let sounds_paths :=
    [("build starting", build_starting self);
     ("build success", build_success self);
     ("build fail", build_fail self);
     ("build unknown error", build_unknown_error self)] in
  fold_left (λ text entry,
               let '(path_key, path) := entry : string * Sounds in
               let text := text +:+ path_key +:+ ": " in
               let text := match path with
                           | OnePath path => text +:+ Pathlib.name path
                           | ManyPaths path => str_paths text path
                           end in
               text +:+ String "010"%char "")     (* a line feed *)
            sounds_paths "".

(** What one reads in the text for a setting: the name of the path, or the
    names of the list, each one followed by a comma and a space. *)
Fixpoint names_listed (paths : list Path) : string :=
  match paths with
  | [] => ""
  | path :: rest => Pathlib.name path +:+ ", " +:+ names_listed rest
  end.

Definition setting_listed (path : Sounds) : string :=
  match path with
  | OnePath path => Pathlib.name path
  | ManyPaths paths => names_listed paths
  end.

End SoundPaths.

(** *** [BuildAutomatorConfig] *)

(** The sections of a configuration, by their category. *)
Inductive Category :=
| CProject | CSvn | CUnreal | CSpecialLogKeywords | CBuildExport | CSounds.

#[global] Instance Category_eq_dec : EqDecision Category.
Proof. solve_decision. Defined.

Module Config.

(** [property all_configs], in its order. *)
Definition all_configs : list Category :=
  [CProject; CSvn; CUnreal; CSpecialLogKeywords; CBuildExport; CSounds].

(** [BuildAutomatorConfig()], before any file is read. *)
Definition default (h : Host) : BuildAutomatorConfig :=
  {| should_print_configs := true;
     project := Project.init;
     svn := Svn.init h;
     uat := Uat.init h;
     build_export := BuildExport.init h;
     special_log_keywords := Keywords.init;
     sounds := SoundPaths.init h |}.

(** [property_config.is_valid()] for the section of a category. *)
Definition section_is_valid (h : Host) (self : BuildAutomatorConfig) (category : Category)
  : bool :=
  match category with
  | CProject => Project.is_valid h (project self)
  | CSvn => Svn.is_valid h (svn self)
  | CUnreal => Uat.is_valid h (uat self)
  | CSpecialLogKeywords => keywords_is_valid (special_log_keywords self)
  | CBuildExport => BuildExport.is_valid (build_export self)
  | CSounds => SoundPaths.is_valid (sounds self)
  end.

(** [property_config.read_config(config)] for the section of a category:
    what it answers, and the configuration with that section as the call
    left it. *)
Definition read_config (h : Host) (config : _RawConfig) (category : Category)
    (self : BuildAutomatorConfig) : Typed (bool * BuildAutomatorConfig) :=
  match category with
  | CProject =>
      '(ok, section) ← Project.read_config h config (project self);
      Well (ok, {| should_print_configs := should_print_configs self;
                   project := section; svn := svn self; uat := uat self;
                   build_export := build_export self;
                   special_log_keywords := special_log_keywords self;
                   sounds := sounds self |})
  | CSvn =>
      '(ok, section) ← Svn.read_config h config (svn self);
      Well (ok, {| should_print_configs := should_print_configs self;
                   project := project self; svn := section; uat := uat self;
                   build_export := build_export self;
                   special_log_keywords := special_log_keywords self;
                   sounds := sounds self |})
  | CUnreal =>
      '(ok, section) ← Uat.read_config h config (uat self);
      Well (ok, {| should_print_configs := should_print_configs self;
                   project := project self; svn := svn self; uat := section;
                   build_export := build_export self;
                   special_log_keywords := special_log_keywords self;
                   sounds := sounds self |})
  | CSpecialLogKeywords =>
      '(ok, section) ← Keywords.read_config config (special_log_keywords self);
      Well (ok, {| should_print_configs := should_print_configs self;
                   project := project self; svn := svn self; uat := uat self;
                   build_export := build_export self;
                   special_log_keywords := section;
                   sounds := sounds self |})
  | CBuildExport =>
      '(ok, section) ← BuildExport.read_config h config (build_export self);
      Well (ok, {| should_print_configs := should_print_configs self;
                   project := project self; svn := svn self; uat := uat self;
                   build_export := section;
                   special_log_keywords := special_log_keywords self;
                   sounds := sounds self |})
  | CSounds =>
      '(ok, section) ← SoundPaths.read_config h config (sounds self);
      Well (ok, {| should_print_configs := should_print_configs self;
                   project := project self; svn := svn self; uat := uat self;
                   build_export := build_export self;
                   special_log_keywords := special_log_keywords self;
                   sounds := section |})
  end.

(** The loop of [__init__] over the sections: the first one that fails to
    read ends it. *)
Fixpoint read_sections (h : Host) (config : _RawConfig) (categories : list Category)
    (self : BuildAutomatorConfig) : Typed BuildAutomatorConfig :=
  match categories with
  | [] => Well self
  | category :: rest =>
      '(ok, self) ← read_config h config category self;
      if negb ok then Well self                        (* break *)
      else read_sections h config rest self
  end.

(** [BuildAutomatorConfig(config)] *)
Definition init (h : Host) (config : option _RawConfig) : Typed BuildAutomatorConfig :=
  let self := default h in
  match config with
  | None => Well self
  | Some raw =>
      if Nat.eqb (size raw) 0 then Well self           (* if config: *)
      else
        print_config ← as_bool (_get_config config "development" "print_config");
        let self :=
          match print_config with
          | Some value =>
              {| should_print_configs := value;
                 project := project self; svn := svn self; uat := uat self;
                 build_export := build_export self;
                 special_log_keywords := special_log_keywords self;
                 sounds := sounds self |}
          | None => self
          end in
        read_sections h raw all_configs self
  end.

(** [get_invalid_configs] *)
Definition get_invalid_configs (h : Host) (self : BuildAutomatorConfig) : list Category :=
  filter (λ category, section_is_valid h self category = false) all_configs.

End Config.

(** The answer of a host to the existence checks of [is_valid]. *)
Definition paths_exist_on (h : Host) (config : BuildAutomatorConfig) : bool :=
  Project.is_valid h (project config)
  && Svn.is_valid h (svn config)
  && Uat.is_valid h (uat config).

(** [_load_config(path)] *)
Definition _load_config (h : Host) (path : Path) : option _RawConfig :=
  tomllib_load h path.

(** [build_automator_load_config()]; the inner [None] is Python's. *)
Definition build_automator_load_config (h : Host)
  : Typed (option BuildAutomatorConfig) :=
  let config_path := resolved h "config.toml" in
  if negb (Tree.exists_ (tree h) config_path) || negb (Tree.is_file (tree h) config_path)
  then Well None
  else
    match _load_config h config_path with
    | Some config =>
        if negb (Nat.eqb (size config) 0)               (* if config: *)
        then loaded ← Config.init h (Some config); Well (Some loaded)
        else Well None
    | None => Well None
    end.

(* ===================================================================== *)
(** ** The outside world: what the program does to it, what it answers *)

(** What the program does, in the order it does it. *)
Inductive Event :=
| Sh (cmd : list string)                  (* _sh(cmd): subprocess.run *)
| Popen (cmd : list string)               (* subprocess.Popen of the build tool *)
| SoundPlayRandom (sounds : Sounds)       (* sound_play_random(sounds) *)
| SoundSay (text : string)                (* sound_say(text) *)
| MessageBeep                             (* winsound.MessageBeep() *)
| Sleep (seconds : Z)                     (* time.sleep(seconds) *)
| WriteText (file : Path) (text : string) (* file.write_text(text) *)
| Unlink (file : Path)                    (* file.unlink() *)
| Rename (src dst : Path).                (* src.rename(dst) *)

(** A finished [svn info --show-item revision]: its return code, and the
    integer [int(out.stdout.strip())] reads from its output ([None] when
    that raises [ValueError]). *)
Record InfoProcess := {
  info_returncode : Z;
  info_stdout_int : option Z;
}.

(** How the run of the build tool ends. *)
Inductive UatRun :=
| ExitCode (result_code : Z)              (* proc.wait() *)
| CalledProcessError (returncode : Z)     (* raised while it runs *)
| OtherException.                         (* any other exception *)

(** The answers of the outside world during one pass of the loop. *)
Record Env := {
  (** [time.time()] *)
  time_time : Z;
  (** [build_automator_load_config()] *)
  load_config : option BuildAutomatorConfig;
  (** the existence checks of [is_valid] on a configuration's paths *)
  paths_exist : BuildAutomatorConfig → bool;
  (** return code of [svn cleanup]; [None] when [_sh] raises *)
  sh_cleanup : option Z;
  (** the three [svn info] of a pass: before and after the update inside
      [svn_update], and the one of the loop itself *)
  sh_info_before : InfoProcess;
  sh_info_after : InfoProcess;
  sh_info_current : InfoProcess;
  (** return code of [svn update] *)
  sh_update : Z;
  (** output of [svn log --revision n] *)
  sh_log : Z → string;
  (** the run of the build tool *)
  popen_uat : UatRun;
  (** the file system when the logs are dumped before the build (line 480) *)
  disk_before_build : FS;
  (** the file system the packager finds when the build tool has returned *)
  disk : FS;
  (** [7z a zip dir], for the archive [zip] and the directory [dir]: its
      return code and what it leaves on the disk; [None] when [_sh] raises
      because 7z cannot be started *)
  sh_7z : Path → Path → FS → option (Z * FS);
}.

(* ===================================================================== *)
(** ** Control flow: a state, a trace, and the ways a pass can end *)

(** How a piece of the loop body ends: it falls through with a value, it
    executes [continue], or it raises. *)
Inductive Flow (A : Type) :=
| Normal (a : A)
| Continue
| Raise (error : string).
Arguments Normal {A} a.
Arguments Continue {A}.
Arguments Raise {A} error.

(** A computation over a state [St]: its end, the state it leaves, and the
    events it caused. *)
Definition M (St A : Type) : Type := St → Flow A * St * list Event.

Definition ret {St A} (a : A) : M St A := λ s, (Normal a, s, []).

Definition bind {St A B} (m : M St A) (f : A → M St B) : M St B :=
  λ s, match m s with
       | (Normal a, s1, t1) =>
           match f a s1 with (r, s2, t2) => (r, s2, t1 ++ t2) end
       | (Continue, s1, t1) => (Continue, s1, t1)
       | (Raise e, s1, t1) => (Raise e, s1, t1)
       end.

Declare Scope run_scope.
Delimit Scope run_scope with run.
Notation "x <- m ;; k" := (bind m (λ x, k))
  (at level 100, m at next level, right associativity) : run_scope.
Notation "m ;; k" := (bind m (λ _, k))
  (at level 100, right associativity) : run_scope.
Open Scope run_scope.

Definition emit {St} (e : Event) : M St unit := λ s, (Normal tt, s, [e]).
Definition continue {St A} : M St A := λ s, (Continue, s, []).
Definition raise {St A} (error : string) : M St A := λ s, (Raise error, s, []).
Definition get {St} : M St St := λ s, (Normal s, s, []).

(** [for x in xs: acc = body(acc, x)] *)
Fixpoint for_each {St X A} (xs : list X) (acc : A) (body : A → X → M St A)
  : M St A :=
  match xs with
  | [] => ret acc
  | x :: rest => acc' <- body acc x ;; for_each rest acc' body
  end.

(** [range(start, stop)]: [start], [start + 1], ... below [stop]. *)
Definition range (start stop : Z) : list Z := seqZ start (stop - start).

(** The trace a computation leaves, its final state and its end. *)
Definition trace_of {St A} (r : Flow A * St * list Event) : list Event := r.2.
Definition state_of {St A} (r : Flow A * St * list Event) : St := r.1.2.
Definition flow_of {St A} (r : Flow A * St * list Event) : Flow A := r.1.1.

(* ===================================================================== *)
(** ** Processes, svn and the build tool (__main__.py, lines 29-200) *)

(** [_sh(cmd)]: the caller reads the finished process from the [Env]. *)
Definition _sh {St} (cmd : list string) : M St unit := emit (Sh cmd).

(** The command line [_sh_svn] assembles. *)
Definition svn_cmd (config : BuildAutomatorConfig) (options : list string) : list string :=
  Pathlib.str (svn_exe (svn config)) :: options
    ++ [Pathlib.str (project_path (project config))].

Definition _sh_svn {St} (config : BuildAutomatorConfig) (options : list string)
  : M St unit :=
  _sh (svn_cmd config options).

Definition cleanup_options : list string :=
  ["cleanup"; "--remove-unversioned"; "--remove-ignored";
   "--vacuum-pristines"; "--include-externals"].

Definition svn_cleanup {St} (env : Env) (config : BuildAutomatorConfig) : M St bool :=
  _sh_svn config cleanup_options ;;
  match sh_cleanup env with
  | None => ret false                      (* except Exception: return False *)
  | Some returncode => ret (returncode =? 0)
  end.

(** A cleanup fails when [_sh] raises or the return code is not zero. *)
Definition cleanup_fails (env : Env) : bool :=
  match sh_cleanup env with
  | None => true
  | Some returncode => negb (returncode =? 0)
  end.

(** [out] is the finished [svn info] this call reads. *)
Definition svn_revision {St} (out : InfoProcess) (config : BuildAutomatorConfig)
  : M St Z :=
  _sh_svn config ["info"; "--show-item"; "revision"] ;;
  if negb (info_returncode out =? 0) then raise "svn info failed"
  else match info_stdout_int out with
       | Some n => ret n
       | None => raise "invalid literal for int()"
       end.

Definition svn_log {St} (env : Env) (config : BuildAutomatorConfig) (revision_num : Z)
  : M St string :=
  _sh_svn config ["log"; "--revision"; Str.of_Z revision_num] ;;
  ret (sh_log env revision_num).

Definition svn_update {St} (env : Env) (config : BuildAutomatorConfig) : M St bool :=
  before <- svn_revision (sh_info_before env) config ;;
  _sh_svn config ["update"] ;;
  if negb (sh_update env =? 0) then raise "svn update failed"
  else
    after <- svn_revision (sh_info_after env) config ;;
    if after >? before then ret true else ret false.

Definition taskkill_cmd (exe : string) : list string :=
  ["taskkill"; "/IM"; exe; "/F"; "/T"].

Definition unreal_kill_process_if_running {St} : M St unit :=
  for_each ["UnrealEditor.exe"; "UnrealEditor-Cmd.exe"] tt
    (λ _ exe, _sh (taskkill_cmd exe)).

(** The command line of [unreal_run_automation_tool]; [extra_args] is never
    passed by this program. *)
Definition uat_cmd (uat_path project_path : Path) (platform build_type : string)
    (archive_dir : option Path) : list string :=
  [Pathlib.str uat_path; "BuildCookRun";
   "-project=" +:+ Pathlib.str project_path;
   "-noP4";
   "-clientconfig=" +:+ build_type;
   "-targetplatform=" +:+ platform;
   "-build"; "-cook"; "-stage"; "-pak"; "-package"; "-utf8output"]
  ++ match archive_dir with
     | Some d => ["-archive"; "-archivedirectory=" +:+ Pathlib.str d]
     | None => []
     end.

(** Starts the build tool and waits for it; how the run ended is the
    environment's. *)
Definition unreal_run_automation_tool {St} (env : Env)
    (uat_path project_path : Path) (platform build_type : string)
    (archive_dir : option Path) : M St UatRun :=
  emit (Popen (uat_cmd uat_path project_path platform build_type archive_dir)) ;;
  ret (popen_uat env).

Inductive UnrealBuildResponse := SUCCESS | FAILED | UNEXPECTED_ERROR.

(** What [unreal_build_project] answers for each way the run can end: the
    [if result_code != 0], the two [except] clauses, the final [return]. *)
Definition response_of (run : UatRun) : UnrealBuildResponse :=
  match run with
  | ExitCode result_code =>
      if negb (result_code =? 0) then FAILED else SUCCESS
  | CalledProcessError _ => UNEXPECTED_ERROR
  | OtherException => UNEXPECTED_ERROR
  end.

Definition unreal_build_project {St} (env : Env) (config : BuildAutomatorConfig)
  : M St UnrealBuildResponse :=
  run <- unreal_run_automation_tool env
           (uat_exe (uat config)) (uproject (project config))
           (platform (uat config)) (build_type (uat config))
           (Some (uat_output (uat config))) ;;
  ret (response_of run).

(* ===================================================================== *)
(** ** Sounds (lines 206-259): a cue is one event *)

Definition sound_say {St} (text : string) : M St unit := emit (SoundSay text).

Definition sound_play_random {St} (s : Sounds) : M St unit := emit (SoundPlayRandom s).

(* ===================================================================== *)
(** ** Sounds, on the disk (__main__.py, lines 206-259) *)

Module Sound.

Definition _sound_find_sounds_on_path (t : Node) (path : Path) : list Path :=
  if negb (Tree.exists_ t path) then []
  else if Tree.is_dir t path then
    mjoin ((λ walked : Path * list string * list string,
              let '(root, _, files) := walked in
              (λ file, root /: file)
                <$> filter (λ file, Pathlib.suffix [file] = ".wav") files)
             <$> Tree.walk t path)
  else [].

(** The files given to [winsound.PlaySound]. *)
Definition _sound_play_file (t : Node) (path : Path) : list Path :=
  if Tree.exists_ t path then [path] else [].

(** [random.choice(seq)], for the draw [pick]; [None] is the [IndexError]
    of an empty sequence. *)
Definition random_choice (pick : nat) (seq : list Path) : option Path :=
  seq !! (pick `mod` length seq)%nat.

(** [sound_play_random(sounds)], with the two draws it may make. *)
Definition sound_play_random (t : Node) (pick_path pick_sound : nat) (sounds : Sounds)
  : list Path :=
  let possible_sound_paths :=
    match sounds with
    | ManyPaths sounds =>
        if (length sounds <? 1)%nat then None
        else random_choice pick_path sounds
    | OnePath sounds => Some sounds
    end in
  match possible_sound_paths with
  | None => []
  | Some possible_sound_paths =>
      if negb (Tree.exists_ t possible_sound_paths) then []
      else if Tree.is_dir t possible_sound_paths then
        let found_sounds := _sound_find_sounds_on_path t possible_sound_paths in
        if (length found_sounds <? 1)%nat then []
        else match random_choice pick_sound found_sounds with
             | Some selected_sound => _sound_play_file t selected_sound
             | None => []
             end
      else _sound_play_file t possible_sound_paths
  end.

End Sound.

(* ===================================================================== *)
(** ** Log handling (lines 265-275) *)

Definition log_find_commands (config : BuildAutomatorConfig) (log : string)
  : list string :=
  filter (λ command, Str.contains log command = true)
         (all_commands (special_log_keywords config)).

(** The set of keywords a scan matched. *)
Definition scan (config : BuildAutomatorConfig) (log : string) : gset string :=
  list_to_set (log_find_commands config log).

(* ===================================================================== *)
(** ** Directory structuring (lines 281-351): the packager, on the disk *)

Definition unlink (p : Path) : M FS unit :=
  λ fs, (Normal tt, Fs.unlink fs p, [Unlink p]).

(** [src.rename(dst)]: the call, and the disk it leaves or the exception. *)
Definition rename (src dst : Path) : M FS Path :=
  λ fs, match Fs.rename fs src dst with
        | Some fs' => (Normal dst, fs', [Rename src dst])
        | None => (Raise "rename failed", fs, [Rename src dst])
        end.

(** The archiver's command line. *)
Definition zip_cmd (zip_path file_path : Path) : list string :=
  ["7z"; "a"; Pathlib.str zip_path; Pathlib.str file_path].

(** [_sh(["7z", "a", zip, dir])]: the return code and the disk it leaves,
    or the exception of a 7z that cannot be started. *)
Definition _sh_7z (sh_7z : Path → Path → FS → option (Z * FS))
    (zip_path file_path : Path) : M FS Z :=
  λ fs, match sh_7z zip_path file_path fs with
        | Some (returncode, fs') =>
            (Normal returncode, fs', [Sh (zip_cmd zip_path file_path)])
        | None => (Raise "7z cannot be started", fs, [Sh (zip_cmd zip_path file_path)])
        end.

(** [if new_name:] is false for [None] and for the empty string. *)
Definition zip_name_of (file_path : Path) (new_name : option string) : string :=
  match new_name with
  | Some n => if String.eqb n "" then Pathlib.name file_path +:+ ".zip"
              else n +:+ ".zip"
  | None => Pathlib.name file_path +:+ ".zip"
  end.

(** [if output_path:] is true for every path. *)
Definition out_path_of (file_path : Path) (output_path : option Path) : Path :=
  match output_path with
  | Some p => p
  | None => Pathlib.parent file_path
  end.

Definition zip_path_of (file_path : Path) (new_name : option string)
    (output_path : option Path) : Path :=
  out_path_of file_path output_path /: zip_name_of file_path new_name.

Definition _compact_file (sh_7z : Path → Path → FS → option (Z * FS))
    (file_path : Path) (should_override : bool)
    (new_name : option string) (output_path : option Path) : M FS (option Path) :=
  fs <- get ;;
  if negb (Fs.exists_ fs file_path) then ret None
  else if negb (Fs.is_dir fs file_path) then ret None
  else
    let zip_path := zip_path_of file_path new_name output_path in
    let compact : M FS (option Path) :=
      _sh_7z sh_7z zip_path file_path ;;
      ret (Some zip_path) in
    if Fs.exists_ fs zip_path then
      if negb should_override then ret (Some zip_path)
      else (unlink zip_path ;; compact)
    else compact.

Definition build_find (config : BuildAutomatorConfig) : Path :=
  uat_output (uat config) /: default_build_name (uat config).

(** A line feed. *)
Definition LF : string := String "010"%char "".

(** The write of the logs file. *)
Definition dump_event (dir : Path) (logs : list string) : Event :=
  let final_text := fold_left (λ text log, text +:+ log +:+ LF +:+ LF) logs "" in
  let log_text_file := dir /: "svn_logs.txt" in
  WriteText log_text_file final_text.

(** The text is written to [svn_logs.txt] in [dir]; a directory that is
    not there is printed, and then the write raises. *)
Definition build_dump_log_file (dir : Path) (logs : list string) : M FS unit :=
  λ fs, let log_text_file := dir /: "svn_logs.txt" in
        match Fs.write_text fs log_text_file with
        | Some fs' => (Normal tt, fs', [dump_event dir logs])
        | None => (Raise "write_text failed", fs, [dump_event dir logs])
        end.

Definition temp_name_of (new_build_name : string) : string :=
  new_build_name +:+ " TRANSFERING...".

Definition build_compact (sh_7z : Path → Path → FS → option (Z * FS))
    (config : BuildAutomatorConfig) (build : Path) (new_build_name : string)
  : M FS unit :=
  let final_build_path := export_output (build_export config) in
  let temp_name := temp_name_of new_build_name in
  compacted_file <- _compact_file sh_7z build (override_zip (build_export config))
                      (Some temp_name) (Some final_build_path) ;;
  match compacted_file with
  | Some compacted_file =>
      fs <- get ;;
      if Fs.exists_ fs compacted_file then
        let new_name_path :=
          Pathlib.parent compacted_file
            /: (new_build_name +:+ Pathlib.suffix compacted_file) in
        rename compacted_file new_name_path ;; ret tt
      else ret tt
  | None => ret tt
  end.

(** The names [build_compact] works with. *)
Definition temp_archive (config : BuildAutomatorConfig) (new_build_name : string) : Path :=
  export_output (build_export config) /: (temp_name_of new_build_name +:+ ".zip").

Definition final_archive (config : BuildAutomatorConfig) (new_build_name : string) : Path :=
  export_output (build_export config) /: (new_build_name +:+ ".zip").

(* ===================================================================== *)
(** ** Main (lines 357-496) *)

(** The packager works on the disk the environment shows; the loop keeps no
    file-system state of its own. *)
Definition on_disk {St A : Type} (fs : FS) (m : M FS A) : M St A :=
  λ s, match m fs with (r, _, t) => (r, s, t) end.

(** [if len(logs) > 0: build_dump_log_file(build_find(config), logs)] *)
Definition dump_logs (config : BuildAutomatorConfig) (logs : list string) : M FS unit :=
  if 0 <? Z.of_nat (length logs) then build_dump_log_file (build_find config) logs
  else ret tt.

(** The archive name: [f"[{revision_num}] {filename} ({build_type})"]. *)
Definition build_name (revision_num : Z) (config : BuildAutomatorConfig) : string :=
  "[" +:+ Str.of_Z revision_num +:+ "] " +:+ filename (project config)
      +:+ " (" +:+ build_type (uat config) +:+ ")".

Definition build_dump_logs_and_compact {St} (env : Env)
    (config : BuildAutomatorConfig) (logs : list string) (revision_num : Z)
  : M St bool :=
  sound_play_random (build_starting (sounds config)) ;;
  sound_say "Começando a buildar!" ;;
  unreal_kill_process_if_running ;;
  build_result <- unreal_build_project env config ;;
  match build_result with
  | UNEXPECTED_ERROR =>
      sound_play_random (build_unknown_error (sounds config)) ;;
      sound_say "Erro inesperado durante build!" ;;
      ret false
  | FAILED =>
      sound_play_random (build_fail (sounds config)) ;;
      sound_say "Build falha, melhore!" ;;
      ret false
  | SUCCESS =>
      let last_build := build_find config in
      let new_build_name := build_name revision_num config in
      on_disk (disk env)
        (dump_logs config logs ;;
         build_compact (sh_7z env) config last_build new_build_name) ;;
      ret true
  end.

(** What [_run] keeps from one pass of the loop to the next. *)
Record LoopState := {
  config : BuildAutomatorConfig;
  last_built_revision : Z;
  last_cleanup_time : Z;
}.

(** Assignments to the three variables. *)
Definition set_config (c : BuildAutomatorConfig) : M LoopState unit :=
  λ s, (Normal tt,
        {| config := c;
           last_built_revision := last_built_revision s;
           last_cleanup_time := last_cleanup_time s |}, []).

Definition set_last_built_revision (r : Z) : M LoopState unit :=
  λ s, (Normal tt,
        {| config := config s;
           last_built_revision := r;
           last_cleanup_time := last_cleanup_time s |}, []).

Definition set_last_cleanup_time (t : Z) : M LoopState unit :=
  λ s, (Normal tt,
        {| config := config s;
           last_built_revision := last_built_revision s;
           last_cleanup_time := t |}, []).

(** [wait(config)] *)
Definition wait (c : BuildAutomatorConfig) : M LoopState unit :=
  emit (Sleep (update_interval_in_seconds (svn c))).

(** Lines 398-410: the configuration is read again. A valid new one replaces
    the held one; otherwise the held one stays if it is valid, and the pass
    ends after ten seconds if it is not. *)
Definition reload_config (env : Env) : M LoopState unit :=
  let keep_or_retry : M LoopState unit :=
    s <- get ;;
    if negb (is_valid (paths_exist env) (config s)) then
      let wait_time_in_seconds := 10 in
      emit (Sleep wait_time_in_seconds) ;; continue
    else ret tt in
  match load_config env with
  | None => keep_or_retry
  | Some new_config =>
      if negb (is_valid (paths_exist env) new_config) then keep_or_retry
      else set_config new_config
  end.

(** Lines 415-428: the editor is killed; the working copy is cleaned when it
    never was or when the timeout has passed. *)
Definition cleanup_check (env : Env) (current_time : Z) : M LoopState unit :=
  unreal_kill_process_if_running ;;
  s <- get ;;
  let cleanup_time_difference :=
    if negb (last_cleanup_time s =? -1) then current_time - last_cleanup_time s
    else 0 in
  if (last_cleanup_time s =? -1)
     || (cleanup_time_difference >=? cleanup_timeout_in_seconds (svn (config s)))
  then
    cleaned <- svn_cleanup env (config s) ;;
    if cleaned then set_last_cleanup_time current_time
    else
      emit MessageBeep ;;
      sound_say "Falha ao limpar projeto!" ;;
      wait (config s) ;;
      continue
  else ret tt.

(** Lines 430-434: update, read the revision, and set the watermark when it
    is unset. *)
Definition sync (env : Env) : M LoopState (bool * Z) :=
  s <- get ;;
  has_revision_changed <- svn_update env (config s) ;;
  current_revision <- svn_revision (sh_info_current env) (config s) ;;
  (if last_built_revision s =? -1 then set_last_built_revision current_revision
   else ret tt) ;;
  ret (has_revision_changed, current_revision).

(** Line 438 *)
Definition num_revisions_between (max_num_relevant_logs current_revision last : Z) : Z :=
  Z.max 0 (Z.min max_num_relevant_logs (current_revision - last)).

(** Lines 443-449: the bounds of the revisions whose logs are read, when any
    are. *)
Definition revision_range (max_num_relevant_logs current_revision last : Z)
  : option (Z * Z) :=
  let n := num_revisions_between max_num_relevant_logs current_revision last in
  if (max_num_relevant_logs >? 0) && (n >? 0) then
    let revision_start := current_revision - Z.max 0 (n - 1) in
    let revision_end := current_revision in
    Some (revision_start, revision_end)
  else None.

(** Lines 457-464: the body of the loop over the revisions; it extends
    [found_commands] and [logs]. *)
Definition read_log (env : Env) (c : BuildAutomatorConfig)
    (acc : list string * list string) (revision_num : Z)
  : M LoopState (list string * list string) :=
  let '(found_commands, logs) := acc in
  revision_log <- svn_log env c revision_num ;;
  let commands_on_log := log_find_commands c revision_log in
  ret (found_commands ++ commands_on_log, logs ++ [revision_log]).

(** Lines 453-464: the logs of the range, and the commands found in them. *)
Definition read_logs (env : Env) (c : BuildAutomatorConfig)
    (revision_start revision_end : Z) : M LoopState (list string * list string) :=
  for_each (range revision_start (revision_end + 1)) ([], []) (read_log env c).

(** Lines 467-473: the body of the loop over the commands found;
    [ignoring] is the local variable [ignore_build]. *)
Definition run_command (ignoring : bool) (command : string) : M LoopState bool :=
  s <- get ;;
  if String.eqb command (make_dev_build (special_log_keywords (config s))) then
    set_config (set_build_type "Development" (config s)) ;;
    ret ignoring
  else if String.eqb command (ignore_build (special_log_keywords (config s))) then
    sound_say "Ignorando build..." ;;
    ret true
  else ret ignoring.

(** Lines 466-473: each command found takes effect. *)
Definition run_commands (found_commands : list string) : M LoopState bool :=
  for_each found_commands false run_command.

(** Lines 436-494: what is done when the update brought a new revision. *)
Definition on_revision_changed (env : Env) (current_revision : Z) : M LoopState unit :=
  s <- get ;;
  let max_logs := max_num_relevant_logs (build_export (config s)) in
  collected <-
     match revision_range max_logs current_revision
             (last_built_revision s) with
     | Some (revision_start, revision_end) =>
         read <- read_logs env (config s) revision_start revision_end ;;
         let '(found_commands, logs) := read in
         ignoring <- run_commands found_commands ;;
         ret (logs, ignoring)
     | None => ret ([], false)
     end ;;
  let '(logs, ignoring) := collected in
  s <- get ;;
  on_disk (disk_before_build env) (dump_logs (config s) logs) ;;
  (if negb ignoring then
     successful_build <-
       build_dump_logs_and_compact env (config s) logs (last_built_revision s) ;;
     if negb successful_build then
       set_last_built_revision current_revision ;;   (* do not repeat building *)
       wait (config s) ;;
       continue
     else ret tt
   else ret tt) ;;
  sound_play_random (build_success (sounds (config s))) ;;
  sound_say ("Build " +:+ build_type (uat (config s)) +:+ " completada!") ;;
  set_last_built_revision current_revision.

(** Lines 393-434: a pass up to the point where it knows whether the
    revision changed, and which one is current. *)
Definition poll (env : Env) : M LoopState (bool * Z) :=
  let current_time := time_time env in
  reload_config env ;;
  cleanup_check env current_time ;;
  sync env.

(** Lines 392-496: one pass of the [while True] loop. *)
Definition loop_body (env : Env) : M LoopState unit :=
  synced <- poll env ;;
  let '(has_revision_changed, current_revision) := synced in
  (if has_revision_changed : bool then on_revision_changed env current_revision
   else ret tt) ;;
  s <- get ;;
  wait (config s).

(** *** Reading a trace *)

#[global] Instance Sounds_eq_dec : EqDecision Sounds.
Proof. solve_decision. Defined.

#[global] Instance Event_eq_dec : EqDecision Event.
Proof. solve_decision. Defined.

(** The build tool was started. *)
Definition is_build (e : Event) : bool :=
  match e with Popen _ => true | _ => false end.

(** The archiver was run, or an archive was given its final name. *)
Definition is_archive (e : Event) : bool :=
  match e with
  | Sh (exe :: o :: _) => String.eqb o "a" && String.eqb exe "7z"
  | Rename _ _ => true
  | _ => false
  end.

(** An svn command with this first option was run. *)
Definition is_svn (option : string) (e : Event) : bool :=
  match e with
  | Sh (_ :: o :: _) => String.eqb o option
  | _ => false
  end.

Definition build_attempted (t : list Event) : bool := existsb is_build t.
Definition archive_produced (t : list Event) : bool := existsb is_archive t.
Definition cleanup_ran (t : list Event) : bool := existsb (is_svn "cleanup") t.
Definition update_attempted (t : list Event) : bool := existsb (is_svn "update") t.

(** The [svn log] commands of a trace, in the order they were run. *)
Definition logs_fetched (t : list Event) : list Event :=
  filter (λ e, is_svn "log" e = true) t.

(** The [svn log] command for one revision. *)
Definition log_event (c : BuildAutomatorConfig) (revision_num : Z) : Event :=
  Sh (svn_cmd c ["log"; "--revision"; Str.of_Z revision_num]).

(** The pass waits. *)
Definition is_sleep (e : Event) : bool :=
  match e with Sleep _ => true | _ => false end.

(** The logs file is written. *)
Definition is_dump (e : Event) : bool :=
  match e with WriteText _ _ => true | _ => false end.

(** *** What a pass decides, as functions of its inputs *)

(** The configuration in effect once [reload_config] has fallen through. *)
Definition reloaded (env : Env) (held : BuildAutomatorConfig) : BuildAutomatorConfig :=
  match load_config env with
  | Some new_config =>
      if is_valid (paths_exist env) new_config then new_config else held
  | None => held
  end.

(** The watermark once [sync] has set it if it was unset. *)
Definition settled (last current_revision : Z) : Z :=
  if last =? -1 then current_revision else last.

(** The configuration after the commands found have taken effect. *)
Definition develop (found_commands : list string) (c : BuildAutomatorConfig)
  : BuildAutomatorConfig :=
  if bool_decide (make_dev_build (special_log_keywords c) ∈ found_commands)
  then set_build_type "Development" c else c.

(** Whether the commands found make the pass skip the build: the ignore
    keyword is among them and is not taken for the dev-build keyword. *)
Definition ignored (found_commands : list string) (c : BuildAutomatorConfig) : bool :=
  bool_decide (ignore_build (special_log_keywords c) ∈ found_commands
               ∧ ignore_build (special_log_keywords c)
                   ≠ make_dev_build (special_log_keywords c)).

(** The loop state with one variable assigned. *)
Definition with_config (s : LoopState) (c : BuildAutomatorConfig) : LoopState :=
  {| config := c;
     last_built_revision := last_built_revision s;
     last_cleanup_time := last_cleanup_time s |}.

Definition with_cleanup_time (s : LoopState) (t : Z) : LoopState :=
  {| config := config s;
     last_built_revision := last_built_revision s;
     last_cleanup_time := t |}.

Definition with_built (s : LoopState) (r : Z) : LoopState :=
  {| config := config s;
     last_built_revision := r;
     last_cleanup_time := last_cleanup_time s |}.

(** The loop state at the end of a pass that settled [current]: the
    configuration the commands left, and the watermark moved. *)
Definition settle (s : LoopState) (c : BuildAutomatorConfig) (current : Z) : LoopState :=
  {| config := c;
     last_built_revision := current;
     last_cleanup_time := last_cleanup_time s |}.

(** The cue of a skipped build. *)
Definition ignoring_cue : Event := SoundSay "Ignorando build...".

(** Reading the configuration again gave nothing valid. *)
Definition reload_fails (env : Env) : bool :=
  match load_config env with
  | Some new_config => negb (is_valid (paths_exist env) new_config)
  | None => true
  end.

(** The test of line 419: the working copy was never cleaned, or the
    timeout has passed. *)
Definition cleanup_due (current_time : Z) (s : LoopState) : bool :=
  (last_cleanup_time s =? -1)
  || ((if negb (last_cleanup_time s =? -1) then current_time - last_cleanup_time s else 0)
      >=? cleanup_timeout_in_seconds (svn (config s))).

(** The revisions whose logs a pass reads. *)
Definition revisions_read (max_logs current_revision last : Z) : list Z :=
  match revision_range max_logs current_revision last with
  | Some (revision_start, revision_end) => range revision_start (revision_end + 1)
  | None => []
  end.

(** *** The events of each step *)

Definition kill_trace : list Event :=
  [Sh (taskkill_cmd "UnrealEditor.exe"); Sh (taskkill_cmd "UnrealEditor-Cmd.exe")].

Definition cleanup_event (c : BuildAutomatorConfig) : Event :=
  Sh (svn_cmd c cleanup_options).

Definition info_event (c : BuildAutomatorConfig) : Event :=
  Sh (svn_cmd c ["info"; "--show-item"; "revision"]).

Definition update_event (c : BuildAutomatorConfig) : Event :=
  Sh (svn_cmd c ["update"]).

(** A [sync] that raises nowhere. *)
Definition sync_trace (c : BuildAutomatorConfig) : list Event :=
  [info_event c; update_event c; info_event c; info_event c].

(** What follows a cleanup that failed. *)
Definition cleanup_failed_trace (c : BuildAutomatorConfig) : list Event :=
  [cleanup_event c; MessageBeep; SoundSay "Falha ao limpar projeto!";
   Sleep (update_interval_in_seconds (svn c))].

(** The logs file is written when there are logs. *)
Definition dump_trace (c : BuildAutomatorConfig) (logs : list string) : list Event :=
  if 0 <? Z.of_nat (length logs) then [dump_event (build_find c) logs] else [].

(** The start of the build tool. *)
Definition build_event (c : BuildAutomatorConfig) : Event :=
  Popen (uat_cmd (uat_exe (uat c)) (uproject (project c)) (platform (uat c))
           (build_type (uat c)) (Some (uat_output (uat c)))).

(** [build_dump_logs_and_compact] up to the answer of the build tool. *)
Definition start_trace (c : BuildAutomatorConfig) : list Event :=
  [SoundPlayRandom (build_starting (sounds c)); SoundSay "Começando a buildar!"]
  ++ kill_trace ++ [build_event c].

(** The cues of the three ends of a build. *)
Definition unexpected_trace (c : BuildAutomatorConfig) : list Event :=
  [SoundPlayRandom (build_unknown_error (sounds c));
   SoundSay "Erro inesperado durante build!"].

Definition failed_trace (c : BuildAutomatorConfig) : list Event :=
  [SoundPlayRandom (build_fail (sounds c)); SoundSay "Build falha, melhore!"].

Definition success_trace (c : BuildAutomatorConfig) : list Event :=
  [SoundPlayRandom (build_success (sounds c));
   SoundSay ("Build " +:+ build_type (uat c) +:+ " completada!")].

(** A pass has come to [sync] with the events [t0] behind it and the state
    [s0]: the configuration is the reloaded one, the watermark is untouched,
    and either no cleanup was due or it ran and succeeded. *)
Definition reached_sync (env : Env) (s : LoopState) (t0 : list Event) (s0 : LoopState)
  : Prop :=
  config s0 = reloaded env (config s)
  ∧ last_built_revision s0 = last_built_revision s
  ∧ (t0 = kill_trace ∧ last_cleanup_time s0 = last_cleanup_time s
     ∨ t0 = kill_trace ++ [cleanup_event (reloaded env (config s))]
       ∧ cleanup_fails env = false
       ∧ last_cleanup_time s0 = time_time env).

(** The exception a computation ended with, if it raised. *)
Definition error_of {St A} (r : Flow A * St * list Event) : option string :=
  match flow_of r with
  | Raise error => Some error
  | _ => None
  end.

(** The logs file of the last build can be written on the disk [fs]. *)
Definition can_dump (fs : FS) (c : BuildAutomatorConfig) : bool :=
  Fs.can_write fs (build_find c /: "svn_logs.txt").

(** The dump of the logs before the build (line 480). *)
Definition early_dump (env : Env) (c : BuildAutomatorConfig) (logs : list string)
  : Flow unit * FS * list Event :=
  dump_logs c logs (disk_before_build env).

(** What is done once the build tool has succeeded, when the archive is
    given the name of revision [w] (lines 380-385). *)
Definition packing (env : Env) (c : BuildAutomatorConfig) (logs : list string) (w : Z)
  : Flow unit * FS * list Event :=
  (dump_logs c logs ;;
   build_compact (sh_7z env) c (build_find c) (build_name w c)) (disk env).

Definition packing_trace (env : Env) (c : BuildAutomatorConfig) (logs : list string)
    (w : Z) : list Event :=
  trace_of (packing env c logs w).

(** The state [_run] starts from; the configuration object starts empty. *)
Definition initial_state (empty : BuildAutomatorConfig) : LoopState :=
  {| config := empty; last_built_revision := -1; last_cleanup_time := -1 |}.

(** [_run], for as many passes as the environment answers: whether a pass
    falls through, continues or raises into [except Exception], the next
    one starts from the state it left. *)
Fixpoint _run (envs : list Env) (s : LoopState) : LoopState * list Event :=
  match envs with
  | [] => (s, [])
  | env :: rest =>
      let r := loop_body env s in
      let '(s', t) := _run rest (state_of r) in
      (s', trace_of r ++ t)
  end.

(* ===================================================================== *)
(** ** A configuration and some passes of the loop, to run the model on *)

Module Example.

(** A configuration read from [config.toml]: the project [C:/work/Game],
    the tools and the sounds; the rest are the defaults of config_type.py. *)
Definition cfg : BuildAutomatorConfig :=
  {| should_print_configs := false;
     project := {| project_path := ["C:"; "work"; "Game"];
                   uproject := ["C:"; "work"; "Game"; "Game.uproject"] |};
     svn := {| svn_exe := ["C:"; "svn"; "svn.exe"];
               update_interval_in_seconds := 1;
               cleanup_timeout_in_seconds := 3600 |};
     uat := {| default_build_name := "Windows";
               uat_exe := ["C:"; "UE"; "RunUAT.bat"];
               platform := "Win64";
               build_type := "Shipping";
               uat_output := ["C:"; "ba"; "bin"] |};
     build_export := {| override_zip := false;
                        export_output := ["C:"; "ba"; "builds"];
                        max_num_relevant_logs := 10 |};
     special_log_keywords := {| is_enabled := true;
                                make_dev_build := "#devbuild";
                                ignore_build := "#ignorebuild" |};
     sounds := {| build_starting := OnePath ["snd"; "start.wav"];
                  build_success := OnePath ["snd"; "success.wav"];
                  build_fail := OnePath ["snd"; "fail.wav"];
                  build_unknown_error := OnePath ["snd"; "error.wav"] |} |}.

(** [BuildAutomatorConfig()], before any file is read, when the program runs
    in [C:/ba]: no project, and the defaults of every section. *)
Definition empty : BuildAutomatorConfig :=
  {| should_print_configs := true;
     project := {| project_path := []; uproject := [] |};
     svn := {| svn_exe := ["C:"; "Program Files"; "TortoiseSVN"; "bin"; "svn.exe"];
               update_interval_in_seconds := 1;
               cleanup_timeout_in_seconds := 3600 |};
     uat := {| default_build_name := "Windows";
               uat_exe := ["C:"; "Program Files"; "Epic Games"; "UE_5.3"; "Engine";
                           "Build"; "BatchFiles"; "RunUAT.bat"];
               platform := "Win64";
               build_type := "Shipping";
               uat_output := ["C:"; "ba"; "bin"] |};
     build_export := {| override_zip := false;
                        export_output := ["C:"; "ba"; "builds"];
                        max_num_relevant_logs := 10 |};
     special_log_keywords := {| is_enabled := true;
                                make_dev_build := "#devbuild";
                                ignore_build := "#ignorebuild" |};
     sounds := {| build_starting := OnePath ["C:"; "ba"];
                  build_success := OnePath ["C:"; "ba"];
                  build_fail := OnePath ["C:"; "ba"];
                  build_unknown_error := OnePath ["C:"; "ba"] |} |}.


Definition info (revision : Z) : InfoProcess :=
  {| info_returncode := 0; info_stdout_int := Some revision |}.

(** The build output directory and the export directory are there. *)
Definition disk0 : FS :=
  {[ ["C:"; "ba"; "bin"; "Windows"] := Directory;
     ["C:"; "ba"; "builds"] := Directory ]}.

(** The same disk, with an archive [game.zip] already exported. *)
Definition disk_with_archive : FS :=
  <[ ["C:"; "ba"; "builds"; "game.zip"] := File ]> disk0.

(** A 7z that writes the archive it is asked for and exits with [code]. *)
Definition sevenzip (code : Z) (zip_path file_path : Path) (fs : FS)
  : option (Z * FS) :=
  Some (code, <[ zip_path := File ]> fs).

(** A pass in which the configuration file is read as [loaded], the working
    copy moves from revision [before] to [after], the logs are [logs] and
    the build tool ends as [run]. *)
Definition pass (loaded : option BuildAutomatorConfig) (before after : Z)
    (logs : Z → string) (run : UatRun) : Env :=
  {| time_time := 5000;
     load_config := loaded;
     paths_exist := λ _, true;
     sh_cleanup := Some 0;
     sh_info_before := info before;
     sh_info_after := info after;
     sh_info_current := info after;
     sh_update := 0;
     sh_log := logs;
     popen_uat := run;
     disk_before_build := disk0;
     disk := disk0;
     sh_7z := sevenzip 0 |}.

(** A pass in which the cleanup exits with code 1. *)
Definition pass_cleanup_fails : Env :=
  {| time_time := 5000;
     load_config := Some cfg;
     paths_exist := λ _, true;
     sh_cleanup := Some 1;
     sh_info_before := info 100;
     sh_info_after := info 103;
     sh_info_current := info 103;
     sh_update := 0;
     sh_log := λ _, "";
     popen_uat := ExitCode 0;
     disk_before_build := disk0;
     disk := disk0;
     sh_7z := sevenzip 0 |}.

Definition plain_logs : Z → string := λ _, "r | fix the door".

Definition logs_with (revision : Z) (text : string) : Z → string :=
  λ r, if r =? revision then text else "r | fix the door".

(** The loop holds [c], has built revision [built] and cleaned at [cleaned]. *)
Definition state (c : BuildAutomatorConfig) (built cleaned : Z) : LoopState :=
  {| config := c; last_built_revision := built; last_cleanup_time := cleaned |}.

(** The loop has built revision 100 and cleaned a thousand seconds ago. *)
Definition at_100 : LoopState := state cfg 100 4000.

(** Revisions 101 to 103 arrive; the build tool ends as [run]. *)
Definition three_new (run : UatRun) : Env :=
  pass (Some cfg) 100 103 plain_logs run.

(** Revisions 101 to 103 arrive, and the log of 102 asks to skip the build. *)
Definition three_new_ignored : Env :=
  pass (Some cfg) 100 103 (logs_with 102 "r102 | wip #ignorebuild") (ExitCode 0).


(** The first pass of a run: the update moves the working copy from 95 to
    100 while the watermark is unset. *)
Definition first_pass : Env := pass (Some cfg) 95 100 plain_logs (ExitCode 0).



(** Or revision 102 arrives and the configuration file is read. *)
Definition next_pass : Env :=
  pass (Some cfg) 101 102 plain_logs (ExitCode 0).


(** A pass with other disks: what is there before the build, and after. *)
Definition on_disks (before_build after_build : FS) (env : Env) : Env :=
  {| time_time := time_time env;
     load_config := load_config env;
     paths_exist := paths_exist env;
     sh_cleanup := sh_cleanup env;
     sh_info_before := sh_info_before env;
     sh_info_after := sh_info_after env;
     sh_info_current := sh_info_current env;
     sh_update := sh_update env;
     sh_log := sh_log env;
     popen_uat := popen_uat env;
     disk_before_build := before_build;
     disk := after_build;
     sh_7z := sh_7z env |}.


(** The disk of the examples, with the archive of revision 100 exported. *)
Definition disk_with_build_100 : FS :=
  <[ final_archive cfg (build_name 100 cfg) := File ]> disk0.


(** Revisions 101 to 103 arrive and the build succeeds, while the archive of
    revision 100 is in the export directory. *)
Definition three_new_after_build_100 : Env :=
  on_disks disk0 disk_with_build_100 (three_new (ExitCode 0)).

End Example.

(* ===================================================================== *)
(** ** A machine with a project, its tools and a configuration file *)

Module Site.

(** [Path(s)]: the parts between the slashes, the [.] ones left out. *)
Fixpoint parts (part s : string) : Path :=
  let close := if String.eqb part "" || String.eqb part "." then [] else [part] in
  match s with
  | EmptyString => close
  | String c s' =>
      if Ascii.eqb c "/" then close ++ parts "" s'
      else parts (part +:+ String c "") s'
  end.

(** [p.resolve()]: the program runs in [C:/ba]. *)
Definition absolute (p : Path) : Path :=
  match p with
  | "C:" :: _ => p
  | _ => ["C:"; "ba"] ++ p
  end.

Definition root : list (string * Node) :=
  [("C:", DirNode
     [("work", DirNode
        [("Game", DirNode
           [("Content", DirNode [("hit.wav", FileNode)]);
            ("notes.txt", FileNode);
            ("Game.uproject", FileNode)])]);
      ("svn", DirNode [("svn.exe", FileNode)]);
      ("UE", DirNode [("RunUAT.bat", FileNode)]);
      ("ba", DirNode
         [("config.toml", FileNode);
          ("snd", DirNode
             [("readme.md", FileNode);
              ("start.wav", FileNode);
              ("more", DirNode [("fail.wav", FileNode)])])])])].

(** The parsed [config.toml]: an update interval of zero, a maximum of logs
    too large and an empty keyword among its settings. *)
Definition raw : _RawConfig :=
  {[ "development" := VTable {[ "print_config" := VBool false ]};
     "project" := VTable {[ "path" := VStr "C:/work/Game" ]};
     "svn" := VTable {[ "exe_path" := VStr "C:/svn/svn.exe";
                        "update_interval_in_seconds" := VInt (-5);
                        "cleanup_timeout_in_seconds" := VInt 1 ]};
     "unreal" := VTable {[ "uat_exe_path" := VStr "C:/UE/RunUAT.bat";
                           "build_type" := VStr "Development" ]};
     "build_export" := VTable {[ "max_num_relevant_logs" := VInt 5000;
                                 "override_zip" := VBool true ]};
     "special_log_keywords" := VTable {[ "ignore_build" := VStr "";
                                         "make_dev_build" := VStr "#dev" ]};
     "sounds" := VTable {[ "build_starting" := VStr "snd";
                           "build_fail" := VList [VStr "snd/more"; VStr "snd/start.wav"] ]} ]}.

Definition host_with (file : option _RawConfig) : Host :=
  {| listing := root;
     Path_of := parts "";
     resolve := absolute;
     tomllib_load := λ p, if decide (p = ["C:"; "ba"; "config.toml"]) then file else None |}.

Definition host : Host := host_with (Some raw).

(** What [BuildAutomatorConfig(raw)] is on this machine. *)
Definition loaded : BuildAutomatorConfig :=
  {| should_print_configs := false;
     project := {| project_path := ["C:"; "work"; "Game"];
                   uproject := ["C:"; "work"; "Game"; "Game.uproject"] |};
     svn := {| svn_exe := ["C:"; "svn"; "svn.exe"];
               update_interval_in_seconds := 1;
               cleanup_timeout_in_seconds := 3600 |};
     uat := {| default_build_name := "Windows";
               uat_exe := ["C:"; "UE"; "RunUAT.bat"];
               platform := "Win64";
               build_type := "Development";
               uat_output := ["C:"; "ba"; "bin"] |};
     build_export := {| override_zip := true;
                        export_output := ["C:"; "ba"; "builds"];
                        max_num_relevant_logs := 10 |};
     special_log_keywords := {| is_enabled := true;
                                make_dev_build := "#dev";
                                ignore_build := "#ignorebuild" |};
     sounds := {| build_starting := OnePath ["C:"; "ba"; "snd"];
                  build_success := OnePath ["C:"; "ba"];
                  build_fail := ManyPaths [["C:"; "ba"; "snd"; "more"];
                                           ["C:"; "ba"; "snd"; "start.wav"]];
                  build_unknown_error := OnePath ["C:"; "ba"] |} |}.

(** A pass on this machine in which [config.toml] cannot be read. *)
Definition unreadable : Env :=
  {| time_time := 5000;
     load_config := None;
     paths_exist := paths_exist_on host;
     sh_cleanup := Some 0;
     sh_info_before := Example.info 100;
     sh_info_after := Example.info 100;
     sh_info_current := Example.info 100;
     sh_update := 0;
     sh_log := Example.plain_logs;
     popen_uat := ExitCode 0;
     disk_before_build := Example.disk0;
     disk := Example.disk0;
     sh_7z := Example.sevenzip 0 |}.

(** A pass whose update finds the working copy where it was, at 100. *)
Definition nothing_new : Env :=
  Example.pass (Some Example.cfg) 100 100 Example.plain_logs (ExitCode 0).

(** The disk of the examples, with an archive of revision 100 left under
    its temporary name. *)
Definition disk_with_leftover : FS :=
  <[ temp_archive Example.cfg (build_name 100 Example.cfg) := File ]> Example.disk0.

End Site.

(* ===================================================================== *)
(** * Properties *)

(** ** Strings *)

Section Strings.

Implicit Types s t a b k p q : string.

Lemma append_cons c s t : String c s +:+ t = String c (s +:+ t).
Proof. reflexivity. Qed.

Lemma append_empty_l s : "" +:+ s = s.
Proof. reflexivity. Qed.

Lemma append_assoc s t u : (s +:+ t) +:+ u = s +:+ (t +:+ u).
Proof.
  induction s as [|c s IH]; [done |]. by rewrite !append_cons, IH.
Qed.

Lemma append_empty_r s : s +:+ "" = s.
Proof.
  induction s as [|c s IH]; [done |]. by rewrite append_cons, IH.
Qed.

Lemma append_length s t :
  String.length (s +:+ t) = (String.length s + String.length t)%nat.
Proof.
  induction s as [|c s IH]; [done |]. rewrite append_cons. simpl. by rewrite IH.
Qed.

(** Two ways of cutting the same string: one cut comes first, and what lies
    between the cuts ends one left piece and starts one right piece. *)
Lemma append_eq_append a b x y :
  a +:+ b = x +:+ y →
  (∃ m, x = a +:+ m ∧ b = m +:+ y) ∨ (∃ m, a = x +:+ m ∧ y = m +:+ b).
Proof.
  revert x. induction a as [|c a IH]; intros x H.
  - left. by exists x.
  - destruct x as [|d x].
    + right. exists (String c a). split; [reflexivity | symmetry; exact H].
    + rewrite !append_cons in H. injection H as -> H.
      destruct (IH _ H) as [[m [-> ->]]|[m [-> ->]]]; [left | right];
        exists m; by rewrite append_cons.
Qed.

Lemma prefix_iff k s : String.prefix k s = true ↔ ∃ q, s = k +:+ q.
Proof.
  revert s. induction k as [|c k IH]; intros s.
  - split; [intros _; exists s; reflexivity | intros _; by destruct s].
  - destruct s as [|d s]; simpl;
      [split; [done | intros [q Hq]; by rewrite append_cons in Hq] |].
    destruct (ascii_dec c d) as [->|Hne].
    + rewrite IH. split; intros [q Hq]; exists q.
      * by rewrite append_cons, Hq.
      * rewrite append_cons in Hq. by injection Hq.
    + split; [done | intros [q Hq]]. rewrite append_cons in Hq.
      injection Hq as ? ?; congruence.
Qed.

Lemma find_empty k : Str.find "" k = if String.prefix k "" then 0 else -1.
Proof. reflexivity. Qed.

Lemma find_cons c s k :
  Str.find (String c s) k =
  if String.prefix k (String c s) then 0
  else if Str.find s k =? -1 then -1 else Str.find s k + 1.
Proof. reflexivity. Qed.

Lemma find_nonneg s k : Str.find s k = -1 ∨ 0 ≤ Str.find s k.
Proof.
  induction s as [|c s IH]; [rewrite find_empty | rewrite find_cons].
  - destruct (String.prefix k ""); lia.
  - destruct (String.prefix k (String c s)); [lia |].
    destruct (Z.eqb_spec (Str.find s k) (-1)); lia.
Qed.

(** [find] answers [-1] exactly when the text has no occurrence. *)
Lemma contains_iff s k :
  Str.contains s k = true ↔ ∃ p q, s = p +:+ k +:+ q.
Proof.
  unfold Str.contains. rewrite negb_true_iff, Z.eqb_neq.
  induction s as [|c s IH]; [rewrite find_empty | rewrite find_cons].
  - destruct (String.prefix k "") eqn:E.
    + split; [intros _ | done]. apply prefix_iff in E as [q Hq]. by exists "", q.
    + split; [done | intros (p & q & H)]. destruct p; [| done].
      assert (String.prefix k "" = true) by (apply prefix_iff; by exists q).
      congruence.
  - destruct (String.prefix k (String c s)) eqn:E.
    + split; [intros _ | done]. apply prefix_iff in E as [q Hq]. by exists "", q.
    + destruct (Z.eqb_spec (Str.find s k) (-1)) as [Hm|Hm].
      * split; [done | intros (p & q & H)]. destruct p as [|d p].
        -- assert (String.prefix k (String c s) = true)
             by (apply prefix_iff; by exists q).
           congruence.
        -- rewrite append_cons in H. injection H as _ H.
           destruct IH as [_ IH]. intros _. apply IH; [by exists p, q | exact Hm].
      * split; [intros _ | destruct (find_nonneg s k); lia].
        destruct IH as [IH _]. destruct (IH Hm) as (p & q & ->).
        by exists (String c p), q.
Qed.

(** What a scan of a concatenation can find. *)
Lemma contains_append a b k :
  Str.contains (a +:+ b) k = true ↔
  Str.contains a k = true ∨ Str.contains b k = true ∨ Str.straddles a b k.
Proof.
  rewrite !contains_iff. split.
  - intros (p & q & H).
    destruct (append_eq_append _ _ _ _ H) as [[m [-> ->]]|[m [-> Hm]]].
    + right; left. by exists m, q.
    + symmetry in Hm.
      destruct (append_eq_append _ _ _ _ Hm) as [[n [-> ->]]|[n [-> ->]]].
      * destruct m as [|c m]; [right; left; by exists "", q |].
        destruct n as [|d n].
        -- left. exists p, "". by rewrite !append_empty_r.
        -- right; right. by exists (String c m), (String d n), p, q.
      * left. by exists p, n.
  - intros [(p & q & ->)|[(p & q & ->)|(k1 & k2 & p & q & -> & _ & _ & -> & ->)]].
    + exists p, (q +:+ b). by rewrite !append_assoc.
    + exists (a +:+ p), q. by rewrite !append_assoc.
    + exists p, q. by rewrite !append_assoc.
Qed.

End Strings.

(** ** The monad *)

Section Monad.

Context {St : Type}.

Lemma bind_normal_run {A B} (m : M St A) (f : A → M St B) s a s1 t1 r s2 t2 :
  m s = (Normal a, s1, t1) → f a s1 = (r, s2, t2) →
  bind m f s = (r, s2, t1 ++ t2).
Proof. intros H1 H2. unfold bind. by rewrite H1, H2. Qed.

End Monad.

(** ** Reading logs and running the commands found *)

Lemma read_logs_go env c revs (found logs : list string) s :
  for_each revs (found, logs) (read_log env c) s
  = (Normal (found ++ mjoin ((λ r, log_find_commands c (sh_log env r)) <$> revs),
             logs ++ (sh_log env <$> revs)),
     s, log_event c <$> revs).
Proof.
  revert found logs. induction revs as [|r revs IH]; intros found logs.
  - simpl. unfold ret. by rewrite !app_nil_r.
  - simpl. unfold bind at 1. simpl. rewrite IH. simpl.
    by rewrite <- !app_assoc.
Qed.

Lemma read_logs_run env c a b s :
  read_logs env c a b s
  = (Normal (mjoin ((λ r, log_find_commands c (sh_log env r)) <$> range a (b + 1)),
             sh_log env <$> range a (b + 1)),
     s, log_event c <$> range a (b + 1)).
Proof. unfold read_logs. by rewrite read_logs_go. Qed.

Lemma develop_idem found c :
  make_dev_build (special_log_keywords (develop found c))
  = make_dev_build (special_log_keywords c)
  ∧ ignore_build (special_log_keywords (develop found c))
    = ignore_build (special_log_keywords c).
Proof. unfold develop. by case_bool_decide. Qed.

Lemma for_each_cons {St X A} (x : X) xs (acc : A) (body : A → X → M St A) s :
  for_each (x :: xs) acc body s
  = bind (body acc x) (λ acc', for_each xs acc' body) s.
Proof. reflexivity. Qed.

Lemma with_config_same s : with_config s (config s) = s.
Proof. by destruct s. Qed.

Lemma run_command_run ig command s :
  run_command ig command s =
  if String.eqb command (make_dev_build (special_log_keywords (config s)))
  then (Normal ig, with_config s (set_build_type "Development" (config s)), [])
  else if String.eqb command (ignore_build (special_log_keywords (config s)))
       then (Normal true, s, [ignoring_cue])
       else (Normal ig, s, []).
Proof.
  unfold run_command, bind, get, set_config, sound_say, emit, ret; simpl.
  by repeat case_match.
Qed.

Lemma ignored_cons command found c :
  ignored (command :: found) c =
  (String.eqb command (ignore_build (special_log_keywords c))
   && negb (String.eqb command (make_dev_build (special_log_keywords c))))
  || ignored found c.
Proof.
  unfold ignored.
  destruct (String.eqb_spec command (ignore_build (special_log_keywords c))) as [->|Hi];
    [destruct (String.eqb_spec (ignore_build (special_log_keywords c))
                 (make_dev_build (special_log_keywords c))) as [He|He] |]; simpl.
  - apply bool_decide_ext. rewrite elem_of_cons. intuition congruence.
  - apply bool_decide_eq_true. split; [apply list_elem_of_here | done].
  - apply bool_decide_ext. rewrite elem_of_cons. intuition congruence.
Qed.

Lemma develop_cons command found c :
  develop (command :: found) c =
  if String.eqb command (make_dev_build (special_log_keywords c))
  then set_build_type "Development" c else develop found c.
Proof.
  unfold develop.
  destruct (String.eqb_spec command (make_dev_build (special_log_keywords c))) as [->|Hd].
  - by rewrite bool_decide_eq_true_2 by apply list_elem_of_here.
  - erewrite bool_decide_ext; [reflexivity |]. rewrite elem_of_cons. intuition congruence.
Qed.

Lemma develop_developed found c :
  develop found (set_build_type "Development" c) = set_build_type "Development" c.
Proof. unfold develop. by case_bool_decide. Qed.

(** The commands found take effect: the configuration turns to a
    Development build when the dev-build keyword is among them, and the
    build is skipped, with its cue, when the ignore keyword is and is not
    taken for the dev-build keyword. *)
Lemma run_commands_go found : ∀ ig s,
  ∃ t, for_each found ig run_command s
  = (Normal (ig || ignored found (config s)),
     with_config s (develop found (config s)), t)
  ∧ Forall (λ e, e = ignoring_cue) t
  ∧ (ignored found (config s) = true → ignoring_cue ∈ t).
Proof.
  induction found as [|command found IH]; intros ig s.
  - exists []. unfold ignored, develop; simpl.
    rewrite orb_false_r, with_config_same. repeat split; [constructor | done].
  - rewrite for_each_cons, ignored_cons, develop_cons.
    pose proof (run_command_run ig command s) as Hstep.
    destruct (String.eqb command (make_dev_build (special_log_keywords (config s)))).
    + destruct (IH ig (with_config s (set_build_type "Development" (config s))))
        as (t & Hrun & Ht & Hin).
      exists t. rewrite (bind_normal_run _ _ _ _ _ _ _ _ _ Hstep Hrun).
      simpl. rewrite andb_false_r, develop_developed. simpl.
      change (ignored found (set_build_type "Development" (config s)))
        with (ignored found (config s)) in *.
      done.
    + destruct (String.eqb command (ignore_build (special_log_keywords (config s)))).
      * destruct (IH true s) as (t & Hrun & Ht & Hin).
        exists (ignoring_cue :: t). rewrite (bind_normal_run _ _ _ _ _ _ _ _ _ Hstep Hrun).
        simpl. rewrite orb_true_r. repeat split; [by constructor |].
        intros _. apply list_elem_of_here.
      * destruct (IH ig s) as (t & Hrun & Ht & Hin).
        exists t. rewrite (bind_normal_run _ _ _ _ _ _ _ _ _ Hstep Hrun). done.
Qed.

Lemma run_commands_run found s :
  ∃ t, run_commands found s
  = (Normal (ignored found (config s)), with_config s (develop found (config s)), t)
  ∧ Forall (λ e, e = ignoring_cue) t
  ∧ (ignored found (config s) = true → ignoring_cue ∈ t).
Proof. apply (run_commands_go found false s). Qed.

(** ** The steps of a pass, one by one *)

Lemma reload_config_run env s :
  reload_config env s =
  if reload_fails env && negb (is_valid (paths_exist env) (config s))
  then (Continue, s, [Sleep 10])
  else (Normal tt, with_config s (reloaded env (config s)), []).
Proof.
  unfold reload_config, reload_fails, reloaded, bind, get, emit, continue, ret,
    set_config.
  destruct (load_config env) as [nc|];
    [destruct (is_valid (paths_exist env) nc) |]; simpl;
    try destruct (is_valid (paths_exist env) (config s)); simpl;
    by rewrite ?with_config_same.
Qed.

Lemma cleanup_check_run env now s :
  cleanup_check env now s =
  if cleanup_due now s then
    if cleanup_fails env
    then (Continue, s, kill_trace ++ cleanup_failed_trace (config s))
    else (Normal tt, with_cleanup_time s now, kill_trace ++ [cleanup_event (config s)])
  else (Normal tt, s, kill_trace).
Proof.
  unfold cleanup_check, cleanup_due, cleanup_fails, svn_cleanup,
    unreal_kill_process_if_running, _sh_svn, _sh, wait, sound_say,
    set_last_cleanup_time, bind, get, emit, continue, ret. simpl.
  destruct (_ || _); [| done].
  destruct (sh_cleanup env) as [rc|]; [destruct (rc =? 0) |]; done.
Qed.

Lemma svn_revision_run {St} (out : InfoProcess) c (s : St) :
  (∃ n, info_stdout_int out = Some n
        ∧ svn_revision out c s = (Normal n, s, [info_event c]))
  ∨ (∃ e, svn_revision out c s = (Raise e, s, [info_event c])).
Proof.
  unfold svn_revision, _sh_svn, _sh, bind, emit, raise, ret. simpl.
  destruct (info_returncode out =? 0); simpl; [| right; by eexists].
  destruct (info_stdout_int out) as [n|]; [left; by exists n | right; by eexists].
Qed.

Lemma svn_update_run {St} env c (s : St) :
  (∃ changed, svn_update env c s
              = (Normal changed, s, [info_event c; update_event c; info_event c]))
  ∨ (∃ e t, svn_update env c s = (Raise e, s, t)
            ∧ t `prefix_of` [info_event c; update_event c; info_event c]).
Proof.
  unfold svn_update, bind.
  destruct (svn_revision_run (sh_info_before env) c s) as [(n & _ & H1)|[e H1]];
    rewrite H1; simpl.
  - destruct (sh_update env =? 0) eqn:Hu; simpl.
    + destruct (svn_revision_run (sh_info_after env) c s) as [(m & _ & H2)|[e H2]];
        rewrite H2; simpl.
      * left. exists (m >? n). by destruct (m >? n).
      * right. by exists e, [info_event c; update_event c; info_event c].
    + right. eexists _, [info_event c; update_event c]. split; [done |].
      by exists [info_event c].
  - right. exists e, [info_event c]. split; [done |].
    by exists [update_event c; info_event c].
Qed.

Lemma sync_run env s :
  (∃ changed current,
      info_stdout_int (sh_info_current env) = Some current
      ∧ sync env s = (Normal (changed, current),
                      with_built s (settled (last_built_revision s) current),
                      sync_trace (config s)))
  ∨ (∃ e t, sync env s = (Raise e, s, t) ∧ t `prefix_of` sync_trace (config s)).
Proof.
  unfold sync, bind. simpl.
  destruct (svn_update_run env (config s) s) as [[changed H1]|(e & t & H1 & Hp)];
    rewrite H1; simpl.
  - destruct (svn_revision_run (sh_info_current env) (config s) s)
      as [(n & Hn & H2)|[e H2]]; rewrite H2; simpl.
    + left. exists changed, n. split; [done |].
      unfold settled, with_built.
      destruct (last_built_revision s =? -1); simpl; [done | by destruct s].
    + right. by exists e, (sync_trace (config s)).
  - right. exists e, t. split; [done |].
    destruct Hp as [k Hk]. exists (k ++ [info_event (config s)]).
    unfold sync_trace. rewrite app_assoc, <- Hk. done.
Qed.

(** A pass, up to the dispatch, ends in one of three ways: it gives up at
    once because no valid configuration is at hand; the cleanup fails; or it
    reaches [sync], which answers or raises. *)
Lemma poll_cases env s :
  let c := reloaded env (config s) in
  (reload_fails env = true ∧ poll env s = (Continue, s, [Sleep 10]))
  ∨ (cleanup_fails env = true
     ∧ poll env s
       = (Continue, with_config s c, kill_trace ++ cleanup_failed_trace c))
  ∨ (∃ t0 s0,
        reached_sync env s t0 s0
        ∧ ((∃ changed current,
               info_stdout_int (sh_info_current env) = Some current
               ∧ poll env s
                 = (Normal (changed, current),
                    with_built s0 (settled (last_built_revision s) current),
                    t0 ++ sync_trace c))
           ∨ (∃ e t, poll env s = (Raise e, s0, t0 ++ t)
                     ∧ t `prefix_of` sync_trace c))).
Proof.
  intros c. unfold poll, bind. rewrite reload_config_run.
  destruct (reload_fails env) eqn:Hr, (is_valid (paths_exist env) (config s));
    simpl; [| by left | |]; right.
  all: rewrite cleanup_check_run; fold c; set (s1 := with_config s c);
    (destruct (cleanup_due (time_time env) s1);
     [destruct (cleanup_fails env) eqn:Hf |]; simpl;
     [ by left
     | right; exists (kill_trace ++ [cleanup_event c]),
                     (with_cleanup_time s1 (time_time env));
       (split; [repeat split; by right |]);
       destruct (sync_run env (with_cleanup_time s1 (time_time env)))
         as [(changed & current & Hi & H)|(e & t & H & Hp)]; rewrite H; simpl;
       [left; by exists changed, current | right; by exists e, t]
     | right; exists kill_trace, s1; (split; [repeat split; by left |]);
       destruct (sync_run env s1)
         as [(changed & current & Hi & H)|(e & t & H & Hp)]; rewrite H; simpl;
       [left; by exists changed, current | right; by exists e, t] ]).
Qed.

(** A pass is its poll, then the dispatch, then the wait. *)
Lemma loop_body_run env s :
  loop_body env s =
  match poll env s with
  | (Normal (changed, current), s1, t1) =>
      if changed : bool then
        match on_revision_changed env current s1 with
        | (Normal _, s2, t2) =>
            (Normal tt, s2,
             t1 ++ t2 ++ [Sleep (update_interval_in_seconds (svn (config s2)))])
        | (Continue, s2, t2) => (Continue, s2, t1 ++ t2)
        | (Raise e, s2, t2) => (Raise e, s2, t1 ++ t2)
        end
      else (Normal tt, s1,
            t1 ++ [Sleep (update_interval_in_seconds (svn (config s1)))])
  | (Continue, s1, t1) => (Continue, s1, t1)
  | (Raise e, s1, t1) => (Raise e, s1, t1)
  end.
Proof.
  unfold loop_body, bind.
  destruct (poll env s) as [[[[changed current]| |e] s1] t1]; [| done | done].
  destruct changed; simpl; [| done].
  destruct (on_revision_changed env current s1) as [[[[]| |e] s2] t2]; simpl; done.
Qed.

(** ** Paths *)

Lemma name_joinpath p x : Pathlib.name (p /: x) = x.
Proof. unfold Pathlib.name, Pathlib.joinpath. apply last_last. Qed.

Lemma parent_joinpath p x : Pathlib.parent (p /: x) = p.
Proof. unfold Pathlib.parent, Pathlib.joinpath. apply removelast_last. Qed.

Lemma rfind_zip s : Str.rfind "." (s +:+ ".zip") = Some (String.length s).
Proof.
  induction s as [|c s IH]; [done |]. rewrite append_cons. simpl. by rewrite IH.
Qed.

Lemma drop_append s t : Str.drop (String.length s) (s +:+ t) = t.
Proof. induction s as [|c s IH]; [done |]. rewrite append_cons. simpl. exact IH. Qed.

(** An archive name ends in [.zip] for [pathlib] too. *)
Lemma suffix_zip p s : s ≠ "" → Pathlib.suffix (p /: (s +:+ ".zip")) = ".zip".
Proof.
  intros Hs. unfold Pathlib.suffix. rewrite name_joinpath, rfind_zip, append_length.
  destruct s as [|c s]; [done |]. simpl String.length.
  replace (0 <? S (String.length s))%nat with true by (symmetry; apply Nat.ltb_lt; lia).
  replace (S (String.length s) <? S (String.length s) + 4 - 1)%nat with true
    by (symmetry; apply Nat.ltb_lt; lia).
  simpl. apply (drop_append (String c s)).
Qed.

Lemma temp_name_not_empty n : temp_name_of n ≠ "".
Proof. unfold temp_name_of. by destruct n. Qed.

Lemma zip_path_temp c build n :
  zip_path_of build (Some (temp_name_of n)) (Some (export_output (build_export c)))
  = temp_archive c n.
Proof.
  unfold zip_path_of, zip_name_of, temp_archive. simpl.
  by rewrite (proj2 (String.eqb_neq _ _) (temp_name_not_empty n)).
Qed.

Lemma final_of_temp c n :
  Pathlib.parent (temp_archive c n) /: (n +:+ Pathlib.suffix (temp_archive c n))
  = final_archive c n.
Proof.
  unfold temp_archive, final_archive.
  by rewrite parent_joinpath, suffix_zip by apply temp_name_not_empty.
Qed.

(** ** The packager *)

Lemma is_dir_exists fs p : Fs.is_dir fs p = true → Fs.exists_ fs p = true.
Proof.
  unfold Fs.is_dir, Fs.exists_. rewrite !bool_decide_eq_true. intros ->. by eexists.
Qed.

Lemma exists_unlink fs p : Fs.exists_ (Fs.unlink fs p) p = false.
Proof.
  unfold Fs.exists_, Fs.unlink. apply bool_decide_eq_false.
  rewrite lookup_delete_eq. by intros [? ?].
Qed.

Lemma _compact_file_run sh file override new_name output fs :
  let zp := zip_path_of file new_name output in
  _compact_file sh file override new_name output fs =
  if negb (Fs.is_dir fs file) then (Normal None, fs, [])
  else if Fs.exists_ fs zp then
    if negb override then (Normal (Some zp), fs, [])
    else match sh zp file (Fs.unlink fs zp) with
         | Some (_, fs') =>
             (Normal (Some zp), fs', [Unlink zp; Sh (zip_cmd zp file)])
         | None =>
             (Raise "7z cannot be started", Fs.unlink fs zp,
              [Unlink zp; Sh (zip_cmd zp file)])
         end
  else match sh zp file fs with
       | Some (_, fs') => (Normal (Some zp), fs', [Sh (zip_cmd zp file)])
       | None => (Raise "7z cannot be started", fs, [Sh (zip_cmd zp file)])
       end.
Proof.
  intros zp. unfold _compact_file, bind, get, ret, unlink, _sh_7z. simpl.
  destruct (Fs.is_dir fs file) eqn:Hd; simpl.
  - rewrite (is_dir_exists _ _ Hd). simpl. fold zp.
    destruct (Fs.exists_ fs zp); [destruct override |]; simpl; [| done |].
    + by destruct (sh zp file (Fs.unlink fs zp)) as [[code fs']|].
    + by destruct (sh zp file fs) as [[code fs']|].
  - by destruct (Fs.exists_ fs file).
Qed.

(** An archiver that cannot be started leaves no temporary archive. *)
Lemma _compact_file_raised sh c build n fs e :
  let r1 := _compact_file sh build (override_zip (build_export c))
              (Some (temp_name_of n)) (Some (export_output (build_export c))) fs in
  flow_of r1 = Raise e → Fs.exists_ (state_of r1) (temp_archive c n) = false.
Proof.
  intros r1. subst r1. rewrite _compact_file_run, zip_path_temp.
  unfold flow_of, state_of.
  destruct (Fs.is_dir fs build); simpl; [| done].
  destruct (Fs.exists_ fs (temp_archive c n)) eqn:He;
    [destruct (override_zip _); simpl; [| done] |].
  - destruct (sh _ _ _) as [[code fs']|]; simpl; [done |].
    intros _. apply exists_unlink.
  - by destruct (sh _ _ _) as [[code fs']|].
Qed.

Lemma _compact_file_flow sh file override new_name output fs :
  flow_of (_compact_file sh file override new_name output fs) ≠ Continue.
Proof.
  rewrite _compact_file_run. unfold flow_of.
  destruct (Fs.is_dir fs file); simpl; [| done].
  destruct (Fs.exists_ fs _); [destruct override; simpl; [| done] |];
    by destruct (sh _ _ _) as [[code fs']|].
Qed.

Lemma build_compact_run sh c build n fs :
  let r1 := _compact_file sh build (override_zip (build_export c))
              (Some (temp_name_of n)) (Some (export_output (build_export c))) fs in
  let moved := Rename (temp_archive c n) (final_archive c n) in
  build_compact sh c build n fs =
  match flow_of r1 with
  | Raise e => (Raise e, state_of r1, trace_of r1)
  | _ =>
    if Fs.is_dir fs build && Fs.exists_ (state_of r1) (temp_archive c n)
    then match Fs.rename (state_of r1) (temp_archive c n) (final_archive c n) with
         | Some fs' => (Normal tt, fs', trace_of r1 ++ [moved])
         | None => (Raise "rename failed", state_of r1, trace_of r1 ++ [moved])
         end
    else (Normal tt, state_of r1, trace_of r1)
  end.
Proof.
  intros r1 moved. unfold build_compact, bind. fold r1. subst r1 moved.
  rewrite _compact_file_run, zip_path_temp.
  unfold flow_of, state_of, trace_of, get, rename, ret.
  destruct (Fs.is_dir fs build); simpl; [| done].
  destruct (Fs.exists_ fs (temp_archive c n)) eqn:He;
    [destruct (override_zip _) |]; simpl.
  - destruct (sh _ _ _) as [[code fs']|]; simpl; [| done].
    rewrite final_of_temp.
    destruct (Fs.exists_ fs' _); simpl; [| done]. by destruct (Fs.rename _ _ _).
  - rewrite He, final_of_temp. simpl. by destruct (Fs.rename _ _ _).
  - destruct (sh _ _ _) as [[code fs']|]; simpl; [| done].
    rewrite final_of_temp.
    destruct (Fs.exists_ fs' _); simpl; [| done]. by destruct (Fs.rename _ _ _).
Qed.

(** What the packager can leave in a trace: at most the removal of a stale
    temporary archive, the archiver, and the renaming, in this order. *)
Lemma build_compact_shape sh c build n fs :
  let temp := temp_archive c n in
  let final := final_archive c n in
  ∃ u z r : bool,
    trace_of (build_compact sh c build n fs)
    = (if u then [Unlink temp] else [])
      ++ (if z then [Sh (zip_cmd temp build)] else [])
      ++ (if r then [Rename temp final] else []).
Proof.
  intros temp final. rewrite build_compact_run.
  rewrite _compact_file_run, zip_path_temp. fold temp final.
  unfold flow_of, state_of, trace_of.
  destruct (Fs.is_dir _ _); simpl; [| by exists false, false, false].
  destruct (Fs.exists_ fs temp) eqn:He; [destruct (override_zip _) |];
    simpl; rewrite ?He; simpl.
  - destruct (sh _ _ _) as [[code fs']|]; simpl; [| by exists true, true, false].
    destruct (Fs.exists_ fs' temp); simpl; [| by exists true, true, false].
    destruct (Fs.rename _ _ _); by exists true, true, true.
  - destruct (Fs.rename _ _ _); by exists false, false, true.
  - destruct (sh _ _ _) as [[code fs']|]; simpl; [| by exists false, true, false].
    destruct (Fs.exists_ fs' temp); simpl; [| by exists false, true, false].
    destruct (Fs.rename _ _ _); by exists false, true, true.
Qed.

Lemma build_compact_flow sh c build n fs :
  flow_of (build_compact sh c build n fs) ≠ Continue.
Proof.
  rewrite build_compact_run.
  pose proof (_compact_file_flow sh build (override_zip (build_export c))
                (Some (temp_name_of n)) (Some (export_output (build_export c))) fs) as H.
  destruct (flow_of (_compact_file _ _ _ _ _ _)); [| done | done].
  destruct (_ && _); [| done]. by destruct (Fs.rename _ _ _).
Qed.

(** ** The logs file *)

Lemma dump_logs_run c logs fs :
  dump_logs c logs fs =
  if 0 <? Z.of_nat (length logs) then
    if Fs.can_write fs (build_find c /: "svn_logs.txt")
    then (Normal tt, <[build_find c /: "svn_logs.txt" := File]> fs, dump_trace c logs)
    else (Raise "write_text failed", fs, dump_trace c logs)
  else (Normal tt, fs, dump_trace c logs).
Proof.
  unfold dump_logs, dump_trace, build_dump_log_file, Fs.write_text, ret.
  destruct (0 <? _); [| done]. by destruct (Fs.can_write _ _).
Qed.

Lemma early_dump_trace env c logs : trace_of (early_dump env c logs) = dump_trace c logs.
Proof.
  unfold early_dump. rewrite dump_logs_run.
  destruct (0 <? _); [| done]. by destruct (Fs.can_write _ _).
Qed.

(** The dump before the build raises exactly when there are logs and the
    file cannot be written. *)
Lemma early_dump_error env c logs :
  error_of (early_dump env c logs) =
  if (0 <? Z.of_nat (length logs)) && negb (can_dump (disk_before_build env) c)
  then Some "write_text failed" else None.
Proof.
  unfold early_dump, can_dump, error_of. rewrite dump_logs_run.
  destruct (0 <? _); [| done]. by destruct (Fs.can_write _ _).
Qed.

Lemma on_disk_early_dump {St} env c logs (s : St) :
  on_disk (disk_before_build env) (dump_logs c logs) s =
  match error_of (early_dump env c logs) with
  | Some e => (Raise e, s, dump_trace c logs)
  | None => (Normal tt, s, dump_trace c logs)
  end.
Proof.
  unfold on_disk, error_of, early_dump. rewrite dump_logs_run.
  destruct (0 <? _); [| done]. by destruct (Fs.can_write _ _).
Qed.

(** The trace of the packing: the logs file, and what the packager does. *)
Lemma packing_shape env c logs w :
  let temp := temp_archive c (build_name w c) in
  let final := final_archive c (build_name w c) in
  ∃ u z r : bool,
    packing_trace env c logs w
    = dump_trace c logs
      ++ (if u then [Unlink temp] else [])
      ++ (if z then [Sh (zip_cmd temp (build_find c))] else [])
      ++ (if r then [Rename temp final] else []).
Proof.
  intros temp final. unfold packing_trace, packing, bind. rewrite dump_logs_run.
  assert (∀ fs, ∃ u z r : bool,
    trace_of (match build_compact (sh_7z env) c (build_find c) (build_name w c) fs with
              | (r0, s2, t2) => (r0, s2, dump_trace c logs ++ t2)
              end)
    = dump_trace c logs
      ++ (if u then [Unlink temp] else [])
      ++ (if z then [Sh (zip_cmd temp (build_find c))] else [])
      ++ (if r then [Rename temp final] else [])) as Hpack.
  { intros fs.
    destruct (build_compact_shape (sh_7z env) c (build_find c) (build_name w c) fs)
      as (u & z & r & H).
    exists u, z, r. destruct (build_compact _ _ _ _ _) as [[fl fs'] t].
    unfold trace_of in *. simpl in *. by rewrite H. }
  destruct (0 <? _); [destruct (Fs.can_write _ _) |]; try apply Hpack.
  exists false, false, false. unfold trace_of. simpl. by rewrite app_nil_r.
Qed.

Lemma on_disk_packing {St} env c logs w (s : St) :
  on_disk (disk env)
    (dump_logs c logs ;;
     build_compact (sh_7z env) c (build_find c) (build_name w c)) s
  = match error_of (packing env c logs w) with
    | Some e => (Raise e, s, packing_trace env c logs w)
    | None => (Normal tt, s, packing_trace env c logs w)
    end.
Proof.
  unfold on_disk, packing_trace, error_of, packing, bind. rewrite dump_logs_run.
  assert (∀ fs,
    match
      match build_compact (sh_7z env) c (build_find c) (build_name w c) fs with
      | (r0, s2, t2) => (r0, s2, dump_trace c logs ++ t2)
      end
    with (r, _, t) => (r, s, t) end
    = match
        match
          flow_of
            match build_compact (sh_7z env) c (build_find c) (build_name w c) fs with
            | (r0, s2, t2) => (r0, s2, dump_trace c logs ++ t2)
            end
        with Raise error => Some error | _ => None end
      with
      | Some e =>
          (Raise e, s,
           trace_of
             match build_compact (sh_7z env) c (build_find c) (build_name w c) fs with
             | (r0, s2, t2) => (r0, s2, dump_trace c logs ++ t2)
             end)
      | None =>
          (Normal (), s,
           trace_of
             match build_compact (sh_7z env) c (build_find c) (build_name w c) fs with
             | (r0, s2, t2) => (r0, s2, dump_trace c logs ++ t2)
             end)
      end) as Hpack.
  { intros fs.
    pose proof (build_compact_flow (sh_7z env) c (build_find c) (build_name w c) fs) as H.
    destruct (build_compact _ _ _ _ _) as [[[[]| |e] fs'] t]; by unfold flow_of in *. }
  destruct (0 <? _); [destruct (Fs.can_write _ _) |]; try apply Hpack. done.
Qed.

(** ** The build and the dispatch *)

Lemma build_dump_logs_and_compact_run {St} env c logs w (s : St) :
  build_dump_logs_and_compact env c logs w s =
  match response_of (popen_uat env) with
  | UNEXPECTED_ERROR => (Normal false, s, start_trace c ++ unexpected_trace c)
  | FAILED => (Normal false, s, start_trace c ++ failed_trace c)
  | SUCCESS =>
      match error_of (packing env c logs w) with
      | Some e => (Raise e, s, start_trace c ++ packing_trace env c logs w)
      | None => (Normal true, s, start_trace c ++ packing_trace env c logs w)
      end
  end.
Proof.
  unfold build_dump_logs_and_compact, unreal_build_project,
    unreal_run_automation_tool, unreal_kill_process_if_running,
    sound_play_random, sound_say, _sh.
  set (pack := (dump_logs c logs ;; build_compact _ _ _ _)).
  unfold bind. simpl.
  destruct (response_of (popen_uat env)); simpl; [| done | done].
  subst pack. rewrite on_disk_packing.
  destruct (error_of _); simpl; by rewrite ?app_nil_r.
Qed.

(** What a pass does once it knows the revision changed. *)
Lemma on_revision_changed_run env current s :
  let c1 := config s in
  let w := last_built_revision s in
  let revs := revisions_read (max_num_relevant_logs (build_export c1)) current w in
  let logs := sh_log env <$> revs in
  let found := mjoin ((λ r, log_find_commands c1 (sh_log env r)) <$> revs) in
  let c := develop found c1 in
  ∃ says,
    Forall (λ e, e = ignoring_cue) says
    ∧ (ignored found c1 = true → ignoring_cue ∈ says)
    ∧ on_revision_changed env current s =
      let pre := (log_event c1 <$> revs) ++ says ++ dump_trace c logs in
      match error_of (early_dump env c logs) with
      | Some e => (Raise e, with_config s c, pre)
      | None =>
        if ignored found c1 then
          (Normal tt, settle s c current, pre ++ success_trace c)
        else
          match response_of (popen_uat env) with
          | UNEXPECTED_ERROR =>
              (Continue, settle s c current,
               pre ++ (start_trace c ++ unexpected_trace c)
                   ++ [Sleep (update_interval_in_seconds (svn c))])
          | FAILED =>
              (Continue, settle s c current,
               pre ++ (start_trace c ++ failed_trace c)
                   ++ [Sleep (update_interval_in_seconds (svn c))])
          | SUCCESS =>
              match error_of (packing env c logs w) with
              | Some e =>
                  (Raise e, with_config s c,
                   pre ++ start_trace c ++ packing_trace env c logs w)
              | None =>
                  (Normal tt, settle s c current,
                   pre ++ (start_trace c ++ packing_trace env c logs w)
                       ++ success_trace c)
              end
          end
      end.
Proof.
  intros c1 w revs logs found c.
  assert (∃ says,
    Forall (λ e, e = ignoring_cue) says
    ∧ (ignored found c1 = true → ignoring_cue ∈ says)
    ∧ match revision_range (max_num_relevant_logs (build_export c1)) current w with
      | Some (revision_start, revision_end) =>
          read <- read_logs env c1 revision_start revision_end ;;
          let '(found_commands, logs) := read in
          ignoring <- run_commands found_commands ;;
          ret (logs, ignoring)
      | None => ret ([], false)
      end s
      = (Normal (logs, ignored found c1), with_config s c,
         (log_event c1 <$> revs) ++ says)) as (says & Hsays & Hin & Hcollect).
  { subst c found logs revs. unfold revisions_read.
    destruct (revision_range _ _ _) as [[a b]|].
    - destruct (run_commands_run
        (mjoin ((λ r, log_find_commands c1 (sh_log env r)) <$> range a (b + 1))) s)
        as (says & Hrun & Hsays & Hin).
      exists says. repeat split; [done | done |].
      unfold bind. rewrite read_logs_run. simpl. rewrite Hrun.
      by rewrite app_nil_r.
    - exists []. repeat split; [constructor | done |].
      unfold ret. simpl. by rewrite with_config_same. }
  exists says. split; [done |]. split; [done |].
  unfold on_revision_changed. unfold bind at 1, get at 1. simpl.
  unfold bind at 1. fold c1 w. rewrite Hcollect.
  unfold bind at 1, get at 1. simpl. fold c.
  unfold bind at 1. rewrite on_disk_early_dump.
  destruct (error_of (early_dump env c logs)); [by rewrite <- !app_assoc |].
  unfold bind at 1.
  destruct (ignored found c1); simpl.
  - unfold sound_play_random, sound_say, set_last_built_revision, bind, emit.
    simpl. unfold settle, success_trace. by rewrite <- !app_assoc.
  - unfold bind at 1. rewrite build_dump_logs_and_compact_run.
    destruct (response_of (popen_uat env)); simpl.
    + fold w. destruct (error_of (packing _ _ _ _)); simpl;
        [by rewrite <- !app_assoc |].
      unfold sound_play_random, sound_say, set_last_built_revision, bind, emit.
      simpl. unfold settle, success_trace. by rewrite <- !app_assoc.
    + unfold wait, set_last_built_revision, continue, bind, emit. simpl.
      unfold settle. by rewrite <- !app_assoc.
    + unfold wait, set_last_built_revision, continue, bind, emit. simpl.
      unfold settle. by rewrite <- !app_assoc.
Qed.

(** ** A whole pass *)

(** Every way a pass of the loop can go, with the state it leaves and the
    events it causes: it gives up for want of a valid configuration; the
    cleanup fails; [sync] raises; nothing changed; or the revision changed,
    and then the logs file cannot be written, or the build is skipped, or
    ends in one of its three ways, the last of which can raise as the
    archive is made. *)
Lemma loop_body_cases env s :
  let c1 := reloaded env (config s) in
  (reload_fails env = true ∧ loop_body env s = (Continue, s, [Sleep 10]))
  ∨ (cleanup_fails env = true
     ∧ loop_body env s
       = (Continue, with_config s c1, kill_trace ++ cleanup_failed_trace c1))
  ∨ ∃ t0 s0, reached_sync env s t0 s0 ∧
     ((∃ e t, t `prefix_of` sync_trace c1
              ∧ loop_body env s = (Raise e, s0, t0 ++ t))
      ∨ ∃ current, info_stdout_int (sh_info_current env) = Some current ∧
          let w := settled (last_built_revision s) current in
          (loop_body env s
           = (Normal tt, with_built s0 w,
              t0 ++ sync_trace c1 ++ [Sleep (update_interval_in_seconds (svn c1))])
           ∨ ∃ says,
               let revs :=
                 revisions_read (max_num_relevant_logs (build_export c1)) current w in
               let logs := sh_log env <$> revs in
               let found :=
                 mjoin ((λ r, log_find_commands c1 (sh_log env r)) <$> revs) in
               let c := develop found c1 in
               let pre := t0 ++ sync_trace c1 ++ (log_event c1 <$> revs)
                             ++ says ++ dump_trace c logs in
               let nap := [Sleep (update_interval_in_seconds (svn c))] in
               Forall (λ e, e = ignoring_cue) says
               ∧ (ignored found c1 = true → ignoring_cue ∈ says)
               ∧ loop_body env s =
                 match error_of (early_dump env c logs) with
                 | Some e => (Raise e, settle s0 c w, pre)
                 | None =>
                   if ignored found c1 then
                     (Normal tt, settle s0 c current, pre ++ success_trace c ++ nap)
                   else
                     match response_of (popen_uat env) with
                     | UNEXPECTED_ERROR =>
                         (Continue, settle s0 c current,
                          pre ++ start_trace c ++ unexpected_trace c ++ nap)
                     | FAILED =>
                         (Continue, settle s0 c current,
                          pre ++ start_trace c ++ failed_trace c ++ nap)
                     | SUCCESS =>
                         match error_of (packing env c logs w) with
                         | Some e =>
                             (Raise e, settle s0 c w,
                              pre ++ start_trace c ++ packing_trace env c logs w)
                         | None =>
                             (Normal tt, settle s0 c current,
                              pre ++ start_trace c ++ packing_trace env c logs w
                                  ++ success_trace c ++ nap)
                         end
                     end
                 end)).
Proof.
  intros c1. rewrite loop_body_run.
  destruct (poll_cases env s) as [[Hr H]|[[Hf H]|(t0 & s0 & Hs0 & H)]].
  - left. by rewrite H.
  - right; left. by rewrite H.
  - right; right. exists t0, s0. split; [done |].
    destruct H as [(changed & current & Hi & H)|(e & t & H & Hp)]; rewrite H.
    2:{ left. by exists e, t. }
    right. exists current. split; [done |]. intros w. subst w.
    destruct Hs0 as (Hc & Hb & _).
    destruct changed.
    2:{ left. cbv beta iota zeta. rewrite <- app_assoc.
        unfold with_built. cbn [config]. by rewrite Hc. }
    right.
    destruct (on_revision_changed_run env current
                (with_built s0 (settled (last_built_revision s) current)))
      as (says & Hsays & Hin & Hrun).
    cbn [with_built config last_built_revision last_cleanup_time] in Hin, Hrun.
    rewrite Hc in Hin, Hrun. fold c1 in Hin, Hrun.
    exists says. split; [done |]. split; [done |].
    cbv zeta. rewrite Hrun. clear Hrun.
    destruct (error_of (early_dump _ _ _));
      [| destruct (ignored _ c1);
         [| destruct (response_of (popen_uat env));
            [destruct (error_of (packing _ _ _ _)) | |]]];
      cbv beta iota zeta; unfold settle, with_config;
      cbn [with_built config last_built_revision last_cleanup_time];
      f_equal; by rewrite <- ?app_assoc.
Qed.

(** ** Reading the trace of a pass *)

Lemma existsb_says f says :
  f ignoring_cue = false → Forall (λ e, e = ignoring_cue) says →
  existsb f says = false.
Proof.
  intros Hf. induction 1 as [|e says -> _ IH]; [done |]. simpl. by rewrite Hf, IH.
Qed.

Lemma existsb_log_events f c revs :
  (∀ r, f (log_event c r) = false) → existsb f (log_event c <$> revs) = false.
Proof.
  intros Hf. induction revs as [|r revs IH]; [done |].
  rewrite fmap_cons. cbn [existsb]. by rewrite Hf.
Qed.

Lemma existsb_prefix (f : Event → bool) t l :
  t `prefix_of` l → existsb f l = false → existsb f t = false.
Proof.
  intros [k ->]. rewrite existsb_app. by intros [? _]%orb_false_elim.
Qed.

Lemma existsb_dump f c logs :
  (∀ d l, f (dump_event d l) = false) → existsb f (dump_trace c logs) = false.
Proof. intros Hf. unfold dump_trace. destruct (0 <? _); simpl; by rewrite ?Hf. Qed.

Lemma existsb_packing f env c logs w :
  (∀ d l, f (dump_event d l) = false) →
  (∀ p, f (Unlink p) = false) → (∀ a b, f (Sh (zip_cmd a b)) = false) →
  (∀ a b, f (Rename a b) = false) →
  existsb f (packing_trace env c logs w) = false.
Proof.
  intros Hd Hu Hz Hr. destruct (packing_shape env c logs w) as (u & z & r & ->).
  rewrite existsb_app, existsb_dump by done.
  destruct u, z, r; simpl; by rewrite ?Hu, ?Hz, ?Hr.
Qed.

Lemma logs_fetched_log_events c revs :
  logs_fetched (log_event c <$> revs) = log_event c <$> revs.
Proof.
  unfold logs_fetched. induction revs as [|r revs IH]; [done |].
  rewrite fmap_cons, filter_cons, decide_True by done. by rewrite IH.
Qed.

(** One piece of a trace has no event of the kind [f]. *)
Ltac quiet :=
  first
    [ reflexivity
    | by apply existsb_says
    | by apply existsb_log_events
    | by apply existsb_dump
    | by apply existsb_packing
    | by (eapply existsb_prefix; [eassumption | reflexivity]) ].

(** The value of [existsb f] on a trace given by its pieces. *)
Ltac classify :=
  repeat match goal with
    | |- context [existsb ?f (?a ++ ?b)] => rewrite (existsb_app f a b)
    end;
  repeat match goal with
    | |- context [existsb ?f ?p] =>
        first [ replace (existsb f p) with false by (symmetry; quiet)
              | replace (existsb f p) with true by reflexivity ]
    end;
  try reflexivity.

(** An event is in a trace given by its pieces. *)
Ltac find_event :=
  match goal with
  | |- _ ∈ _ ++ _ =>
      apply elem_of_app; first [ left; find_event | right; find_event ]
  | |- _ ∈ _ :: _ =>
      first [ apply list_elem_of_here | apply list_elem_of_further; find_event ]
  | |- _ ∈ _ =>
      first [ assumption
            | progress unfold start_trace, unexpected_trace, failed_trace,
                success_trace, cleanup_failed_trace, kill_trace, sync_trace;
              find_event ]
  end.

Ltac reach H :=
  let Hc := fresh "Hc" in
  let Hb := fresh "Hb" in
  let Ht := fresh "Ht" in
  let Hl := fresh "Hl" in
  let Hf := fresh "Hf" in
  destruct H as (Hc & Hb & [[-> Hl]|(-> & Hf & Hl)]).

(** The ways a pass can go, for the proofs below. *)
Ltac pass_cases env s :=
  let H := fresh "H" in
  destruct (loop_body_cases env s)
    as [[?Hr H]|[[?Hf H]|(?t0 & ?s0 & ?Hs0
          & [(?e & ?t & ?Hp & H)
            |(?current & ?Hi & [H|(?says & ?Hsays & ?Hin & H)])])]];
  rewrite H in *; clear H; unfold trace_of, state_of, flow_of in *;
  cbn [fst snd] in *.

(** The ways a pass that detected a change can go: the logs file cannot be
    written; the build is skipped; the build succeeds, and the packing
    raises or not; the build fails; the build tool ends in an exception. *)
Ltac outcomes :=
  destruct (error_of (early_dump _ _ _));
    [| destruct (ignored _ _);
       [| destruct (response_of _);
          [destruct (error_of (packing _ _ _ _)) | |]]];
  cbn [fst snd settle config last_built_revision last_cleanup_time].

(** C1, as the code has it. When the build is attempted and the build tool's
    run ends in an exception (UNEXPECTED_ERROR), the pass plays the
    unknown-error cue, waits for the update interval, and ends with
    [continue], and the watermark [last_built_revision] is the current
    revision: this is the same assignment that follows a FAILED build. The
    cue and the wait are the last events of the pass, and the pass waits
    nowhere else. *)
Theorem unexpected_error_advances_watermark env s :
  build_attempted (trace_of (loop_body env s)) = true →
  response_of (popen_uat env) = UNEXPECTED_ERROR →
  let c := config (state_of (loop_body env s)) in
  ∃ current,
    info_stdout_int (sh_info_current env) = Some current
    ∧ last_built_revision (state_of (loop_body env s)) = current
    ∧ SoundSay "Erro inesperado durante build!" ∈ trace_of (loop_body env s)
    ∧ flow_of (loop_body env s) = Continue
    ∧ ∃ pre,
        trace_of (loop_body env s)
        = pre ++ unexpected_trace c ++ [Sleep (update_interval_in_seconds (svn c))]
        ∧ existsb is_sleep pre = false.
Proof.
  intros Hbuild Hresp. revert Hbuild. pass_cases env s.
  - done.
  - done.
  - reach Hs0; unfold build_attempted; classify; done.
  - reach Hs0; unfold build_attempted; classify; done.
  - rewrite Hresp.
    set (c1 := reloaded env (config s)) in *.
    set (revs := revisions_read _ _ _) in *.
    set (found := mjoin _) in *.
    set (c := develop found c1) in *.
    destruct (error_of (early_dump _ _ _));
      [| destruct (ignored _ _)];
      cbn [fst snd settle config last_built_revision].
    + reach Hs0; unfold build_attempted; classify; done.
    + reach Hs0; unfold build_attempted; classify; done.
    + intros _. exists current. split; [done |]. split; [done |].
      split; [find_event |]. split; [done |].
      exists (t0 ++ sync_trace c1 ++ (log_event c1 <$> revs) ++ says
                 ++ dump_trace c (sh_log env <$> revs) ++ start_trace c).
      split; [by rewrite <- !app_assoc |].
      reach Hs0; classify.
Qed.

(** C7. When the build process exits with a code other than zero, the
    outcome is FAILED, the fail cue is played and spoken, the archiver is not
    run and nothing is renamed, and the watermark is the current revision. *)
Theorem failed_build_settles_revision env s code :
  build_attempted (trace_of (loop_body env s)) = true →
  popen_uat env = ExitCode code → code ≠ 0 →
  response_of (popen_uat env) = FAILED
  ∧ SoundPlayRandom (build_fail (sounds (config (state_of (loop_body env s)))))
      ∈ trace_of (loop_body env s)
  ∧ SoundSay "Build falha, melhore!" ∈ trace_of (loop_body env s)
  ∧ archive_produced (trace_of (loop_body env s)) = false
  ∧ ∃ current,
      info_stdout_int (sh_info_current env) = Some current
      ∧ last_built_revision (state_of (loop_body env s)) = current.
Proof.
  intros Hbuild Hrun Hcode.
  assert (response_of (popen_uat env) = FAILED) as Hresp.
  { rewrite Hrun. simpl. by rewrite (proj2 (Z.eqb_neq _ _) Hcode). }
  split; [done |]. revert Hbuild. pass_cases env s.
  - done.
  - done.
  - reach Hs0; unfold build_attempted; classify; done.
  - reach Hs0; unfold build_attempted; classify; done.
  - rewrite Hresp.
    destruct (error_of (early_dump _ _ _)); [| destruct (ignored _ _)];
      cbn [fst snd config last_built_revision settle].
    + reach Hs0; unfold build_attempted; classify; done.
    + reach Hs0; unfold build_attempted; classify; done.
    + intros _. split; [find_event |]. split; [find_event |].
      split; [| by exists current].
      reach Hs0; unfold archive_produced; classify.
Qed.

(** C9. When the cleanup runs and fails, the pass beeps, says so, waits and
    ends there: no update and no build is attempted, and the watermark and
    the time of the last cleanup are what they were. *)
Theorem cleanup_failure_ends_pass env s :
  cleanup_ran (trace_of (loop_body env s)) = true →
  cleanup_fails env = true →
  loop_body env s
  = (Continue, with_config s (reloaded env (config s)),
     kill_trace ++ cleanup_failed_trace (reloaded env (config s)))
  ∧ MessageBeep ∈ trace_of (loop_body env s)
  ∧ update_attempted (trace_of (loop_body env s)) = false
  ∧ build_attempted (trace_of (loop_body env s)) = false
  ∧ last_built_revision (state_of (loop_body env s)) = last_built_revision s
  ∧ last_cleanup_time (state_of (loop_body env s)) = last_cleanup_time s.
Proof.
  intros Hran Hfail. revert Hran. pass_cases env s.
  - done.
  - intros _. split; [done |]. split; [find_event |]. done.
  - reach Hs0; [| congruence]. unfold cleanup_ran; classify; done.
  - reach Hs0; [| congruence]. unfold cleanup_ran; classify; done.
  - reach Hs0; [| congruence].
    outcomes; unfold cleanup_ran; classify; done.
Qed.

(** ** Numbers as text *)

Lemma to_int_normal z : Z.to_int z ≠ Decimal.Pos Decimal.Nil ∧ Z.to_int z ≠ Decimal.Neg Decimal.Nil.
Proof.
  pose proof (DecimalZ.to_of (Z.to_int z)) as H. rewrite DecimalZ.of_to in H.
  split; intros E; rewrite E in H; discriminate H.
Qed.

(** Two revisions with the same decimal text are the same revision. *)
Lemma of_Z_inj z z' : Str.of_Z z = Str.of_Z z' → z = z'.
Proof.
  unfold Str.of_Z. intros H. apply DecimalZ.to_int_inj.
  destruct (to_int_normal z) as [Hp Hn], (to_int_normal z') as [Hp' Hn'].
  pose proof (NilZero.isi _ Hp Hn) as E. rewrite H, NilZero.isi in E by done.
  by injection E.
Qed.



Lemma log_event_inj c c' r r' : log_event c r = log_event c' r' → r = r'.
Proof.
  unfold log_event, svn_cmd. intros H. simpl in H. injection H as _ H _.
  by apply of_Z_inj.
Qed.

(** ** Sieving a trace *)

Lemma filter_quiet (f : Event → bool) (t : list Event) :
  existsb f t = false → filter (λ e, f e = true) t = [].
Proof.
  induction t as [|e t IH]; [done |]. simpl.
  intros [He Ht]%orb_false_elim. rewrite filter_cons, He.
  rewrite decide_False by done. auto.
Qed.

Lemma elem_of_sieve (f : Event → bool) (t : list Event) e :
  e ∈ t → f e = true → e ∈ filter (λ e, f e = true) t.
Proof. intros. by apply list_elem_of_filter. Qed.

(** The events of the kind [f] in a trace given by its pieces. *)
Ltac sieve :=
  unfold logs_fetched;
  repeat rewrite filter_app;
  repeat match goal with
    | |- context [filter ?P (log_event ?c <$> ?revs)] =>
        change (filter P (log_event c <$> revs)) with (logs_fetched (log_event c <$> revs));
        rewrite (logs_fetched_log_events c revs)
    | |- context [filter (λ e, ?f e = true) ?p] =>
        rewrite (filter_quiet f p) by quiet
    end;
  rewrite ?app_nil_r; simpl app.

(** ** The revisions a pass reads *)

Lemma revisions_read_range m current w :
  0 < m → w < current →
  revision_range m current w = Some (Z.max (w + 1) (current - m + 1), current)
  ∧ revisions_read m current w
    = seqZ (Z.max (w + 1) (current - m + 1))
           (current - Z.max (w + 1) (current - m + 1) + 1).
Proof.
  intros Hm Hw. unfold revisions_read, revision_range, num_revisions_between, range.
  replace (m >? 0) with true by (symmetry; apply Z.gtb_lt; lia).
  replace (Z.max 0 (Z.min m (current - w)) >? 0) with true
    by (symmetry; apply Z.gtb_lt; lia).
  simpl.
  replace (current - Z.max 0 (Z.max 0 (Z.min m (current - w)) - 1))
    with (Z.max (w + 1) (current - m + 1)) by lia.
  split; [done |]. f_equal. lia.
Qed.

Lemma revisions_read_none m current w :
  current ≤ w →
  revision_range m current w = None ∧ revisions_read m current w = [].
Proof.
  intros Hw. unfold revisions_read, revision_range, num_revisions_between.
  replace (Z.max 0 (Z.min m (current - w)) >? 0) with false
    by (symmetry; rewrite Z.gtb_ltb; apply Z.ltb_ge; lia).
  by rewrite andb_false_r.
Qed.

(** C2, as the code has it. In a pass that detects a change with a positive
    maximum of logs, when the current revision is above the watermark the
    revisions read are those from [max (watermark + 1) (current - max + 1)]
    to [current]: a range that is not empty, no longer than the maximum,
    whose logs are fetched in ascending order, and no other log is. When the
    current revision is not above the watermark there is no range, and no
    log is fetched. *)
Theorem revision_range_above_watermark env s current :
  flow_of (poll env s) = Normal (true, current) →
  0 < max_num_relevant_logs (build_export (config (state_of (poll env s)))) →
  let w := last_built_revision (state_of (poll env s)) in
  let c := config (state_of (poll env s)) in
  let m := max_num_relevant_logs (build_export c) in
  let revision_start := Z.max (w + 1) (current - m + 1) in
  (w < current →
   revision_range m current w = Some (revision_start, current)
   ∧ revision_start ≤ current
   ∧ current - revision_start + 1 ≤ m
   ∧ logs_fetched (trace_of (loop_body env s))
     = log_event c <$> seqZ revision_start (current - revision_start + 1))
  ∧ (current ≤ w →
     revision_range m current w = None
     ∧ logs_fetched (trace_of (loop_body env s)) = []).
Proof.
  intros Hflow Hm. cbv zeta.
  assert (logs_fetched (trace_of (loop_body env s))
          = log_event (config (state_of (poll env s)))
              <$> revisions_read
                    (max_num_relevant_logs (build_export (config (state_of (poll env s)))))
                    current (last_built_revision (state_of (poll env s)))) as Hfetched.
  { clear Hm. rewrite loop_body_run.
    destruct (poll_cases env s)
      as [[Hr H]|[[Hf H]|(t0 & s0 & Hs0 & [(changed & cur & Hi & H)|(e & t & H & Hp)])]];
      rewrite H in *; try discriminate Hflow.
    injection Hflow as -> ->. cbv beta iota.
    destruct (on_revision_changed_run env current
                (with_built s0 (settled (last_built_revision s) current)))
      as (says & Hsays & _ & Hrun).
    rewrite Hrun. clear Hrun. unfold state_of in *.
    cbn [fst snd with_built config last_built_revision] in *.
    cbv zeta.
    outcomes; unfold trace_of; cbn [fst snd]; reach Hs0; sieve; done. }
  split.
  - intros Hw. destruct (revisions_read_range _ _ _ Hm Hw) as [Hrange Hread].
    split; [done |]. split; [lia |]. split; [lia |].
    by rewrite Hfetched, Hread.
  - intros Hw. destruct (revisions_read_none
      (max_num_relevant_logs (build_export (config (state_of (poll env s)))))
      _ _ Hw) as [Hrange Hread].
    split; [done |]. by rewrite Hfetched, Hread.
Qed.

(** ** Keywords in the logs of a pass *)

Lemma elem_of_log_find_commands c log k :
  k ∈ log_find_commands c log ↔
  k ∈ all_commands (special_log_keywords c) ∧ Str.contains log k = true.
Proof. unfold log_find_commands. rewrite list_elem_of_filter. tauto. Qed.

Lemma elem_of_found env c (revs : list Z) k :
  k ∈ mjoin ((λ r, log_find_commands c (sh_log env r)) <$> revs) ↔
  ∃ r, r ∈ revs ∧ k ∈ all_commands (special_log_keywords c)
       ∧ Str.contains (sh_log env r) k = true.
Proof.
  rewrite list_elem_of_join. split.
  - intros (l & Hk & Hl). apply list_elem_of_fmap in Hl as (r & -> & Hr).
    apply elem_of_log_find_commands in Hk. by exists r.
  - intros (r & Hr & Hk). exists (log_find_commands c (sh_log env r)).
    split; [by apply elem_of_log_find_commands |].
    apply list_elem_of_fmap. by exists r.
Qed.






Lemma develop_log_event found c r : log_event (develop found c) r = log_event c r.
Proof. unfold develop. by case_bool_decide. Qed.

(** A log that was read and has the ignore keyword makes the pass skip the
    build, unless that keyword is also the dev-build keyword. *)
Lemma ignored_by_log env c (revs : list Z) r :
  log_event c r ∈ log_event c <$> revs →
  Str.contains (sh_log env r) (ignore_build (special_log_keywords c)) = true →
  ignore_build (special_log_keywords c) ≠ make_dev_build (special_log_keywords c) →
  ignored (mjoin ((λ r, log_find_commands c (sh_log env r)) <$> revs)) c = true.
Proof.
  intros (r' & Hr' & Hrevs)%list_elem_of_fmap Hlog Hne.
  apply log_event_inj in Hr' as <-.
  unfold ignored. apply bool_decide_eq_true. split; [| done].
  apply elem_of_found. exists r. split; [done |]. split; [| done].
  unfold all_commands. apply list_elem_of_further, list_elem_of_here.
Qed.

(** A pass that read a log has logs to dump. *)
Lemma logs_read_nonempty env c c' r (revs : list Z) :
  log_event c r ∈ log_event c' <$> revs →
  (0 <? Z.of_nat (length (sh_log env <$> revs))) = true.
Proof.
  intros (r' & _ & Hr)%list_elem_of_fmap.
  destruct revs; [by apply elem_of_nil in Hr | done].
Qed.



(** ** The packager and the scanner *)

(** C4, as the code has it. The archiver is asked to write the archive
    under the temporary name, and the only renaming is from the temporary
    name to the final one; it happens exactly when the source is a directory
    and the temporary archive exists once [_compact_file] has returned. The
    exit status of the archiver is not looked at. *)
Theorem rename_follows_existence sh c build n fs :
  let temp := temp_archive c n in
  let final := final_archive c n in
  let compacted :=
    _compact_file sh build (override_zip (build_export c))
      (Some (temp_name_of n)) (Some (export_output (build_export c))) fs in
  let r := build_compact sh c build n fs in
  (∀ cmd, Sh cmd ∈ trace_of r → cmd = zip_cmd temp build)
  ∧ (∀ src dst, Rename src dst ∈ trace_of r → src = temp ∧ dst = final)
  ∧ (Rename temp final ∈ trace_of r
     ↔ Fs.is_dir fs build = true ∧ Fs.exists_ (state_of compacted) temp = true).
Proof.
  intros temp final compacted r. subst r compacted.
  rewrite build_compact_run. fold temp final.
  rewrite _compact_file_run, zip_path_temp. fold temp.
  unfold flow_of, state_of, trace_of.
  destruct (Fs.is_dir fs build); simpl;
    [destruct (Fs.exists_ fs temp) eqn:He; [destruct (override_zip _) |];
     simpl; rewrite ?He; simpl |].
  all: try (destruct (sh _ _ _) as [[code fs']|]; simpl).
  all: rewrite ?exists_unlink, ?He.
  all: try (destruct (Fs.exists_ fs' temp) eqn:He'; simpl).
  all: try (destruct (Fs.rename _ _ _); simpl).
  all: split; [intros cmd | split; [intros src dst |]];
    rewrite ?elem_of_cons, ?elem_of_nil; intuition congruence.
Qed.

(** C8. When the source is a directory and the target archive is already
    there, archiving without override answers the path of that archive,
    leaves the disk as it is and runs nothing: no removal, no archiver. A
    second call is then the same as the first. *)
Theorem compact_existing_archive sh file new_name output fs :
  Fs.is_dir fs file = true →
  Fs.exists_ fs (zip_path_of file new_name output) = true →
  _compact_file sh file false new_name output fs
  = (Normal (Some (zip_path_of file new_name output)), fs, [])
  ∧ _compact_file sh file false new_name output
      (state_of (_compact_file sh file false new_name output fs))
    = _compact_file sh file false new_name output fs.
Proof.
  intros Hd He.
  assert (_compact_file sh file false new_name output fs
          = (Normal (Some (zip_path_of file new_name output)), fs, [])) as H.
  { rewrite _compact_file_run. cbv zeta. by rewrite Hd, He. }
  split; [done |]. by rewrite H.
Qed.

Lemma elem_of_scan c log k :
  k ∈ scan c log ↔
  k ∈ all_commands (special_log_keywords c) ∧ Str.contains log k = true.
Proof. unfold scan. rewrite elem_of_list_to_set. apply elem_of_log_find_commands. Qed.

(** C5, as the code has it. A keyword found in one of two texts is found
    in their concatenation; a keyword found in the concatenation is found in
    one of the texts, or lies across the seam between them. *)
Theorem scan_of_concatenation c a b k :
  k ∈ scan c (a +:+ b) ↔
  k ∈ scan c a ∪ scan c b
  ∨ (k ∈ all_commands (special_log_keywords c) ∧ Str.straddles a b k).
Proof.
  rewrite elem_of_union, !elem_of_scan, contains_append. tauto.
Qed.

(* ===================================================================== *)
(** * The configuration file, the disk and the passes of the loop *)

(** ** The configuration file *)

Lemma size_zero_empty (m : _RawConfig) : Nat.eqb (size m) 0 = true → m = ∅.
Proof. intros H%Nat.eqb_eq. by apply map_size_empty_iff. Qed.

(** X1. [_get_config] answers a value exactly when the configuration is
    there, its category is a table, and the table has the property: the
    tests for an empty configuration and an empty category reject nothing
    that the two lookups would have found. *)
Theorem get_config_some_iff config category property v :
  _get_config config category property = Some v ↔
  ∃ raw table, config = Some raw
               ∧ raw !! category = Some (VTable table)
               ∧ table !! property = Some v.
Proof.
  unfold _get_config. split.
  - destruct config as [raw|]; [| done].
    destruct (Nat.eqb (size raw) 0); [done |].
    destruct (raw !! category) as [[b|z|s|items|table]|] eqn:E; try done;
      destruct (negb _); try done.
    intros H. by exists raw, table.
  - intros (raw & table & -> & Hc & Hp).
    destruct (Nat.eqb (size raw) 0) eqn:E.
    { apply size_zero_empty in E. subst raw. by rewrite lookup_empty in Hc. }
    rewrite Hc. simpl.
    destruct (Nat.eqb (size table) 0) eqn:E'; simpl; [| done].
    apply size_zero_empty in E'. subst table. by rewrite lookup_empty in Hp.
Qed.

(** ** Walking the disk *)

Lemma Node_induction (P : Node → Prop) :
  P FileNode →
  (∀ entries, Forall (λ e, P e.2) entries → P (DirNode entries)) →
  ∀ n, P n.
Proof.
  intros Hf Hd. fix IH 1. intros [|entries]; [exact Hf |].
  apply Hd. induction entries as [|[name child] entries IHe]; constructor.
  - apply IH.
  - exact IHe.
Qed.

Lemma walk_node_dir root entries :
  Tree.walk_node root (DirNode entries)
  = (root, Tree.dirnames entries, Tree.filenames entries)
    :: mjoin ((λ e, Tree.walk_node (root /: e.1) e.2) <$> entries).
Proof.
  simpl. f_equal. induction entries as [|[name child] entries IH]; [done |].
  rewrite fmap_cons. simpl. by rewrite IH.
Qed.

(** Every directory a walk comes to lies below the one it started from. *)
Lemma walk_node_below n : ∀ root r dirs files,
  (r, dirs, files) ∈ Tree.walk_node root n → root `prefix_of` r.
Proof.
  induction n as [|entries IH] using Node_induction; intros root r dirs files Hin.
  - by apply elem_of_nil in Hin.
  - rewrite walk_node_dir in Hin. apply elem_of_cons in Hin as [Heq|Hin].
    + by injection Heq as -> _ _.
    + apply list_elem_of_join in Hin as (l & Hin & Hl).
      apply list_elem_of_fmap in Hl as ([name child] & -> & He).
      rewrite Forall_forall in IH. specialize (IH _ He _ _ _ _ Hin).
      simpl in IH. etrans; [| exact IH]. by exists [name].
Qed.

Lemma walk_below t p r dirs files :
  (r, dirs, files) ∈ Tree.walk t p → p `prefix_of` r.
Proof.
  unfold Tree.walk. destruct (Tree.lookup t p) as [n|]; [apply walk_node_below |].
  by intros ?%elem_of_nil.
Qed.

Lemma tree_is_dir_exists t p : Tree.is_dir t p = true → Tree.exists_ t p = true.
Proof. unfold Tree.is_dir, Tree.exists_. by destruct (Tree.lookup t p). Qed.

(** ** The project file *)

Lemma uproject_among_some h root files u :
  uproject_among h root files = Some u ↔
  ∃ before file after,
    files = before ++ file :: after
    ∧ Forall (λ f, Pathlib.suffix [f] ≠ ".uproject") before
    ∧ Pathlib.suffix [file] = ".uproject"
    ∧ u = resolve h (root /: file).
Proof.
  induction files as [|f files IH]; simpl.
  - split; [done | intros (b & file & a & H & _)]. by destruct b.
  - destruct (String.eqb_spec (Pathlib.suffix [f]) ".uproject") as [Hs|Hs].
    + split.
      * intros [= <-]. by exists [], f, files.
      * intros (b & file & a & H & Hb & Hf & ->). destruct b as [|f' b].
        -- by injection H as -> _.
        -- injection H as -> _. by inversion Hb.
    + rewrite IH. split.
      * intros (b & file & a & -> & Hb & Hf & ->).
        exists (f :: b), file, a. split; [done |]. split; [by constructor | done].
      * intros (b & file & a & H & Hb & Hf & ->). destruct b as [|f' b].
        -- injection H as -> _. done.
        -- injection H as -> ->. inversion Hb; subst. by exists b, file, a.
Qed.

Lemma uproject_among_none h root files :
  uproject_among h root files = None ↔
  Forall (λ f, Pathlib.suffix [f] ≠ ".uproject") files.
Proof.
  induction files as [|f files IH]; simpl; [split; [constructor | done] |].
  destruct (String.eqb_spec (Pathlib.suffix [f]) ".uproject") as [Hs|Hs].
  - split; [done | by inversion 1].
  - rewrite IH. split; [by constructor | by inversion 1].
Qed.

Lemma uproject_in_some h walked u :
  uproject_in h walked = Some u ↔
  ∃ earlier root dirs files later,
    walked = earlier ++ (root, dirs, files) :: later
    ∧ Forall (λ w, Forall (λ f, Pathlib.suffix [f] ≠ ".uproject") w.2) earlier
    ∧ uproject_among h root files = Some u.
Proof.
  induction walked as [|[[root dirs] files] walked IH]; simpl.
  - split; [done | intros (e & ? & ? & ? & ? & H & _)]. by destruct e.
  - destruct (uproject_among h root files) as [found|] eqn:E.
    + split.
      * intros [= <-]. by exists [], root, dirs, files, walked.
      * intros (e & r & d & f & l & H & He & Hu). destruct e as [|w e].
        -- injection H as -> -> -> _. congruence.
        -- injection H as <- _. inversion He as [|? ? Hw _]; subst.
           simpl in Hw. apply (uproject_among_none h root) in Hw. congruence.
    + rewrite IH. split.
      * intros (e & r & d & f & l & -> & He & Hu).
        exists ((root, dirs, files) :: e), r, d, f, l. split; [done |].
        split; [| done]. constructor; [by apply uproject_among_none in E | done].
      * intros (e & r & d & f & l & H & He & Hu). destruct e as [|w e].
        -- injection H as -> -> -> _. congruence.
        -- injection H as <- ->. inversion He; subst. by exists e, r, d, f, l.
Qed.

Lemma uproject_in_none h walked :
  uproject_in h walked = None ↔
  Forall (λ w, Forall (λ f, Pathlib.suffix [f] ≠ ".uproject") w.2) walked.
Proof.
  induction walked as [|[[root dirs] files] walked IH]; simpl;
    [split; [constructor | done] |].
  destruct (uproject_among h root files) as [found|] eqn:E.
  - split; [done |]. inversion 1 as [|? ? Hw _]; subst.
    simpl in Hw. apply (uproject_among_none h root) in Hw. congruence.
  - rewrite IH. apply uproject_among_none in E.
    split; [by constructor | by inversion 1].
Qed.

(** X2. The project file [try_find_uproject_path] answers is the first file
    with the suffix [.uproject] that the walk of the project directory comes
    to: it lies in a directory of the walk, at or below the project path,
    no file listed before it in that directory and no file of a directory
    walked earlier has the suffix, and the answer is its resolved path. *)
Theorem try_find_uproject_path_first h project_path found :
  try_find_uproject_path h project_path = Some found →
  Tree.is_dir (tree h) project_path = true
  ∧ ∃ earlier root dirs before file after later,
      Tree.walk (tree h) project_path
      = earlier ++ (root, dirs, before ++ file :: after) :: later
      ∧ project_path `prefix_of` root
      ∧ Pathlib.suffix [file] = ".uproject"
      ∧ found = resolve h (root /: file)
      ∧ Forall (λ f, Pathlib.suffix [f] ≠ ".uproject") before
      ∧ Forall (λ w, Forall (λ f, Pathlib.suffix [f] ≠ ".uproject") w.2) earlier.
Proof.
  unfold try_find_uproject_path.
  destruct (Tree.exists_ (tree h) project_path); [| done].
  destruct (Tree.is_dir (tree h) project_path); [| done]. simpl.
  intros (earlier & root & dirs & files & later & Hw & He & Hu)%uproject_in_some.
  apply uproject_among_some in Hu as (before & file & after & -> & Hb & Hs & ->).
  split; [done |]. exists earlier, root, dirs, before, file, after, later.
  repeat split; try done.
  apply (walk_below (tree h) _ root dirs (before ++ file :: after)).
  rewrite Hw. apply elem_of_app. right. apply list_elem_of_here.
Qed.

(** X3. [try_find_uproject_path] finds nothing exactly when the project
    path is not a directory, or no file that the walk lists has the suffix
    [.uproject]. *)
Theorem try_find_uproject_path_none h project_path :
  try_find_uproject_path h project_path = None ↔
  Tree.is_dir (tree h) project_path = false
  ∨ ∀ root dirs files file,
      (root, dirs, files) ∈ Tree.walk (tree h) project_path → file ∈ files →
      Pathlib.suffix [file] ≠ ".uproject".
Proof.
  unfold try_find_uproject_path.
  destruct (Tree.is_dir (tree h) project_path) eqn:Hd.
  - rewrite (tree_is_dir_exists _ _ Hd). simpl. rewrite uproject_in_none. split.
    + intros H. right. intros root dirs files file Hw Hf.
      rewrite Forall_forall in H. specialize (H _ Hw). simpl in H.
      rewrite Forall_forall in H. by apply H.
    + intros [|H]; [done |]. apply Forall_forall. intros [[root dirs] files] Hw.
      apply Forall_forall. intros file Hf. by apply (H root dirs files).
  - split; [by left | intros _]. by destruct (negb _).
Qed.


(** ** The sections of a configuration *)

(** A typed read either stops or goes on with a value. *)
Ltac typed_read :=
  match goal with
  | H : context [as_str ?v] |- _ =>
      destruct (as_str v) as [?read|]; simpl in H; [| discriminate H]
  | H : context [as_int ?v] |- _ =>
      destruct (as_int v) as [?read|]; simpl in H; [| discriminate H]
  | H : context [as_bool ?v] |- _ =>
      destruct (as_bool v) as [?read|]; simpl in H; [| discriminate H]
  | H : context [as_str_or_strs ?v] |- _ =>
      destruct (as_str_or_strs v) as [?read|]; simpl in H; [| discriminate H]
  end.

Lemma if_str_not_empty x s : if_str x = Some s → s ≠ "".
Proof.
  destruct x as [x|]; [| done]. simpl.
  destruct (String.eqb_spec x ""); [done |]. by intros [= <-].
Qed.

Lemma if_int_not_zero x z : if_int x = Some z → z ≠ 0.
Proof.
  destruct x as [x|]; [| done]. simpl.
  destruct (Z.eqb_spec x 0); [done |]. by intros [= <-].
Qed.

Lemma svn_read_intervals_keeps raw self ok self' :
  Svn.read_intervals raw self = Well (ok, self') →
  0 < update_interval_in_seconds self ∧ 1 < cleanup_timeout_in_seconds self →
  ok = true ∧ svn_exe self' = svn_exe self
  ∧ 0 < update_interval_in_seconds self' ∧ 1 < cleanup_timeout_in_seconds self'.
Proof.
  unfold Svn.read_intervals, mbind, Typed_bind. intros H [Hi Ht].
  repeat typed_read. injection H as <- <-.
  assert (0 < update_interval_in_seconds
                match if_int read with
                | Some value => Svn.set_update_interval_in_seconds value self
                | None => self
                end
          ∧ cleanup_timeout_in_seconds
              match if_int read with
              | Some value => Svn.set_update_interval_in_seconds value self
              | None => self
              end = cleanup_timeout_in_seconds self
          ∧ svn_exe
              match if_int read with
              | Some value => Svn.set_update_interval_in_seconds value self
              | None => self
              end = svn_exe self) as (Hu & Hc & He).
  { destruct (if_int read) as [v|]; [| done].
    unfold Svn.set_update_interval_in_seconds.
    destruct (Z.leb_spec v 0); simpl; repeat split; (done || lia). }
  destruct read0 as [v|]; [| repeat split; (done || lia)].
  destruct (Z.gtb_spec v 1); simpl; repeat split; (done || lia).
Qed.

Lemma svn_read_config_keeps h raw self ok self' :
  Svn.read_config h raw self = Well (ok, self') →
  0 < update_interval_in_seconds self ∧ 1 < cleanup_timeout_in_seconds self →
  0 < update_interval_in_seconds self' ∧ 1 < cleanup_timeout_in_seconds self'.
Proof.
  unfold Svn.read_config, mbind, Typed_bind. intros H Hinv.
  typed_read. destruct (if_str read) as [p|].
  - destruct (_ || _); [by injection H as <- <- |].
    by apply svn_read_intervals_keeps in H as (_ & _ & ?).
  - by apply svn_read_intervals_keeps in H as (_ & _ & ?).
Qed.

Lemma export_read_config_keeps h raw self ok self' :
  BuildExport.read_config h raw self = Well (ok, self') →
  max_num_relevant_logs self < 999 ∧ max_num_relevant_logs self ≠ 0 →
  ok = true ∧ max_num_relevant_logs self' < 999 ∧ max_num_relevant_logs self' ≠ 0.
Proof.
  unfold BuildExport.read_config, mbind, Typed_bind. intros H [Hm Hz].
  repeat typed_read. injection H as <- <-. split; [done |].
  destruct (if_int read1) as [m|] eqn:Em.
  - apply if_int_not_zero in Em. destruct (Z.ltb_spec m 999); simpl.
    + done.
    + by destruct (if_str read0), (if_bool read).
  - by destruct (if_str read0), (if_bool read).
Qed.

Lemma keywords_read_config_keeps raw self ok self' :
  Keywords.read_config raw self = Well (ok, self') →
  keywords_is_valid self = true →
  ok = true ∧ keywords_is_valid self' = true.
Proof.
  unfold Keywords.read_config, mbind, Typed_bind. intros H Hv.
  repeat typed_read. injection H as <- <-.
  match goal with |- ?a = true ∧ ?b = true => assert (a = true) as ->; [| done] end.
  unfold keywords_is_valid in *. apply andb_true_iff in Hv as [Hd Hi].
  destruct (if_str read1) as [i|] eqn:Ei; destruct (if_str read0) as [d|] eqn:Ed;
    destruct read as [e|]; simpl; rewrite ?Hd, ?Hi; simpl;
    try (apply if_str_not_empty, String.eqb_neq in Ei; rewrite Ei);
    try (apply if_str_not_empty, String.eqb_neq in Ed; rewrite Ed); done.
Qed.

Lemma sounds_read_config_ok h raw self ok self' :
  SoundPaths.read_config h raw self = Well (ok, self') → ok = true.
Proof.
  unfold SoundPaths.read_config, mbind, Typed_bind. intros H.
  repeat typed_read. by injection H as <- _.
Qed.

Lemma uat_read_config_valid h raw self ok self' :
  Uat.read_config h raw self = Well (ok, self') → ok = Uat.is_valid h self'.
Proof.
  unfold Uat.read_config, mbind, Typed_bind, Uat.is_valid. intros H.
  typed_read.
  destruct (Tree.exists_ _ _) eqn:He, (Tree.is_file _ _) eqn:Hf; simpl in H;
    try (injection H as <- <-; by rewrite He, Hf).
  repeat typed_read. injection H as <- <-.
  by destruct (if_str read1), (if_str read0); simpl; rewrite He, Hf.
Qed.

Lemma svn_read_config_invalid h raw self self' :
  Svn.read_config h raw self = Well (false, self') → Svn.is_valid h self' = false.
Proof.
  unfold Svn.read_config, mbind, Typed_bind, Svn.is_valid. intros H.
  typed_read. destruct (if_str read) as [p|].
  - destruct (_ || _) eqn:E.
    + injection H as <-. cbn [svn_exe Svn.with_exe] in *.
      apply orb_true_iff in E as [E|E]; apply negb_true_iff in E; rewrite E;
        by rewrite ?andb_false_r.
    + unfold Svn.read_intervals, mbind, Typed_bind in H. by repeat typed_read.
  - unfold Svn.read_intervals, mbind, Typed_bind in H. by repeat typed_read.
Qed.

Lemma project_read_config_valid h raw self ok self' :
  Project.read_config h raw self = Well (ok, self') →
  Project.is_valid h self = false → ok = Project.is_valid h self'.
Proof.
  unfold Project.read_config, mbind, Typed_bind. intros H Hv.
  typed_read. destruct (if_str read) as [p|].
  - clear Hv.
    destruct (Project.is_valid h (Project.set_path h (resolved h p) self)) eqn:E;
      simpl in H; injection H as <- <-; by rewrite E.
  - injection H as <- <-. by rewrite Hv.
Qed.

(** The root of the disk is a directory: the path with no parts is no file. *)
Lemma project_init_invalid h : Project.is_valid h Project.init = false.
Proof. reflexivity. Qed.

(** ** Reading every section *)

(** What the loop of [__init__] leaves: each section as its [read_config]
    left it, as long as every section before it was read; the sections after
    the first that failed are untouched. *)
Lemma read_sections_all h raw self c :
  Config.read_sections h raw Config.all_configs self = Well c →
  ∃ okp p oks s oku u okk k oke e oko o,
    Project.read_config h raw (project self) = Well (okp, p)
    ∧ (okp = true → Svn.read_config h raw (svn self) = Well (oks, s))
    ∧ (okp && oks = true → Uat.read_config h raw (uat self) = Well (oku, u))
    ∧ (okp && oks && oku = true →
       Keywords.read_config raw (special_log_keywords self) = Well (okk, k))
    ∧ (okp && oks && oku && okk = true →
       BuildExport.read_config h raw (build_export self) = Well (oke, e))
    ∧ (okp && oks && oku && okk && oke = true →
       SoundPaths.read_config h raw (sounds self) = Well (oko, o))
    ∧ c = {| should_print_configs := should_print_configs self;
             project := p;
             svn := if okp then s else svn self;
             uat := if okp && oks then u else uat self;
             build_export :=
               if okp && oks && oku && okk then e else build_export self;
             special_log_keywords :=
               if okp && oks && oku then k else special_log_keywords self;
             sounds :=
               if okp && oks && oku && okk && oke then o else sounds self |}.
Proof.
  unfold Config.all_configs.
  cbn [Config.read_sections Config.read_config]. unfold mbind, Typed_bind.
  intros H.
  destruct (Project.read_config h raw (project self)) as [[okp p]|]; [| done].
  exists okp, p. destruct okp; cbn [negb] in H.
  2:{ injection H as <-.
      exists false, (svn self), false, (uat self), false, (special_log_keywords self),
        false, (build_export self), false, (sounds self). by repeat split. }
  cbn [project svn uat build_export special_log_keywords sounds] in H.
  destruct (Svn.read_config h raw (svn self)) as [[oks s]|]; [| done].
  exists oks, s. destruct oks; cbn [negb] in H.
  2:{ injection H as <-.
      exists false, (uat self), false, (special_log_keywords self),
        false, (build_export self), false, (sounds self). by repeat split. }
  cbn [project svn uat build_export special_log_keywords sounds] in H.
  destruct (Uat.read_config h raw (uat self)) as [[oku u]|]; [| done].
  exists oku, u. destruct oku; cbn [negb] in H.
  2:{ injection H as <-.
      exists false, (special_log_keywords self),
        false, (build_export self), false, (sounds self). by repeat split. }
  cbn [project svn uat build_export special_log_keywords sounds] in H.
  destruct (Keywords.read_config raw (special_log_keywords self)) as [[okk k]|]; [| done].
  exists okk, k. destruct okk; cbn [negb] in H.
  2:{ injection H as <-.
      exists false, (build_export self), false, (sounds self). by repeat split. }
  cbn [project svn uat build_export special_log_keywords sounds] in H.
  destruct (BuildExport.read_config h raw (build_export self)) as [[oke e]|]; [| done].
  exists oke, e. destruct oke; cbn [negb] in H.
  2:{ injection H as <-. exists false, (sounds self). by repeat split. }
  cbn [project svn uat build_export special_log_keywords sounds] in H.
  destruct (SoundPaths.read_config h raw (sounds self)) as [[oko o]|]; [| done].
  exists oko, o. destruct oko; cbn [negb] in H; injection H as <-; by repeat split.
Qed.

(** [__init__] answers the defaults, or reads the sections of a file that is
    not empty into the defaults. *)
Lemma init_cases h config c :
  Config.init h config = Well c →
  c = Config.default h
  ∨ ∃ raw self,
      config = Some raw ∧ Nat.eqb (size raw) 0 = false
      ∧ Config.read_sections h raw Config.all_configs self = Well c
      ∧ project self = Project.init ∧ svn self = Svn.init h ∧ uat self = Uat.init h
      ∧ build_export self = BuildExport.init h
      ∧ special_log_keywords self = Keywords.init
      ∧ sounds self = SoundPaths.init h.
Proof.
  unfold Config.init. destruct config as [raw|]; [| intros [= <-]; by left].
  destruct (Nat.eqb (size raw) 0) eqn:E; [intros [= <-]; by left |].
  unfold mbind, Typed_bind. intros H. typed_read. right.
  eexists raw, _. split; [done |]. split; [done |]. split; [exact H |].
  by destruct read.
Qed.


(** A configuration object with its sections as the loop of [__init__] left
    them. *)
Ltac sections_read H :=
  apply read_sections_all in H
    as (?okp & ?p & ?oks & ?s & ?oku & ?u & ?okk & ?k & ?oke & ?e & ?oko & ?o
        & ?Rp & ?Rs & ?Ru & ?Rk & ?Re & ?Ro & ->);
  cbn [project svn uat build_export special_log_keywords sounds].

(** X4. Whatever the file says, a configuration object has an update
    interval of at least one second and a cleanup timeout above one second:
    the defaults are such, and reading the svn section keeps them so. *)
Theorem loaded_intervals_positive h config c :
  Config.init h config = Well c →
  0 < update_interval_in_seconds (svn c) ∧ 1 < cleanup_timeout_in_seconds (svn c).
Proof.
  intros [->|(raw & self & _ & _ & H & _ & Hs & _)]%init_cases; [by vm_compute |].
  sections_read H. rewrite Hs in *.
  destruct okp; [| by vm_compute].
  apply (svn_read_config_keeps _ _ _ _ _ (Rs eq_refl)). by vm_compute.
Qed.

(** X5. Whatever the file says, the maximum number of logs of a
    configuration object is below 999 and is not zero: the default is 10,
    and reading the build_export section takes no other maximum. *)
Theorem loaded_max_logs_bounded h config c :
  Config.init h config = Well c →
  max_num_relevant_logs (build_export c) < 999
  ∧ max_num_relevant_logs (build_export c) ≠ 0.
Proof.
  intros [->|(raw & self & _ & _ & H & _ & _ & _ & He & _)]%init_cases;
    [by vm_compute |].
  sections_read H. rewrite He in *.
  destruct (okp && oks && oku && okk) eqn:E; [| by vm_compute].
  apply (export_read_config_keeps _ _ _ _ _ (Re eq_refl)). by vm_compute.
Qed.

(** X6. Whatever the file says, the two keywords of a configuration object
    are not empty, so the object is valid exactly when the paths of its
    project, svn and unreal sections are found on the disk. *)
Theorem loaded_keywords_valid h config c :
  Config.init h config = Well c →
  keywords_is_valid (special_log_keywords c) = true
  ∧ is_valid (paths_exist_on h) c = paths_exist_on h c.
Proof.
  intros Hinit.
  assert (keywords_is_valid (special_log_keywords c) = true) as Hk.
  { destruct (init_cases _ _ _ Hinit)
      as [->|(raw & self & _ & _ & H & _ & _ & _ & _ & Hk & _)]; [done |].
    sections_read H. rewrite Hk in *.
    destruct (okp && oks && oku) eqn:E; [| done].
    by apply (keywords_read_config_keeps _ _ _ _ (Rk eq_refl)). }
  split; [done |]. unfold is_valid. by rewrite Hk, andb_true_r.
Qed.

(** X7. A configuration object read from a file is valid only if no section
    failed to read: each of the six [read_config] answered [True], in the
    order of [all_configs], and each section of the object is what its
    [read_config] made of the defaults. *)
Theorem valid_configuration_read_every_section h raw c :
  Config.init h (Some raw) = Well c →
  is_valid (paths_exist_on h) c = true →
  Project.read_config h raw Project.init = Well (true, project c)
  ∧ Svn.read_config h raw (Svn.init h) = Well (true, svn c)
  ∧ Uat.read_config h raw (Uat.init h) = Well (true, uat c)
  ∧ Keywords.read_config raw Keywords.init = Well (true, special_log_keywords c)
  ∧ BuildExport.read_config h raw (BuildExport.init h) = Well (true, build_export c)
  ∧ SoundPaths.read_config h raw (SoundPaths.init h) = Well (true, sounds c).
Proof.
  intros [->|(raw' & self & [= <-] & _ & H & Hp & Hs & Hu & He & Hk & Ho)]%init_cases Hv;
    [done |].
  apply read_sections_all in H
    as (okp & p & oks & s & oku & u & okk & k & oke & e & oko & o
        & Rp & Rs & Ru & Rk & Re & Ro & ->).
  rewrite Hp, Hs, Hu, He, Hk, Ho in *. clear Hp Hs Hu He Hk Ho.
  unfold is_valid, paths_exist_on in Hv.
  cbn [project svn uat build_export special_log_keywords sounds] in *.
  apply andb_true_iff in Hv as [Hv _].
  apply andb_true_iff in Hv as [Hv Vu]. apply andb_true_iff in Hv as [Vp Vs].
  pose proof (project_read_config_valid _ _ _ _ _ Rp (project_init_invalid h)) as Ep.
  rewrite Vp in Ep. subst okp. specialize (Rs eq_refl).
  destruct oks; [| by (apply svn_read_config_invalid in Rs; congruence)].
  specialize (Ru eq_refl). cbn [andb] in *.
  pose proof (uat_read_config_valid _ _ _ _ _ Ru) as Eu. rewrite Vu in Eu. subst oku.
  specialize (Rk eq_refl).
  destruct (keywords_read_config_keeps _ _ _ _ Rk eq_refl) as [-> _].
  specialize (Re eq_refl).
  destruct (export_read_config_keeps _ _ _ _ _ Re) as [-> _]; [by vm_compute |].
  specialize (Ro eq_refl). rewrite (sounds_read_config_ok _ _ _ _ _ Ro) in Ro.
  done.
Qed.

(** X8. [get_invalid_configs] is empty exactly when [is_valid] holds; the
    build_export and sounds sections are never among the invalid ones. *)
Theorem no_invalid_configs_iff_valid h c :
  (Config.get_invalid_configs h c = [] ↔ is_valid (paths_exist_on h) c = true)
  ∧ (CBuildExport ∉ Config.get_invalid_configs h c)
  ∧ (CSounds ∉ Config.get_invalid_configs h c).
Proof.
  unfold Config.get_invalid_configs, Config.all_configs, is_valid, paths_exist_on.
  rewrite !filter_cons, filter_nil. cbn [Config.section_is_valid].
  unfold BuildExport.is_valid, SoundPaths.is_valid.
  destruct (Project.is_valid h (project c)), (Svn.is_valid h (svn c)),
    (Uat.is_valid h (uat c)), (keywords_is_valid (special_log_keywords c));
    simpl; (split; [split; done |]); split;
    rewrite ?elem_of_cons, ?elem_of_nil; intuition congruence.
Qed.

(** X9. The configuration object [_run] starts from, [BuildAutomatorConfig()],
    is not valid on any disk: its project file is the path with no parts,
    which is no file. *)
Theorem default_configuration_invalid h :
  is_valid (paths_exist_on h) (config (initial_state (Config.default h))) = false
  ∧ CProject ∈ Config.get_invalid_configs h (Config.default h).
Proof.
  split; [reflexivity |]. apply list_elem_of_filter. split; [reflexivity |].
  apply list_elem_of_here.
Qed.

Lemma tree_is_file_exists t p : Tree.is_file t p = true → Tree.exists_ t p = true.
Proof. unfold Tree.is_file, Tree.exists_. by destruct (Tree.lookup t p). Qed.

(** X10. [build_automator_load_config] answers [None] exactly when
    [config.toml] is not a file on the disk, or cannot be opened or parsed,
    or parses to an empty table. *)
Theorem load_config_none_iff h :
  build_automator_load_config h = Well None ↔
  Tree.is_file (tree h) (resolved h "config.toml") = false
  ∨ tomllib_load h (resolved h "config.toml") = None
  ∨ tomllib_load h (resolved h "config.toml") = Some ∅.
Proof.
  unfold build_automator_load_config, _load_config.
  destruct (Tree.is_file (tree h) (resolved h "config.toml")) eqn:Hf.
  - rewrite (tree_is_file_exists _ _ Hf). cbn [negb orb].
    destruct (tomllib_load h (resolved h "config.toml")) as [raw|];
      [| split; [intros _; right; by left | done]].
    destruct (Nat.eqb (size raw) 0) eqn:E; cbn [negb].
    + apply size_zero_empty in E. subst raw. split; [intros _ | done]. right. by right.
    + split.
      * unfold mbind, Typed_bind. by destruct (Config.init h (Some raw)).
      * by intros [|[|[= ->]]].
  - rewrite orb_true_r. split; [intros _; by left | done].
Qed.


(** ** Sounds on the disk *)

Lemma suffix_joinpath root file : Pathlib.suffix (root /: file) = Pathlib.suffix [file].
Proof. unfold Pathlib.suffix. by rewrite name_joinpath. Qed.

Lemma elem_of_sounds_found t path sound :
  sound ∈ Sound._sound_find_sounds_on_path t path ↔
  Tree.is_dir t path = true
  ∧ ∃ root dirs files file,
      (root, dirs, files) ∈ Tree.walk t path ∧ file ∈ files
      ∧ Pathlib.suffix [file] = ".wav" ∧ sound = root /: file.
Proof.
  unfold Sound._sound_find_sounds_on_path.
  destruct (Tree.is_dir t path) eqn:Hd.
  - rewrite (tree_is_dir_exists _ _ Hd). simpl. rewrite list_elem_of_join. split.
    + intros (l & Hs & Hl). split; [done |].
      apply list_elem_of_fmap in Hl as ([[root dirs] files] & -> & Hw).
      apply list_elem_of_fmap in Hs as (file & -> & Hf).
      apply list_elem_of_filter in Hf as [Hx Hf]. by exists root, dirs, files, file.
    + intros (_ & root & dirs & files & file & Hw & Hf & Hx & ->).
      eexists. split; [| apply list_elem_of_fmap; eexists; split; [reflexivity | exact Hw]].
      simpl. apply list_elem_of_fmap. exists file. split; [done |].
      by apply list_elem_of_filter.
  - split; [| by intros [? _]]. destruct (negb _); by intros ?%elem_of_nil.
Qed.

(** A file listed by a walk lies below the path the walk started from, and
    is not that path. *)
Lemma walked_file_below t path root dirs files file :
  (root, dirs, files) ∈ Tree.walk t path →
  path `prefix_of` root /: file ∧ root /: file ≠ path.
Proof.
  intros [rel ->]%walk_below. unfold Pathlib.joinpath.
  split; [exists (rel ++ [file]); by rewrite app_assoc |].
  rewrite <- app_assoc. intros E.
  apply (f_equal length) in E. rewrite !length_app in E. simpl in E. lia.
Qed.

(** X11. Every sound [_sound_find_sounds_on_path] finds is a file listed by
    the walk of the path, so it lies below the path, and its name has the
    suffix [.wav]; a path that is not a directory gives no sound. *)
Theorem sounds_found_are_wav_below t path sound :
  sound ∈ Sound._sound_find_sounds_on_path t path →
  Tree.is_dir t path = true
  ∧ path `prefix_of` sound
  ∧ sound ≠ path
  ∧ Pathlib.suffix sound = ".wav".
Proof.
  intros (Hd & root & dirs & files & file & Hw & Hf & Hx & ->)%elem_of_sounds_found.
  split; [done |]. destruct (walked_file_below _ _ _ _ _ file Hw) as [Hp Hne].
  by rewrite suffix_joinpath.
Qed.

Lemma random_choice_elem pick seq sound :
  Sound.random_choice pick seq = Some sound → sound ∈ seq.
Proof. unfold Sound.random_choice. apply list_elem_of_lookup_2. Qed.

Lemma elem_of_sound_play_file t path played :
  played ∈ Sound._sound_play_file t path ↔ played = path ∧ Tree.exists_ t path = true.
Proof.
  unfold Sound._sound_play_file. destruct (Tree.exists_ t path).
  - rewrite list_elem_of_singleton. tauto.
  - rewrite elem_of_nil. split; [done | by intros [_ ?]].
Qed.

(** X12. [sound_play_random] gives at most one file to the player, and only
    a file that is on the disk: the path it chose when that is no directory,
    whatever its suffix, or else a [.wav] file found below the directory it
    chose. The path chosen is the one configured, or one of the list
    configured; an empty list plays nothing. *)
Theorem sound_play_random_plays_one t pick_path pick_sound sounds :
  (length (Sound.sound_play_random t pick_path pick_sound sounds) ≤ 1)%nat
  ∧ Sound.sound_play_random t pick_path pick_sound (ManyPaths []) = []
  ∧ ∀ played,
      played ∈ Sound.sound_play_random t pick_path pick_sound sounds →
      Tree.exists_ t played = true
      ∧ ∃ chosen,
          (sounds = OnePath chosen ∨ ∃ paths, sounds = ManyPaths paths ∧ chosen ∈ paths)
          ∧ (played = chosen ∧ Tree.is_dir t chosen = false
             ∨ Tree.is_dir t chosen = true
               ∧ chosen `prefix_of` played
               ∧ Pathlib.suffix played = ".wav").
Proof.
  assert (∀ path, (length (Sound._sound_play_file t path) ≤ 1)%nat) as Hone.
  { intros path. unfold Sound._sound_play_file. destruct (Tree.exists_ t path); simpl; lia. }
  unfold Sound.sound_play_random.
  set (chosen :=
         match sounds with
         | OnePath sounds0 => Some sounds0
         | ManyPaths sounds0 =>
             if (length sounds0 <? 1)%nat then None
             else Sound.random_choice pick_path sounds0
         end).
  assert (∀ p, chosen = Some p →
            sounds = OnePath p ∨ ∃ paths, sounds = ManyPaths paths ∧ p ∈ paths) as Hchosen.
  { intros p. subst chosen. destruct sounds as [q|paths].
    - intros [= ->]. by left.
    - destruct (_ <? _)%nat; [done |]. intros H%random_choice_elem.
      right. by exists paths. }
  clearbody chosen. split; [| split; [done |]].
  - destruct chosen as [p|]; [| simpl; lia].
    destruct (Tree.exists_ t p); simpl; [| lia].
    destruct (Tree.is_dir t p); [| apply Hone].
    destruct (_ <? _)%nat; [simpl; lia |].
    destruct (Sound.random_choice _ _); [apply Hone | simpl; lia].
  - intros played. destruct chosen as [p|]; [| by intros ?%elem_of_nil].
    specialize (Hchosen p eq_refl).
    destruct (Tree.exists_ t p) eqn:He; simpl; [| by intros ?%elem_of_nil].
    destruct (Tree.is_dir t p) eqn:Hd.
    + destruct (_ <? _)%nat; [by intros ?%elem_of_nil |].
      destruct (Sound.random_choice _ _) as [selected|] eqn:Hs;
        [| by intros ?%elem_of_nil].
      intros [-> Hex]%elem_of_sound_play_file. split; [done |].
      apply random_choice_elem, elem_of_sounds_found in Hs
        as (_ & root & dirs & files & file & Hw & _ & Hx & ->).
      destruct (walked_file_below _ _ _ _ _ file Hw) as [Hp _].
      exists p. split; [done |]. right. by rewrite suffix_joinpath.
    + intros [-> Hex]%elem_of_sound_play_file. split; [done |].
      exists p. split; [done |]. by left.
Qed.


(** ** When the revision counts as changed *)

Lemma svn_revision_normal {St} out c (s s' : St) n t :
  svn_revision out c s = (Normal n, s', t) → info_stdout_int out = Some n.
Proof.
  destruct (svn_revision_run out c s) as [(m & Hm & ->)|[e ->]]; [| done].
  by intros [= <- _ _].
Qed.

Lemma svn_update_true {St} env c (s s' : St) t :
  svn_update env c s = (Normal true, s', t) →
  ∃ before after,
    info_stdout_int (sh_info_before env) = Some before
    ∧ info_stdout_int (sh_info_after env) = Some after
    ∧ before < after.
Proof.
  unfold svn_update, bind.
  destruct (svn_revision (sh_info_before env) c s) as [[[b| |e] s1] t1] eqn:Hb;
    [| done | done].
  apply svn_revision_normal in Hb. simpl.
  destruct (negb (sh_update env =? 0)); [done |].
  destruct (svn_revision (sh_info_after env) c s1) as [[[a| |e] s2] t2] eqn:Ha;
    [| done | done].
  apply svn_revision_normal in Ha.
  destruct (Z.gtb_spec a b); [| done]. intros _. exists b, a. split; [done |].
  split; [done | lia].
Qed.

Lemma sync_true env s current s' t :
  sync env s = (Normal (true, current), s', t) →
  ∃ before after,
    info_stdout_int (sh_info_before env) = Some before
    ∧ info_stdout_int (sh_info_after env) = Some after
    ∧ before < after.
Proof.
  unfold sync, bind. simpl.
  destruct (svn_update env (config s) s) as [[[changed| |e] s1] t1] eqn:Hu;
    [| done | done].
  destruct (svn_revision (sh_info_current env) (config s) s1) as [[[n| |e] s2] t2];
    [| done | done].
  unfold set_last_built_revision, ret.
  destruct (last_built_revision s =? -1); simpl; intros [= -> _ _ _];
    by apply svn_update_true in Hu.
Qed.

(** A pass up to the dispatch, step by step. *)
Lemma poll_run env s :
  poll env s =
  if reload_fails env && negb (is_valid (paths_exist env) (config s))
  then (Continue, s, [Sleep 10])
  else
    let s1 := with_config s (reloaded env (config s)) in
    if cleanup_due (time_time env) s1 then
      if cleanup_fails env
      then (Continue, s1, kill_trace ++ cleanup_failed_trace (config s1))
      else
        let r := sync env (with_cleanup_time s1 (time_time env)) in
        (flow_of r, state_of r, (kill_trace ++ [cleanup_event (config s1)]) ++ trace_of r)
    else
      let r := sync env s1 in
      (flow_of r, state_of r, kill_trace ++ trace_of r).
Proof.
  unfold poll, bind. rewrite reload_config_run.
  destruct (_ && _); [done |]. rewrite cleanup_check_run. cbv zeta.
  destruct (cleanup_due _ _); [destruct (cleanup_fails env); [done |] |].
  - destruct (sync env _) as [[[a| |e] s2] t2]; done.
  - destruct (sync env _) as [[[a| |e] s2] t2]; done.
Qed.

Lemma poll_true env s current s' t :
  poll env s = (Normal (true, current), s', t) →
  ∃ before after,
    info_stdout_int (sh_info_before env) = Some before
    ∧ info_stdout_int (sh_info_after env) = Some after
    ∧ before < after.
Proof.
  rewrite poll_run. destruct (_ && _); [done |]. cbv zeta.
  destruct (cleanup_due _ _); [destruct (cleanup_fails env); [done |] |].
  - destruct (sync env _) as [[r s2] t2] eqn:E. unfold flow_of, state_of. simpl.
    intros [= -> _ _]. by apply sync_true in E.
  - destruct (sync env _) as [[r s2] t2] eqn:E. unfold flow_of, state_of. simpl.
    intros [= -> _ _]. by apply sync_true in E.
Qed.

(** X13. A pass whose update brings no newer revision (the revision read
    after [svn update] is not above the one read before it) starts no build,
    runs no archiver, renames nothing, fetches no log and writes no logs
    file; the watermark stays as it is, unless it was unset. *)
Theorem no_new_revision_no_build env s :
  (∀ before after,
      info_stdout_int (sh_info_before env) = Some before →
      info_stdout_int (sh_info_after env) = Some after → after ≤ before) →
  build_attempted (trace_of (loop_body env s)) = false
  ∧ archive_produced (trace_of (loop_body env s)) = false
  ∧ logs_fetched (trace_of (loop_body env s)) = []
  ∧ existsb is_dump (trace_of (loop_body env s)) = false
  ∧ (last_built_revision (state_of (loop_body env s)) = last_built_revision s
     ∨ last_built_revision s = -1).
Proof.
  intros Hsame. rewrite loop_body_run.
  destruct (poll_cases env s)
    as [[Hr H]|[[Hf H]|(t0 & s0 & Hs0 & [(changed & cur & Hi & H)|(e & t & H & Hp)])]].
  - rewrite H. unfold trace_of, state_of. simpl. repeat split; by left.
  - rewrite H. unfold trace_of, state_of, build_attempted, archive_produced.
    cbn [fst snd]. split; [classify |]. split; [classify |].
    split; [sieve; done |]. split; [classify | by left].
  - destruct changed.
    { apply poll_true in H as (b & a & Hb & Ha & Hlt).
      specialize (Hsame _ _ Hb Ha). lia. }
    rewrite H. unfold trace_of, state_of, build_attempted, archive_produced.
    cbn [fst snd with_built last_built_revision].
    split; [reach Hs0; classify |]. split; [reach Hs0; classify |].
    split; [reach Hs0; sieve; done |]. split; [reach Hs0; classify |].
    unfold settled. destruct (Z.eqb_spec (last_built_revision s) (-1)); auto.
  - rewrite H. unfold trace_of, state_of, build_attempted, archive_produced.
    cbn [fst snd]. destruct Hs0 as (Hc & Hb & Ht).
    split; [destruct Ht as [[-> Hl]|(-> & Hf & Hl)]; classify |].
    split; [destruct Ht as [[-> Hl]|(-> & Hf & Hl)]; classify |].
    split; [destruct Ht as [[-> Hl]|(-> & Hf & Hl)]; sieve; done |].
    split; [destruct Ht as [[-> Hl]|(-> & Hf & Hl)]; classify |].
    by left.
Qed.


(** A pass without a valid configuration at hand waits and ends. *)
Lemma loop_body_gives_up env s :
  reload_fails env && negb (is_valid (paths_exist env) (config s)) = true →
  loop_body env s = (Continue, s, [Sleep 10]).
Proof. intros H. by rewrite loop_body_run, poll_run, H. Qed.

(** The trace of a pass starts with the trace of its poll. *)
Lemma loop_body_after_poll env s :
  ∃ rest, trace_of (loop_body env s) = trace_of (poll env s) ++ rest.
Proof.
  rewrite loop_body_run.
  destruct (poll env s) as [[[[changed current]| |e] s1] t1];
    unfold trace_of; cbn [fst snd].
  - destruct changed.
    + destruct (on_revision_changed env current s1) as [[[[]| |e] s2] t2];
        cbn [snd]; by eexists.
    + by eexists.
  - exists []. by rewrite app_nil_r.
  - exists []. by rewrite app_nil_r.
Qed.

(** Every other pass starts by killing the editor. *)
Lemma loop_body_goes_on env s :
  reload_fails env && negb (is_valid (paths_exist env) (config s)) = false →
  ∃ t, trace_of (loop_body env s) = kill_trace ++ t.
Proof.
  intros H. destruct (loop_body_after_poll env s) as [rest ->].
  rewrite poll_run, H. cbv zeta.
  destruct (cleanup_due _ _); [destruct (cleanup_fails env) |];
    unfold trace_of at 1; cbn [snd]; rewrite <- !app_assoc; by eexists.
Qed.

(** X14. A pass that does not raise waits exactly once, and the wait is its
    last event: ten seconds when the reload fails and the held configuration
    is not valid, the update interval of the configuration the pass ends
    with in every other pass. A pass that raises does not wait at all: the
    next pass starts at once. *)
Theorem pass_waits_once_unless_it_raises env s :
  let seconds :=
    if reload_fails env && negb (is_valid (paths_exist env) (config s)) then 10
    else update_interval_in_seconds (svn (config (state_of (loop_body env s)))) in
  match flow_of (loop_body env s) with
  | Raise _ => existsb is_sleep (trace_of (loop_body env s)) = false
  | _ =>
      ∃ t,
        trace_of (loop_body env s) = t ++ [Sleep seconds]
        ∧ existsb is_sleep t = false
  end.
Proof.
  cbv zeta.
  destruct (reload_fails env && negb (is_valid (paths_exist env) (config s))) eqn:Hb.
  { rewrite (loop_body_gives_up env s Hb). by exists []. }
  destruct (loop_body_goes_on env s Hb) as [rest Hrest]. revert Hrest.
  pass_cases env s.
  - done.
  - intros _.
    exists (kill_trace ++ [cleanup_event (reloaded env (config s)); MessageBeep;
                           SoundSay "Falha ao limpar projeto!"]).
    split; [done | classify].
  - intros _. reach Hs0; classify.
  - intros _. destruct Hs0 as (Hc & Hb' & Ht). rewrite app_assoc.
    cbn [with_built config]. rewrite Hc.
    eexists. split; [reflexivity |].
    destruct Ht as [[-> _]|(-> & _ & _)]; classify.
  - intros _.
    set (c1 := reloaded env (config s)) in *.
    set (revs := revisions_read _ _ _) in *.
    set (found := mjoin _) in *.
    set (c := develop found c1) in *.
    outcomes; rewrite ?app_assoc;
      first [ by (eexists; split; [reflexivity |]; reach Hs0; classify)
            | by (reach Hs0; classify) ].
Qed.

(** X15. The time of the last cleanup is set to the time of the pass exactly
    when the pass ran the cleanup and the cleanup did not fail; in every
    other pass it stays as it was. *)
Theorem cleanup_time_recorded env s :
  last_cleanup_time (state_of (loop_body env s))
  = if cleanup_ran (trace_of (loop_body env s)) && negb (cleanup_fails env)
    then time_time env else last_cleanup_time s.
Proof.
  pass_cases env s.
  - done.
  - by rewrite Hf, andb_false_r.
  - reach Hs0; unfold cleanup_ran; classify; by rewrite ?Hf.
  - cbn [with_built last_cleanup_time].
    reach Hs0; unfold cleanup_ran; classify; by rewrite ?Hf.
  - outcomes; reach Hs0; unfold cleanup_ran; classify; by rewrite ?Hf.
Qed.


(** What follows the poll in a pass has no cleanup in it. *)
Lemma cleanup_ran_poll env s :
  cleanup_ran (trace_of (loop_body env s)) = cleanup_ran (trace_of (poll env s)).
Proof.
  rewrite loop_body_run.
  destruct (poll env s) as [[[[changed current]| |e] s1] t1]; [| done | done].
  destruct changed; unfold trace_of, cleanup_ran; cbn [fst snd];
    [| classify; by rewrite ?orb_false_r].
  destruct (on_revision_changed_run env current s1) as (says & Hsays & _ & ->).
  cbv zeta.
  outcomes; classify; by rewrite ?orb_false_r.
Qed.

Lemma cleanup_ran_sync env s : cleanup_ran (trace_of (sync env s)) = false.
Proof.
  destruct (sync_run env s) as [(changed & current & _ & ->)|(e & t & -> & Hp)];
    unfold trace_of, cleanup_ran; cbn [fst snd]; quiet.
Qed.

(** X16. A pass runs [svn cleanup] exactly when it gets past the reload of
    the configuration (a valid one was loaded, or the held one is valid) and
    the working copy was never cleaned, or the time since the last cleanup
    has reached the cleanup timeout of the configuration in effect. *)
Theorem cleanup_runs_when_due env s :
  cleanup_ran (trace_of (loop_body env s))
  = negb (reload_fails env && negb (is_valid (paths_exist env) (config s)))
    && cleanup_due (time_time env) (with_config s (reloaded env (config s))).
Proof.
  rewrite cleanup_ran_poll, poll_run.
  destruct (_ && negb _); [done |]. cbv zeta. cbn [negb andb].
  destruct (cleanup_due _ _).
  - destruct (cleanup_fails env); unfold trace_of at 1; cbn [fst snd].
    + unfold cleanup_ran. classify.
    + unfold cleanup_ran. rewrite !existsb_app. fold (cleanup_ran (trace_of (sync env
        (with_cleanup_time (with_config s (reloaded env (config s))) (time_time env))))).
      rewrite cleanup_ran_sync. reflexivity.
  - unfold trace_of at 1; cbn [fst snd]. unfold cleanup_ran. rewrite existsb_app.
    fold (cleanup_ran (trace_of (sync env (with_config s (reloaded env (config s)))))).
    rewrite cleanup_ran_sync. reflexivity.
Qed.

(** A pass with no valid configuration at hand only waits. *)
Lemma loop_body_idle env s :
  reload_fails env = true → is_valid (paths_exist env) (config s) = false →
  loop_body env s = (Continue, s, [Sleep 10]).
Proof.
  intros Hr Hv. rewrite loop_body_run, poll_run. by rewrite Hr, Hv.
Qed.

(** X17. As long as no valid configuration is loaded and the held one is
    not valid, the loop does nothing but wait ten seconds in each pass: no
    command is run, and the configuration, the watermark and the time of the
    last cleanup stay as they are. *)
Theorem idle_without_valid_configuration envs s :
  Forall (λ env, reload_fails env = true
                 ∧ is_valid (paths_exist env) (config s) = false) envs →
  _run envs s = (s, replicate (length envs) (Sleep 10)).
Proof.
  induction 1 as [|env envs [Hr Hv] _ IH]; [done |].
  cbn [_run]. rewrite (loop_body_idle _ _ Hr Hv).
  unfold state_of, trace_of. cbn [fst snd]. by rewrite IH.
Qed.

(** ** The packager, again *)

Lemma append_inj_l s a b : s +:+ a = s +:+ b → a = b.
Proof.
  induction s as [|ch s IH]; [done |]. rewrite !append_cons. intros [= H]. auto.
Qed.

Lemma temp_archive_not_final c n : temp_archive c n ≠ final_archive c n.
Proof.
  unfold temp_archive, final_archive, temp_name_of, Pathlib.joinpath.
  intros H%app_inv_head. injection H as H. rewrite append_assoc in H.
  by apply append_inj_l in H.
Qed.

(** X18. When the build is a directory and no archive of the final name is
    there once [_compact_file] has returned, [build_compact] leaves no
    archive under the temporary [TRANSFERING...] name, and an archive under
    the final name exactly when the temporary one was there. *)
Theorem transfer_name_does_not_remain sh c build n fs :
  let compacted :=
    _compact_file sh build (override_zip (build_export c))
      (Some (temp_name_of n)) (Some (export_output (build_export c))) fs in
  let r := build_compact sh c build n fs in
  Fs.is_dir fs build = true →
  Fs.exists_ (state_of compacted) (final_archive c n) = false →
  Fs.exists_ (state_of r) (temp_archive c n) = false
  ∧ Fs.exists_ (state_of r) (final_archive c n)
    = Fs.exists_ (state_of compacted) (temp_archive c n).
Proof.
  intros compacted r Hd Hfinal. subst r. rewrite build_compact_run. fold compacted.
  assert (Fs.exists_ (state_of compacted) (temp_archive c n) = true →
          ∃ fs',
            Fs.rename (state_of compacted) (temp_archive c n) (final_archive c n)
            = Some fs'
            ∧ Fs.exists_ fs' (temp_archive c n) = false
            ∧ Fs.exists_ fs' (final_archive c n) = true) as Hmove.
  { intros He. unfold Fs.exists_ in He, Hfinal.
    apply bool_decide_eq_true in He as [e He].
    apply bool_decide_eq_false in Hfinal. apply eq_None_not_Some in Hfinal.
    unfold Fs.rename. rewrite He, Hfinal. eexists. split; [reflexivity |].
    unfold Fs.exists_. split.
    - apply bool_decide_eq_false.
      rewrite lookup_insert_ne by (symmetry; apply temp_archive_not_final).
      rewrite lookup_delete_eq. by intros [? ?].
    - apply bool_decide_eq_true. rewrite lookup_insert_eq. by eexists. }
  rewrite Hd. cbn [andb].
  destruct (flow_of compacted) as [zip| |e] eqn:Hflow.
  3:{ pose proof (_compact_file_raised sh c build n fs e Hflow) as Hno.
      fold compacted in Hno. unfold state_of at 1 3. cbn [fst snd].
      by rewrite Hno, Hfinal. }
  all: destruct (Fs.exists_ (state_of compacted) (temp_archive c n)) eqn:He;
    [| unfold state_of at 1 3; cbn [fst snd]; by rewrite He, Hfinal].
  all: destruct (Hmove eq_refl) as (fs' & -> & Htemp & Hnew);
    unfold state_of at 1 2; cbn [fst snd]; by rewrite Htemp, Hnew.
Qed.

(** X19. With [override_zip] off, an archive left under the temporary name
    by an earlier run is taken for the new one: [build_compact] runs no
    archiver and removes nothing, it only renames what it found to the final
    name. *)
Theorem leftover_transfer_is_published sh c build n fs :
  Fs.is_dir fs build = true →
  override_zip (build_export c) = false →
  Fs.exists_ fs (temp_archive c n) = true →
  trace_of (build_compact sh c build n fs)
  = [Rename (temp_archive c n) (final_archive c n)].
Proof.
  intros Hd Ho He. rewrite build_compact_run, _compact_file_run, zip_path_temp.
  rewrite Hd, He, Ho. unfold flow_of, state_of, trace_of. cbn [negb andb fst snd].
  rewrite He. by destruct (Fs.rename _ _ _).
Qed.


(** ** The logs file and the cues of a pass *)

Lemma dump_trace_logs c (logs : list string) log :
  log ∈ logs → dump_trace c logs = [dump_event (build_find c) logs].
Proof.
  intros H. unfold dump_trace. destruct logs; [by apply elem_of_nil in H | done].
Qed.

(** X20. A pass that skips the build for the ignore keyword, and can
    write the logs file, writes it into the directory of the last build and
    ends as a completed build does: the success sound, the words "Build ...
    completada!", the wait; nothing was built. *)
Theorem skipped_build_is_announced_completed env s r :
  let c := config (state_of (loop_body env s)) in
  log_event c r ∈ trace_of (loop_body env s) →
  Str.contains (sh_log env r) (ignore_build (special_log_keywords c)) = true →
  ignore_build (special_log_keywords c) ≠ make_dev_build (special_log_keywords c) →
  can_dump (disk_before_build env) c = true →
  flow_of (loop_body env s) = Normal tt
  ∧ existsb is_dump (trace_of (loop_body env s)) = true
  ∧ ∃ pre,
      trace_of (loop_body env s)
      = pre ++ success_trace c ++ [Sleep (update_interval_in_seconds (svn c))]
      ∧ build_attempted pre = false.
Proof.
  intros c Hin. subst c.
  apply (elem_of_sieve (is_svn "log")) in Hin; [| done]. revert Hin.
  pass_cases env s.
  - sieve. by intros ?%elem_of_nil.
  - sieve. by intros ?%elem_of_nil.
  - reach Hs0; sieve; by intros ?%elem_of_nil.
  - reach Hs0; sieve; by intros ?%elem_of_nil.
  - set (c1 := reloaded env (config s)) in *.
    set (revs := revisions_read _ _ _) in *.
    set (found := mjoin _) in *.
    assert (log_event (develop found c1) r ∈ log_event c1 <$> revs →
            Str.contains (sh_log env r)
              (ignore_build (special_log_keywords (develop found c1))) = true →
            ignore_build (special_log_keywords (develop found c1))
              ≠ make_dev_build (special_log_keywords (develop found c1)) →
            ignored found c1 = true) as Hig.
    { rewrite develop_log_event. destruct (develop_idem found c1) as [-> ->].
      apply ignored_by_log. }
    pose proof (early_dump_error env (develop found c1) (sh_log env <$> revs)) as Herr.
    destruct (error_of (early_dump _ _ _)) as [e|];
      [| destruct (ignored found c1) eqn:E;
         [| destruct (response_of _);
            [destruct (error_of (packing _ _ _ _)) | |]]];
      cbn [fst snd settle config last_built_revision];
      intros H1 H2 H3 Hcan;
      assert (log_event (develop found c1) r ∈ log_event c1 <$> revs) as Hlog
        by (revert H1; reach Hs0; sieve; done);
      specialize (Hig Hlog H2 H3); try discriminate Hig;
      rewrite (logs_read_nonempty env _ _ _ _ Hlog), Hcan in Herr;
      try discriminate Herr.
    split; [done |].
    assert (sh_log env r ∈ sh_log env <$> revs) as Hlogs.
    { revert Hlog. rewrite develop_log_event.
      intros (r' & E' & Hr')%list_elem_of_fmap. apply log_event_inj in E' as <-.
      apply list_elem_of_fmap. by exists r. }
    rewrite (dump_trace_logs _ _ _ Hlogs).
    split; [reach Hs0; classify |].
    rewrite !app_assoc. rewrite <- (app_assoc _ (success_trace _)).
    eexists. split; [reflexivity |].
    reach Hs0; unfold build_attempted; classify.
Qed.

Lemma dump_text_go (logs : list string) acc :
  fold_left (λ text log, text +:+ log +:+ LF +:+ LF) logs acc
  = acc +:+ fold_left (λ text log, text +:+ log +:+ LF +:+ LF) logs "".
Proof.
  revert acc. induction logs as [|log logs IH]; intros acc; simpl.
  - by rewrite append_empty_r.
  - rewrite IH, (IH ("" +:+ _)). by rewrite !append_empty_l, !append_assoc.
Qed.

(** X21. The logs file is [svn_logs.txt] in the directory given, and its
    text holds every log, each followed by two line feeds, in the order of
    the logs; it is empty only when there is no log. *)
Theorem dump_holds_every_log dir (logs : list string) :
  ∃ text,
    dump_event dir logs = WriteText (dir /: "svn_logs.txt") text
    ∧ (∀ before log after, logs = before ++ log :: after →
         ∃ head tail, text = head +:+ log +:+ LF +:+ LF +:+ tail
                      ∧ dump_event dir before = WriteText (dir /: "svn_logs.txt") head
                      ∧ dump_event dir after = WriteText (dir /: "svn_logs.txt") tail)
    ∧ (∀ log, log ∈ logs → Str.contains text log = true)
    ∧ (text = "" ↔ logs = []).
Proof.
  set (text_of := fold_left (λ text log : string, text +:+ log +:+ LF +:+ LF)).
  assert (∀ before log after,
    text_of (before ++ log :: after) ""
    = text_of before "" +:+ log +:+ LF +:+ LF +:+ text_of after "") as Hcut.
  { intros before log after. unfold text_of. rewrite fold_left_app. cbn [fold_left].
    rewrite dump_text_go. by rewrite !append_assoc. }
  exists (text_of logs ""). split; [reflexivity |]. split; [| split].
  - intros before log after ->. exists (text_of before ""), (text_of after "").
    split; [apply Hcut | done].
  - intros log (before & after & ->)%list_elem_of_split.
    apply contains_iff. exists (text_of before ""), (LF +:+ LF +:+ text_of after "").
    by rewrite Hcut.
  - destruct logs as [|log logs]; [done |]. split; [| done].
    change (log :: logs) with ([] ++ log :: logs).
    rewrite (Hcut [] log logs). unfold text_of at 1. cbn [fold_left].
    rewrite append_empty_l. intros H. apply (f_equal String.length) in H.
    rewrite !append_length in H. cbn [LF String.length] in H. lia.
Qed.

(** ** Keywords *)

Lemma contains_empty_keyword log : Str.contains log "" = true.
Proof. apply contains_iff. by exists "", log. Qed.

Lemma contains_in_empty k : Str.contains "" k = true → k = "".
Proof.
  intros (p & q & H)%contains_iff. destruct p; [| done]. by destruct k.
Qed.

(** X22. The keywords of a configuration are not valid (one of them is
    empty) exactly when the scan finds a command in every log, the empty log
    included: an empty keyword occurs in any text. *)
Theorem invalid_keywords_match_every_log c :
  keywords_is_valid (special_log_keywords c) = false ↔
  ∀ log, log_find_commands c log ≠ [].
Proof.
  unfold keywords_is_valid. split.
  - intros H log Hnone.
    assert (∀ k, k ∈ all_commands (special_log_keywords c) → k ≠ "") as Hne.
    { intros k Hk ->.
      assert ("" ∈ log_find_commands c log) as Hin
        by (apply elem_of_log_find_commands; split; [done | apply contains_empty_keyword]).
      rewrite Hnone in Hin. by apply elem_of_nil in Hin. }
    apply andb_false_iff in H as [H|H]; apply negb_false_iff, String.eqb_eq in H.
    + apply (Hne (make_dev_build (special_log_keywords c))); [| done].
      apply list_elem_of_here.
    + apply (Hne (ignore_build (special_log_keywords c))); [| done].
      apply list_elem_of_further, list_elem_of_here.
  - intros H. specialize (H "").
    destruct (log_find_commands c "") as [|k found] eqn:E; [done |].
    assert (k ∈ log_find_commands c "") as Hk by (rewrite E; apply list_elem_of_here).
    apply elem_of_log_find_commands in Hk as [Hk Hc]. apply contains_in_empty in Hc.
    subst k. unfold all_commands in Hk.
    apply elem_of_cons in Hk as [Hk|Hk]; [| apply list_elem_of_singleton in Hk];
      rewrite <- Hk; simpl; by rewrite ?andb_false_r.
Qed.

(** X23. The build tool is started at most once in a pass, and the two
    [taskkill] commands for the editor come right before it. *)
Theorem build_starts_once_after_kill env s :
  build_attempted (trace_of (loop_body env s)) = true →
  ∃ pre post,
    trace_of (loop_body env s)
    = pre ++ kill_trace ++ [build_event (config (state_of (loop_body env s)))] ++ post
    ∧ build_attempted pre = false
    ∧ build_attempted post = false.
Proof.
  pass_cases env s.
  - done.
  - unfold build_attempted. classify. done.
  - reach Hs0; unfold build_attempted; classify; done.
  - reach Hs0; unfold build_attempted; classify; done.
  - set (c1 := reloaded env (config s)) in *.
    set (revs := revisions_read _ _ _) in *.
    set (found := mjoin _) in *.
    set (c := develop found c1) in *.
    set (logs := sh_log env <$> revs) in *.
    set (cues := [SoundPlayRandom (build_starting (sounds c));
                  SoundSay "Começando a buildar!"]).
    set (pre := t0 ++ sync_trace c1 ++ (log_event c1 <$> revs) ++ says
                  ++ dump_trace c logs ++ cues).
    assert (build_attempted pre = false) as Hpre
      by (subst pre cues; reach Hs0; unfold build_attempted; classify).
    outcomes.
    1,2: reach Hs0; unfold build_attempted; classify; done.
    all: intros _; exists pre; eexists; (split; [| split; [exact Hpre |]]);
      [ subst pre cues; unfold start_trace; rewrite <- !app_assoc; reflexivity
      | unfold build_attempted; classify ].
Qed.

(** ** What a pass settles *)

(** X24. A pass that detects a change and does not raise leaves the
    watermark at the current revision whatever becomes of the build:
    skipped, completed, failed, or ended by an unexpected error. A pass that
    detects a change and raises leaves the watermark as [sync] set it; it
    raises only when the logs file cannot be written before the build, or
    after the build tool has succeeded. *)
Theorem changed_pass_settles_revision env s current :
  flow_of (poll env s) = Normal (true, current) →
  match flow_of (loop_body env s) with
  | Raise _ =>
      last_built_revision (state_of (loop_body env s))
      = last_built_revision (state_of (poll env s))
      ∧ (can_dump (disk_before_build env) (config (state_of (loop_body env s)))
         = false
         ∨ response_of (popen_uat env) = SUCCESS)
  | _ => last_built_revision (state_of (loop_body env s)) = current
  end.
Proof.
  rewrite loop_body_run.
  destruct (poll env s) as [[[[changed cur]| |e] s1] t1]; unfold flow_of at 1;
    cbn [fst snd]; [| done | done].
  intros [= -> ->].
  destruct (on_revision_changed_run env current s1) as (says & _ & _ & ->).
  cbv zeta. unfold flow_of, state_of.
  set (revs := revisions_read _ _ _).
  set (c := develop _ _).
  pose proof (early_dump_error env c (sh_log env <$> revs)) as Herr.
  destruct (error_of (early_dump _ _ _)) as [e|];
    [| destruct (ignored _ _);
       [| destruct (response_of _) eqn:Hresp;
          [destruct (error_of (packing _ _ _ _)) | |]]];
    cbn [fst snd settle with_config config last_built_revision]; try done.
  - split; [done |]. left.
    destruct (can_dump _ _); [| done]. by rewrite andb_false_r in Herr.
  - split; [done |]. by right.
Qed.

(** X25. Beyond taking the configuration that was loaded, the only thing a
    pass changes in the configuration it holds is the build type, which it
    sets to Development. *)
Theorem pass_changes_only_build_type env s :
  config (state_of (loop_body env s)) = config s
  ∨ config (state_of (loop_body env s)) = reloaded env (config s)
  ∨ config (state_of (loop_body env s))
    = set_build_type "Development" (reloaded env (config s)).
Proof.
  pass_cases env s.
  - by left.
  - right. by left.
  - right. left. by destruct Hs0 as (-> & _).
  - right. left. cbn [with_built config]. by destruct Hs0 as (-> & _).
  - right.
    assert (∀ found, develop found (reloaded env (config s)) = reloaded env (config s)
                     ∨ develop found (reloaded env (config s))
                       = set_build_type "Development" (reloaded env (config s))) as Hd
      by (intros found; unfold develop; case_bool_decide; auto).
    outcomes; apply Hd.
Qed.

Lemma revisions_read_length m current w :
  Z.of_nat (length (revisions_read m current w)) ≤ Z.max 0 m.
Proof.
  unfold revisions_read, revision_range, num_revisions_between, range.
  destruct (Z.gtb_spec m 0); cbn [andb]; [| simpl; lia].
  destruct (Z.gtb_spec (Z.max 0 (Z.min m (current - w))) 0); [| simpl; lia].
  rewrite length_seqZ. lia.
Qed.

Lemma develop_max_logs found c :
  max_num_relevant_logs (build_export (develop found c))
  = max_num_relevant_logs (build_export c).
Proof. unfold develop. by case_bool_decide. Qed.

(** X26. A pass fetches at most [max_num_relevant_logs] logs, and none when
    that maximum is not positive. *)
Theorem logs_fetched_bounded env s :
  Z.of_nat (length (logs_fetched (trace_of (loop_body env s))))
  ≤ Z.max 0 (max_num_relevant_logs
               (build_export (config (state_of (loop_body env s))))).
Proof.
  pass_cases env s.
  - sieve. simpl. lia.
  - sieve. simpl. lia.
  - reach Hs0; sieve; simpl; lia.
  - reach Hs0; sieve; simpl; lia.
  - outcomes; rewrite develop_max_logs;
      reach Hs0; sieve; rewrite length_fmap; apply revisions_read_length.
Qed.

(** ** The sounds of a configuration, as text *)

Lemma str_paths_from (before after : list Path) text :
  fold_left (λ text i,
               match (before ++ after) !! i with
               | Some sub_path =>
                   let text := text +:+ Pathlib.name sub_path in
                   if (i <? length (before ++ after))%nat then text +:+ ", " else text
               | None => text
               end)
            (seq (length before) (length after)) text
  = text +:+ SoundPaths.names_listed after.
Proof.
  revert before text. induction after as [|path after IH]; intros before text.
  - simpl. by rewrite append_empty_r.
  - cbn [length seq fold_left SoundPaths.names_listed].
    rewrite (list_lookup_middle before after path (length before) eq_refl).
    cbv zeta.
    replace (length before <? length (before ++ path :: after))%nat with true
      by (symmetry; apply Nat.ltb_lt; rewrite length_app; simpl; lia).
    specialize (IH (before ++ [path]) ((text +:+ Pathlib.name path) +:+ ", ")).
    rewrite <- app_assoc in IH. cbn [app] in IH.
    replace (length (before ++ [path])) with (S (length before)) in IH
      by (rewrite length_app; simpl; lia).
    rewrite IH. by rewrite !append_assoc.
Qed.

(** X27. The text of the sounds section has one line for each of the four
    settings, in their order: its key, a colon, and the name of its path or,
    for a list of paths, the names of all of them, every name followed by a
    comma and a space, the last one too. *)
Theorem sounds_text_lists_every_name self :
  SoundPaths.str self
  = "build starting: " +:+ SoundPaths.setting_listed (build_starting self) +:+ LF
    +:+ "build success: " +:+ SoundPaths.setting_listed (build_success self) +:+ LF
    +:+ "build fail: " +:+ SoundPaths.setting_listed (build_fail self) +:+ LF
    +:+ "build unknown error: "
    +:+ SoundPaths.setting_listed (build_unknown_error self) +:+ LF.
Proof.
  assert (∀ text path,
    match path with
    | OnePath path => text +:+ Pathlib.name path
    | ManyPaths path => SoundPaths.str_paths text path
    end = text +:+ SoundPaths.setting_listed path) as Hline.
  { intros text [path|paths]; [done |]. apply (str_paths_from [] paths). }
  unfold SoundPaths.str. cbn [fold_left]. rewrite !Hline.
  rewrite append_empty_l. by rewrite !append_assoc.
Qed.

(* ===================================================================== *)
(** * The properties on concrete passes *)

Import Example.

(** An event is, or is not, in a trace that computes. *)
Ltac in_trace := apply (bool_decide_unpack _); vm_compute; exact I.

(** C1 as stated fails: revisions 101 to 103 arrive with the watermark at
    100, the build is attempted and the tool cannot be run
    (UNEXPECTED_ERROR); the watermark is 103 when the pass ends. *)
Lemma unexpected_error_moves_watermark :
  build_attempted (trace_of (loop_body (three_new OtherException) at_100)) = true
  ∧ response_of (popen_uat (three_new OtherException)) = UNEXPECTED_ERROR
  ∧ last_built_revision at_100 = 100
  ∧ last_built_revision (state_of (loop_body (three_new OtherException) at_100)) = 103.
Proof. by vm_compute. Qed.

Lemma unexpected_error_advances_watermark_witness :
  build_attempted (trace_of (loop_body (three_new OtherException) at_100)) = true
  ∧ response_of (popen_uat (three_new OtherException)) = UNEXPECTED_ERROR
  ∧ ∃ current,
      info_stdout_int (sh_info_current (three_new OtherException)) = Some current
      ∧ last_built_revision (state_of (loop_body (three_new OtherException) at_100))
        = current
      ∧ SoundSay "Erro inesperado durante build!"
          ∈ trace_of (loop_body (three_new OtherException) at_100)
      ∧ flow_of (loop_body (three_new OtherException) at_100) = Continue
      ∧ ∃ pre,
          trace_of (loop_body (three_new OtherException) at_100)
          = pre ++ unexpected_trace cfg
                ++ [Sleep (update_interval_in_seconds (svn cfg))]
          ∧ existsb is_sleep pre = false.
Proof.
  split; [vm_compute; reflexivity |]. split; [vm_compute; reflexivity |].
  apply (unexpected_error_advances_watermark (three_new OtherException) at_100);
    vm_compute; reflexivity.
Defined.

(** C2 as stated fails on the first pass of a run: the update brings the
    working copy from 95 to 100, the unset watermark becomes 100, the pass
    detects a change with a maximum of ten logs, and it computes no range and
    fetches no log; the bounds of the claim would be 101 and 100 (or, from
    the unset watermark, 91 and 100, ten logs to fetch). *)
Lemma first_pass_reads_no_log :
  flow_of (poll first_pass (initial_state empty)) = Normal (true, 100)
  ∧ max_num_relevant_logs
      (build_export (config (state_of (poll first_pass (initial_state empty))))) = 10
  ∧ last_built_revision (state_of (poll first_pass (initial_state empty))) = 100
  ∧ revision_range 10 100 100 = None
  ∧ logs_fetched (trace_of (loop_body first_pass (initial_state empty))) = []
  ∧ ¬ (Z.max (100 + 1) (100 - 10 + 1) ≤ 100)
  ∧ seqZ (Z.max (-1 + 1) (100 - 10 + 1)) 10 ≠ [].
Proof. vm_compute. repeat split; [intros H; by apply H | done]. Qed.

Lemma revision_range_above_watermark_witness :
  (flow_of (poll (three_new (ExitCode 0)) at_100) = Normal (true, 103)
   ∧ 0 < max_num_relevant_logs
           (build_export (config (state_of (poll (three_new (ExitCode 0)) at_100))))
   ∧ last_built_revision (state_of (poll (three_new (ExitCode 0)) at_100)) < 103
   ∧ logs_fetched (trace_of (loop_body (three_new (ExitCode 0)) at_100))
     = [log_event cfg 101; log_event cfg 102; log_event cfg 103])
  ∧ (flow_of (poll first_pass (initial_state empty)) = Normal (true, 100)
     ∧ 0 < max_num_relevant_logs
             (build_export (config (state_of (poll first_pass (initial_state empty)))))
     ∧ 100 ≤ last_built_revision (state_of (poll first_pass (initial_state empty)))
     ∧ logs_fetched (trace_of (loop_body first_pass (initial_state empty))) = []).
Proof.
  split.
  - split; [vm_compute; reflexivity |]. split; [vm_compute; reflexivity |].
    split; [vm_compute; reflexivity |].
    destruct (revision_range_above_watermark (three_new (ExitCode 0)) at_100 103)
      as [Habove _]; [vm_compute; reflexivity | vm_compute; reflexivity |].
    destruct Habove as (_ & _ & _ & H); [vm_compute; reflexivity |].
    rewrite H. vm_compute. reflexivity.
  - split; [vm_compute; reflexivity |]. split; [vm_compute; reflexivity |].
    split; [vm_compute; discriminate |].
    destruct (revision_range_above_watermark first_pass (initial_state empty) 100)
      as [_ Hbelow]; [vm_compute; reflexivity | vm_compute; reflexivity |].
    destruct Hbelow as [_ H]; [vm_compute; discriminate | exact H].
Defined.



(** C4 as stated fails: an archiver that writes the archive and exits with
    code 2; the temporary archive is there, and it is renamed to the final
    name. *)
Lemma failed_archiver_is_renamed :
  fst <$> sevenzip 2 (temp_archive cfg (build_name 100 cfg)) (build_find cfg) disk0
  = Some 2
  ∧ Rename (temp_archive cfg (build_name 100 cfg)) (final_archive cfg (build_name 100 cfg))
      ∈ trace_of (build_compact (sevenzip 2) cfg (build_find cfg) (build_name 100 cfg) disk0)
  ∧ Fs.exists_
      (state_of (build_compact (sevenzip 2) cfg (build_find cfg) (build_name 100 cfg) disk0))
      (final_archive cfg (build_name 100 cfg)) = true.
Proof.
  split; [reflexivity |]. split; [in_trace | vm_compute; reflexivity].
Qed.

(** C5 as stated fails: the dev-build keyword lies across the seam of
    ["#dev"] and ["build"]; the scan of the concatenation finds it, the
    scans of the two texts find nothing. *)
Lemma keyword_across_the_seam :
  "#devbuild" ∈ scan cfg ("#dev" +:+ "build")
  ∧ "#devbuild" ∉ scan cfg "#dev" ∪ scan cfg "build".
Proof.
  split.
  - apply elem_of_scan. split; [apply list_elem_of_here | vm_compute; reflexivity].
  - rewrite elem_of_union, !elem_of_scan. intros [[_ H]|[_ H]]; vm_compute in H; done.
Qed.



Lemma failed_build_settles_revision_witness :
  build_attempted (trace_of (loop_body (three_new (ExitCode 1)) at_100)) = true
  ∧ popen_uat (three_new (ExitCode 1)) = ExitCode 1
  ∧ 1 ≠ 0
  ∧ response_of (popen_uat (three_new (ExitCode 1))) = FAILED
  ∧ SoundPlayRandom
      (build_fail (sounds (config (state_of (loop_body (three_new (ExitCode 1)) at_100)))))
      ∈ trace_of (loop_body (three_new (ExitCode 1)) at_100)
  ∧ SoundSay "Build falha, melhore!" ∈ trace_of (loop_body (three_new (ExitCode 1)) at_100)
  ∧ archive_produced (trace_of (loop_body (three_new (ExitCode 1)) at_100)) = false
  ∧ ∃ current,
      info_stdout_int (sh_info_current (three_new (ExitCode 1))) = Some current
      ∧ last_built_revision (state_of (loop_body (three_new (ExitCode 1)) at_100))
        = current.
Proof.
  split; [vm_compute; reflexivity |]. split; [reflexivity |]. split; [lia |].
  apply (failed_build_settles_revision (three_new (ExitCode 1)) at_100 1);
    [vm_compute; reflexivity | reflexivity | lia].
Defined.

Lemma compact_existing_archive_witness :
  Fs.is_dir disk_with_archive (build_find cfg) = true
  ∧ Fs.exists_ disk_with_archive
      (zip_path_of (build_find cfg) (Some "game") (Some (export_output (build_export cfg))))
    = true
  ∧ _compact_file (sevenzip 0) (build_find cfg) false (Some "game")
      (Some (export_output (build_export cfg))) disk_with_archive
    = (Normal (Some (zip_path_of (build_find cfg) (Some "game")
                       (Some (export_output (build_export cfg))))),
       disk_with_archive, []).
Proof.
  split; [vm_compute; reflexivity |]. split; [vm_compute; reflexivity |].
  apply (compact_existing_archive (sevenzip 0) (build_find cfg) (Some "game")
           (Some (export_output (build_export cfg))) disk_with_archive);
    vm_compute; reflexivity.
Defined.

Lemma cleanup_failure_ends_pass_witness :
  cleanup_ran (trace_of (loop_body pass_cleanup_fails (state cfg 100 1000))) = true
  ∧ cleanup_fails pass_cleanup_fails = true
  ∧ MessageBeep ∈ trace_of (loop_body pass_cleanup_fails (state cfg 100 1000))
  ∧ update_attempted (trace_of (loop_body pass_cleanup_fails (state cfg 100 1000))) = false
  ∧ build_attempted (trace_of (loop_body pass_cleanup_fails (state cfg 100 1000))) = false
  ∧ last_built_revision (state_of (loop_body pass_cleanup_fails (state cfg 100 1000))) = 100
  ∧ last_cleanup_time (state_of (loop_body pass_cleanup_fails (state cfg 100 1000))) = 1000.
Proof.
  split; [vm_compute; reflexivity |]. split; [vm_compute; reflexivity |].
  apply (cleanup_failure_ends_pass pass_cleanup_fails (state cfg 100 1000));
    vm_compute; reflexivity.
Defined.



(** ** The configuration file and the disk, on a machine *)

Lemma try_find_uproject_path_first_witness :
  try_find_uproject_path Site.host ["C:"; "work"; "Game"]
  = Some ["C:"; "work"; "Game"; "Game.uproject"]
  ∧ Tree.is_dir (tree Site.host) ["C:"; "work"; "Game"] = true.
Proof.
  split; [vm_compute; reflexivity |].
  destruct (try_find_uproject_path_first Site.host ["C:"; "work"; "Game"]
              ["C:"; "work"; "Game"; "Game.uproject"]) as [Hd _];
    [vm_compute; reflexivity | exact Hd].
Defined.

Lemma loaded_intervals_positive_witness :
  Config.init Site.host (Some Site.raw) = Well Site.loaded
  ∧ 0 < update_interval_in_seconds (svn Site.loaded)
  ∧ 1 < cleanup_timeout_in_seconds (svn Site.loaded).
Proof.
  split; [vm_compute; reflexivity |].
  apply (loaded_intervals_positive Site.host (Some Site.raw) Site.loaded).
  vm_compute; reflexivity.
Defined.

Lemma loaded_max_logs_bounded_witness :
  Config.init Site.host (Some Site.raw) = Well Site.loaded
  ∧ max_num_relevant_logs (build_export Site.loaded) < 999
  ∧ max_num_relevant_logs (build_export Site.loaded) ≠ 0.
Proof.
  split; [vm_compute; reflexivity |].
  apply (loaded_max_logs_bounded Site.host (Some Site.raw) Site.loaded).
  vm_compute; reflexivity.
Defined.

Lemma loaded_keywords_valid_witness :
  Config.init Site.host (Some Site.raw) = Well Site.loaded
  ∧ keywords_is_valid (special_log_keywords Site.loaded) = true
  ∧ is_valid (paths_exist_on Site.host) Site.loaded
    = paths_exist_on Site.host Site.loaded.
Proof.
  split; [vm_compute; reflexivity |].
  apply (loaded_keywords_valid Site.host (Some Site.raw) Site.loaded).
  vm_compute; reflexivity.
Defined.

Lemma valid_configuration_read_every_section_witness :
  Config.init Site.host (Some Site.raw) = Well Site.loaded
  ∧ is_valid (paths_exist_on Site.host) Site.loaded = true
  ∧ Svn.read_config Site.host Site.raw (Svn.init Site.host)
    = Well (true, svn Site.loaded).
Proof.
  split; [vm_compute; reflexivity |]. split; [vm_compute; reflexivity |].
  destruct (valid_configuration_read_every_section Site.host Site.raw Site.loaded)
    as (_ & Hsvn & _);
    [vm_compute; reflexivity | vm_compute; reflexivity | exact Hsvn].
Defined.

Lemma sounds_found_are_wav_below_witness :
  ["C:"; "ba"; "snd"; "more"; "fail.wav"]
    ∈ Sound._sound_find_sounds_on_path (tree Site.host) ["C:"; "ba"; "snd"]
  ∧ Tree.is_dir (tree Site.host) ["C:"; "ba"; "snd"] = true
  ∧ ["C:"; "ba"; "snd"] `prefix_of` ["C:"; "ba"; "snd"; "more"; "fail.wav"]
  ∧ ["C:"; "ba"; "snd"; "more"; "fail.wav"] ≠ ["C:"; "ba"; "snd"]
  ∧ Pathlib.suffix ["C:"; "ba"; "snd"; "more"; "fail.wav"] = ".wav".
Proof.
  split; [in_trace |].
  apply (sounds_found_are_wav_below (tree Site.host) ["C:"; "ba"; "snd"]
           ["C:"; "ba"; "snd"; "more"; "fail.wav"]).
  in_trace.
Defined.

(** ** Passes of the loop, again *)

Lemma no_new_revision_no_build_witness :
  build_attempted (trace_of (loop_body Site.nothing_new at_100)) = false
  ∧ archive_produced (trace_of (loop_body Site.nothing_new at_100)) = false
  ∧ logs_fetched (trace_of (loop_body Site.nothing_new at_100)) = []
  ∧ existsb is_dump (trace_of (loop_body Site.nothing_new at_100)) = false
  ∧ (last_built_revision (state_of (loop_body Site.nothing_new at_100))
     = last_built_revision at_100
     ∨ last_built_revision at_100 = -1).
Proof.
  apply (no_new_revision_no_build Site.nothing_new at_100).
  intros before after H1 H2. vm_compute in H1, H2.
  injection H1 as <-. injection H2 as <-. lia.
Defined.

Lemma idle_without_valid_configuration_witness :
  reload_fails Site.unreadable = true
  ∧ is_valid (paths_exist Site.unreadable)
      (config (initial_state (Config.default Site.host))) = false
  ∧ _run [Site.unreadable; Site.unreadable; Site.unreadable]
      (initial_state (Config.default Site.host))
    = (initial_state (Config.default Site.host), [Sleep 10; Sleep 10; Sleep 10]).
Proof.
  split; [reflexivity |]. split; [vm_compute; reflexivity |].
  apply (idle_without_valid_configuration
           [Site.unreadable; Site.unreadable; Site.unreadable]
           (initial_state (Config.default Site.host))).
  repeat constructor; vm_compute; reflexivity.
Defined.

Lemma transfer_name_does_not_remain_witness :
  Fs.is_dir disk0 (build_find cfg) = true
  ∧ Fs.exists_
      (state_of (_compact_file (sevenzip 0) (build_find cfg)
                   (override_zip (build_export cfg))
                   (Some (temp_name_of (build_name 100 cfg)))
                   (Some (export_output (build_export cfg))) disk0))
      (final_archive cfg (build_name 100 cfg)) = false
  ∧ Fs.exists_
      (state_of (build_compact (sevenzip 0) cfg (build_find cfg) (build_name 100 cfg) disk0))
      (temp_archive cfg (build_name 100 cfg)) = false
  ∧ Fs.exists_
      (state_of (build_compact (sevenzip 0) cfg (build_find cfg) (build_name 100 cfg) disk0))
      (final_archive cfg (build_name 100 cfg)) = true.
Proof.
  split; [vm_compute; reflexivity |]. split; [vm_compute; reflexivity |].
  destruct (transfer_name_does_not_remain (sevenzip 0) cfg (build_find cfg)
              (build_name 100 cfg) disk0) as [Htemp Hfinal];
    [vm_compute; reflexivity | vm_compute; reflexivity |].
  split; [exact Htemp |]. rewrite Hfinal. vm_compute. reflexivity.
Defined.

Lemma leftover_transfer_is_published_witness :
  Fs.is_dir Site.disk_with_leftover (build_find cfg) = true
  ∧ override_zip (build_export cfg) = false
  ∧ Fs.exists_ Site.disk_with_leftover (temp_archive cfg (build_name 100 cfg)) = true
  ∧ trace_of (build_compact (sevenzip 0) cfg (build_find cfg) (build_name 100 cfg)
                Site.disk_with_leftover)
    = [Rename (temp_archive cfg (build_name 100 cfg))
              (final_archive cfg (build_name 100 cfg))].
Proof.
  split; [vm_compute; reflexivity |]. split; [reflexivity |].
  split; [vm_compute; reflexivity |].
  apply (leftover_transfer_is_published (sevenzip 0) cfg (build_find cfg)
           (build_name 100 cfg) Site.disk_with_leftover);
    vm_compute; reflexivity.
Defined.

Lemma skipped_build_is_announced_completed_witness :
  log_event (config (state_of (loop_body three_new_ignored at_100))) 102
    ∈ trace_of (loop_body three_new_ignored at_100)
  ∧ can_dump (disk_before_build three_new_ignored)
      (config (state_of (loop_body three_new_ignored at_100))) = true
  ∧ flow_of (loop_body three_new_ignored at_100) = Normal tt
  ∧ existsb is_dump (trace_of (loop_body three_new_ignored at_100)) = true
  ∧ SoundSay "Build Shipping completada!" ∈ trace_of (loop_body three_new_ignored at_100)
  ∧ build_attempted (trace_of (loop_body three_new_ignored at_100)) = false.
Proof.
  split; [in_trace |]. split; [vm_compute; reflexivity |].
  destruct (skipped_build_is_announced_completed three_new_ignored at_100 102)
    as (Hflow & Hdump & _);
    [in_trace | vm_compute; reflexivity | vm_compute; discriminate
    | vm_compute; reflexivity |].
  split; [exact Hflow |]. split; [exact Hdump |].
  split; [in_trace | vm_compute; reflexivity].
Defined.

Lemma build_starts_once_after_kill_witness :
  build_attempted (trace_of (loop_body (three_new (ExitCode 0)) at_100)) = true
  ∧ ∃ pre post,
      trace_of (loop_body (three_new (ExitCode 0)) at_100)
      = pre ++ kill_trace
            ++ [build_event (config (state_of (loop_body (three_new (ExitCode 0)) at_100)))]
            ++ post
      ∧ build_attempted pre = false
      ∧ build_attempted post = false.
Proof.
  split; [vm_compute; reflexivity |].
  apply (build_starts_once_after_kill (three_new (ExitCode 0)) at_100).
  vm_compute; reflexivity.
Defined.

Lemma changed_pass_settles_revision_witness :
  (flow_of (poll (three_new (ExitCode 1)) at_100) = Normal (true, 103)
   ∧ last_built_revision at_100 = 100
   ∧ flow_of (loop_body (three_new (ExitCode 1)) at_100) = Continue
   ∧ last_built_revision (state_of (loop_body (three_new (ExitCode 1)) at_100)) = 103)
  ∧ (flow_of (poll three_new_after_build_100 at_100) = Normal (true, 103)
     ∧ flow_of (loop_body three_new_after_build_100 at_100) = Raise "rename failed"
     ∧ last_built_revision (state_of (loop_body three_new_after_build_100 at_100))
       = 100).
Proof.
  split.
  - split; [vm_compute; reflexivity |]. split; [reflexivity |].
    split; [vm_compute; reflexivity |].
    pose proof (changed_pass_settles_revision (three_new (ExitCode 1)) at_100 103) as H.
    replace (flow_of (loop_body (three_new (ExitCode 1)) at_100))
      with (@Continue unit) in H by (vm_compute; reflexivity).
    apply H. vm_compute. reflexivity.
  - split; [vm_compute; reflexivity |]. split; [vm_compute; reflexivity |].
    pose proof (changed_pass_settles_revision three_new_after_build_100 at_100 103) as H.
    replace (flow_of (loop_body three_new_after_build_100 at_100))
      with (@Raise unit "rename failed") in H by (vm_compute; reflexivity).
    destruct H as [H _]; [vm_compute; reflexivity |].
    rewrite H. vm_compute. reflexivity.
Defined.
